(** * web-webpack-plugin: the HTML document model and the page orchestrator

    A shallow embedding of [lib/HTMLDocument.js], [lib/util.js] and
    [lib/AutoWebPlugin.js].  parse5 nodes are JavaScript objects with
    identity, shared between a document, its cached prototype and every
    clone, so the tree lives in a store of nodes addressed by reference.
    The arrays of chunk names handed to the reconciliation passes are
    mutable objects as well and live in a second store.  A thrown
    exception ends a computation. *)

From Stdlib Require Import ZArith Ascii String List Lia.
From stdpp Require Import base option list strings gmap sorting.

Local Open Scope string_scope.
Local Open Scope list_scope.

(** ** JavaScript strings *)

(** A string is a sequence of code units below 256, one [ascii] each.

    The characters that [String.prototype.trim] strips are the white space
    and the line terminators of ECMAScript.  Below 256 these are TAB
    (U+0009), LF (U+000A), VT (U+000B), FF (U+000C), CR (U+000D), SPACE
    (U+0020) and the no-break space (U+00A0); the others (U+1680,
    U+2000 to U+200A, U+2028, U+2029, U+202F, U+205F, U+3000, U+FEFF) lie
    above 255 and do not occur in these strings. *)
Definition is_white (a : ascii) : bool :=
  let n := nat_of_ascii a in
  (Nat.eqb n 9 || Nat.eqb n 10 || Nat.eqb n 11 || Nat.eqb n 12 || Nat.eqb n 13 || Nat.eqb n 32
   || Nat.eqb n 160)%bool.

Fixpoint trimStart (s : string) : string :=
  match s with
  | String a s' => if is_white a then trimStart s' else s
  | EmptyString => EmptyString
  end.

(** [trimEnd] keeps a character when it is not white space or when something
    survives behind it. *)
Fixpoint trimEnd (s : string) : string :=
  match s with
  | String a s' =>
      match trimEnd s' with
      | EmptyString => if is_white a then EmptyString else String a EmptyString
      | t => String a t
      end
  | EmptyString => EmptyString
  end.

(** [s.trim()] *)
Definition trim (s : string) : string := trimEnd (trimStart s).

(** [s.startsWith(p)] *)
Definition startsWith (p s : string) : bool := String.prefix p s.

(** [s.indexOf(c) >= 0] for a one-character needle. *)
Fixpoint includes_char (c : ascii) (s : string) : bool :=
  match s with
  | String a s' => if Ascii.eqb a c then true else includes_char c s'
  | EmptyString => false
  end.

Definition dquote : string := String (ascii_of_nat 34) EmptyString.
Definition newline : string := String (ascii_of_nat 10) EmptyString.

(** ** JavaScript arrays *)

Section JSArray.
Context {A : Type}.

(** [arr.findIndex(p)]: the index of the first element satisfying [p],
    [-1] when there is none. *)
Fixpoint findIndex_from (p : A -> bool) (l : list A) (i : Z) : Z :=
  match l with
  | [] => (-1)%Z
  | x :: l' => if p x then i else findIndex_from p l' (i + 1)%Z
  end.

Definition findIndex (p : A -> bool) (l : list A) : Z := findIndex_from p l 0%Z.

(** The position [splice] really starts at: a negative [start] counts from
    the end, and the result is clamped to [0 .. length]. *)
Definition splice_start (start : Z) (l : list A) : nat :=
  let len := Z.of_nat (length l) in
  Z.to_nat (if (start <? 0)%Z then Z.max (len + start) 0 else Z.min start len).

(** [arr.splice(start, deleteCount, ...items)], as the new content of the
    array. *)
Definition splice (start : Z) (deleteCount : nat) (items l : list A) : list A :=
  let k := splice_start start l in
  take k l ++ items ++ drop (k + deleteCount) l.
End JSArray.

(** [s.endsWith(p)]: the [length p] characters of [s] that end at its end
    are [p]. *)
Definition endsWith (p s : string) : bool :=
  let n := String.length s in
  let m := String.length p in
  ((m <=? n)%nat && String.eqb (substring (n - m) m s) p)%bool.

(** ** JavaScript objects *)

(** An object that the code fills key by key is kept as its own properties
    in the order in which they were created. *)
Fixpoint setProperty {A} (k : string) (v : A) (o : list (string * A)) : list (string * A) :=
  match o with
  | [] => [(k, v)]
  | (k', v') :: rest =>
      if String.eqb k' k then (k', v) :: rest else (k', v') :: setProperty k v rest
  end.

(** [o[k] = v] on an object that an object literal has made, [v] being an
    object.  Such an object inherits the accessor [__proto__] of
    [Object.prototype]: the assignment to that key changes the prototype of
    [o] and creates no property.  Every other key names no accessor and no
    read-only property on the way up, and becomes an own property.  The
    prototype is not kept: the own properties are all that [Object.keys]
    lists. *)
Definition assignProperty {A} (k : string) (v : A) (o : list (string * A)) : list (string * A) :=
  if String.eqb k "__proto__" then o else setProperty k v o.

(** The same assignment on an object of which only the own properties are
    kept, as a finite map. *)
Definition assignEntry {A} (k : string) (v : A) (o : gmap string A) : gmap string A :=
  if String.eqb k "__proto__" then o else <[k := v]> o.

Definition digitValue (a : ascii) : option N :=
  let n := N_of_ascii a in
  if ((48 <=? n) && (n <=? 57))%N then Some (n - 48)%N else None.

Fixpoint decimal (s : string) (acc : N) : option N :=
  match s with
  | EmptyString => Some acc
  | String a s' =>
      match digitValue a with
      | Some d => decimal s' (10 * acc + d)%N
      | None => None
      end
  end.

(** A key that is an array index: the decimal numeral, without leading
    zero, of a number below [2^32 - 1]. *)
Definition arrayIndex (k : string) : option N :=
  match k with
  | EmptyString => None
  | String a rest =>
      if (Ascii.eqb a "0" && negb (String.eqb rest EmptyString))%bool then None
      else match decimal k 0 with
           | Some n => if (n <? 4294967295)%N then Some n else None
           | None => None
           end
  end.

(** The order of two properties whose keys are array indices. *)
Definition indexLe {A} (x y : string * A) : Prop :=
  (default 0 (arrayIndex (fst x)) <= default 0 (arrayIndex (fst y)))%N.

#[global] Instance indexLe_dec {A} : RelDecision (@indexLe A).
Proof. intros x y. unfold indexLe. apply _. Defined.

(** The order in which [Object.keys] and [for ... in] list the own
    properties: the array indices by ascending value, then the other keys
    in the order of their creation. *)
Definition ownProperties {A} (o : list (string * A)) : list (string * A) :=
  merge_sort indexLe (filter (fun kv => is_Some (arrayIndex (fst kv))) o)
  ++ filter (fun kv => arrayIndex (fst kv) = None) o.

(** ** JavaScript regular expressions *)

(** The patterns that the code uses are sequences of items, an item being
    one character or one character repeated once or more, the character
    given literally or as [.], and the whole followed by [$]. *)
Inductive charClass :=
| AnyChar
| Char (a : ascii).

Inductive regexItem :=
| One (c : charClass)
| OneOrMore (c : charClass).

(** The line terminators, which [.] does not match: LF and CR; the other
    two, U+2028 and U+2029, lie above 255. *)
Definition lineTerminator (a : ascii) : bool :=
  (Nat.eqb (nat_of_ascii a) 10 || Nat.eqb (nat_of_ascii a) 13)%bool.

Definition inClass (c : charClass) (a : ascii) : bool :=
  match c with
  | AnyChar => negb (lineTerminator a)
  | Char b => Ascii.eqb a b
  end.

(** [items] followed by [$] match [s] from its first character to its
    last. *)
Fixpoint matchesToEnd (items : list regexItem) (s : string) : bool :=
  match items with
  | [] => match s with EmptyString => true | String _ _ => false end
  | One c :: rest =>
      match s with
      | String a s' => (inClass c a && matchesToEnd rest s')%bool
      | EmptyString => false
      end
  | OneOrMore c :: rest =>
      (fix more (s : string) : bool :=
         match s with
         | String a s' => (inClass c a && (matchesToEnd rest s' || more s'))%bool
         | EmptyString => false
         end) s
  end.

(** [/items$/.test(s)]: a match may begin at any character of [s]. *)
Fixpoint test (items : list regexItem) (s : string) : bool :=
  (matchesToEnd items s
   || match s with String _ s' => test items s' | EmptyString => false end)%bool.

(** The items of a pattern that is [w] spelled out, every character
    standing for itself. *)
Definition literal (w : string) : list regexItem :=
  map (fun a => One (Char a)) (list_ascii_of_string w).

(** ** parse5 nodes *)

(** A reference to a node object. *)
Abbreviation nid := nat (only parsing).

(** The fields of a parse5 node that the plugin reads or writes.  [data] is
    the text of a [#comment], [value] the text of a [#text]; [childNodes] is
    [None] for an object that has no such property, as the nodes made by
    [mockScriptNode] with a [src]. *)
Record Node := mkNode {
  nodeName : string;
  tagName : string;
  attrs : list (string * string);
  data : string;
  value : string;
  parentNode : option nid;
  childNodes : option (list nid)
}.

Definition set_childNodes (cs : list nid) (n : Node) : Node :=
  mkNode (nodeName n) (tagName n) (attrs n) (data n) (value n) (parentNode n) (Some cs).

Definition set_value (v : string) (n : Node) : Node :=
  mkNode (nodeName n) (tagName n) (attrs n) (data n) v (parentNode n) (childNodes n).

(** [attrs.find(a => a.name === name)], giving the value. *)
Fixpoint getAttr (name : string) (l : list (string * string)) : option string :=
  match l with
  | [] => None
  | (k, v) :: l' => if String.eqb k name then Some v else getAttr name l'
  end.

(** ** The Resource Model *)

Module Resource.

(** The [data] of the wrapped node, which the field of the same name
    below hides. *)
Definition nodeData (n : Node) : string := data n.

Inductive kind := script | style | comment | other.

#[global] Instance kind_eq_dec : EqDecision kind.
Proof. solve_decision. Defined.

(** The wrapper around one node: the node it wraps, its kind, the chunk
    name of an external script or stylesheet, and the payload of a
    comment. *)
Record t := mk {
  node : nid;
  type : kind;
  chunkName : option string;
  data : string
}.

(** The suffix of [s] after its last ['/'] decides: [Some] carries [s] cut
    at the last ['.'] of that suffix, [None] says that [s] has neither. *)
Fixpoint cutExt (s : string) : option string :=
  match s with
  | EmptyString => None
  | String a s' =>
      match cutExt s' with
      | Some t => Some (String a t)
      | None =>
          if Ascii.eqb a "."%char then Some EmptyString
          else if Ascii.eqb a "/"%char then Some s
          else None
      end
  end.

(** Modelled from the spec: [lib/Resource.js] is missing; this is the
    "file extension removed" of section 4.1, the extension being what
    starts at the last dot of the last path segment. *)
Definition stripExt (s : string) : string := default s (cutExt s).

(** Modelled from the spec: the constructor of the missing
    [lib/Resource.js], after section 4.1.  A [script] node is a script
    whose chunk name is its [src] without extension ([None] for an inline
    script); a [link rel=stylesheet] is a style whose chunk name is its
    [href] without extension; a [style] block is a style with no chunk
    name; a [#comment] is a comment carrying its trimmed text; anything
    else is [other]. *)
Definition new (ref : nid) (n : Node) (htmlFilePath : option string) : t :=
  if String.eqb (nodeName n) "script" then
    mk ref script (stripExt <$> getAttr "src" (attrs n)) EmptyString
  else if String.eqb (nodeName n) "link" then
    match getAttr "rel" (attrs n) with
    | Some rel =>
        if String.eqb rel "stylesheet"
        then mk ref style (stripExt <$> getAttr "href" (attrs n)) EmptyString
        else mk ref other None EmptyString
    | None => mk ref other None EmptyString
    end
  else if String.eqb (nodeName n) "style" then
    mk ref style None EmptyString
  else if String.eqb (nodeName n) "#comment" then
    mk ref comment None (trim (nodeData n))
  else mk ref other None EmptyString.

(** Modelled from the spec: [clone] of the missing [lib/Resource.js], "an
    independent copy" that duplicates the reference to the node. *)
Definition clone (r : t) : t := mk (node r) (type r) (chunkName r) (data r).

End Resource.

(** ** The document object and the store *)

(** The fields that the constructor of [HTMLDocument] declares. *)
Record HTMLDocument := mkDoc {
  document : option nid;
  headNode : option nid;
  bodyNode : option nid;
  scriptResources : list Resource.t;
  stylesResources : list Resource.t;
  scriptInjectCommentNode : option nid;
  styleInjectCommentNode : option nid;
  htmlTemplateFilePath : option string
}.

(** A reference to an array of chunk names. *)
Abbreviation aid := nat (only parsing).

(** The store: the node objects, the arrays of chunk names, and the
    process-wide [HTMLDocumentCacheMap]. *)
Record state := mkState {
  nodes : list Node;
  arrays : list (list string);
  HTMLDocumentCacheMap : gmap string HTMLDocument
}.

(** What a call can throw.  [TypeError] is the property access on [null] or
    [undefined]; [FsError] is what [fs.readFileSync] throws; [Error] is what
    a class of the host build tool throws for options that it refuses.
    [Dangling] is no JavaScript exception: it marks a reference that the
    store does not hold, which no run of the program produces. *)
Inductive exn := TypeError | FsError | Error | Dangling.

Inductive result (A : Type) :=
| Ok (a : A)
| Throw (e : exn).
Arguments Ok {A} a.
Arguments Throw {A} e.

(** Computations over the store that may throw; the store at the time of
    the throw stays visible. *)
Definition M (A : Type) : Type := state -> result A * state.

Definition ret {A} (a : A) : M A := fun s => (Ok a, s).

Definition bind {A B} (m : M A) (k : A -> M B) : M B :=
  fun s => match m s with
           | (Ok a, s') => k a s'
           | (Throw e, s') => (Throw e, s')
           end.

Definition throw {A} (e : exn) : M A := fun s => (Throw e, s).

Notation "x <- m ;; k" := (bind m (fun x => k))
  (at level 100, m at next level, right associativity).
Notation "m ;;; k" := (bind m (fun _ => k))
  (at level 100, right associativity).

(** Reading through a reference that may be [null]. *)
Definition notNull {A} (o : option A) : M A :=
  match o with
  | Some a => ret a
  | None => throw TypeError
  end.

Definition getNode (i : nid) : M Node :=
  fun s => match nodes s !! i with
           | Some n => (Ok n, s)
           | None => (Throw Dangling, s)
           end.

Definition setNode (i : nid) (n : Node) : M unit :=
  fun s => (Ok tt, mkState (<[i := n]> (nodes s)) (arrays s) (HTMLDocumentCacheMap s)).

(** An object literal: a new node at the next free reference. *)
Definition newNode (n : Node) : M nid :=
  fun s => (Ok (length (nodes s)),
            mkState (nodes s ++ [n]) (arrays s) (HTMLDocumentCacheMap s)).

(** [node.childNodes] of the node behind [i], and the assignment to it by a
    mutating array method. *)
Definition getChildNodes (i : nid) : M (option (list nid)) :=
  n <- getNode i ;; ret (childNodes n).

Definition setChildNodes (i : nid) (cs : list nid) : M unit :=
  n <- getNode i ;; setNode i (set_childNodes cs n).

Definition getArray (r : aid) : M (list string) :=
  fun s => match arrays s !! r with
           | Some l => (Ok l, s)
           | None => (Throw Dangling, s)
           end.

Definition setArray (r : aid) (l : list string) : M unit :=
  fun s => (Ok tt, mkState (nodes s) (<[r := l]> (arrays s)) (HTMLDocumentCacheMap s)).

(** [[...arr]] and array literals: a new array. *)
Definition newArray (l : list string) : M aid :=
  fun s => (Ok (length (arrays s)),
            mkState (nodes s) (arrays s ++ [l]) (HTMLDocumentCacheMap s)).

Definition getCache : M (gmap string HTMLDocument) :=
  fun s => (Ok (HTMLDocumentCacheMap s), s).

Definition setCache (k : string) (d : HTMLDocument) : M unit :=
  fun s => (Ok tt, mkState (nodes s) (arrays s) (<[k := d]> (HTMLDocumentCacheMap s))).

(** [l.forEach(x => f(x))] and [l.map(x => f(x))] with an effectful body. *)
Fixpoint forEach {A} (f : A -> M unit) (l : list A) : M unit :=
  match l with
  | [] => ret tt
  | x :: l' => f x ;;; forEach f l'
  end.

Fixpoint mapM {A B} (f : A -> M B) (l : list A) : M (list B) :=
  match l with
  | [] => ret []
  | x :: l' => y <- f x ;; ys <- mapM f l' ;; ret (y :: ys)
  end.

(** A loop whose body updates a local (here: the fields of [this]). *)
Fixpoint foldM {A S} (f : S -> A -> M S) (l : list A) (acc : S) : M S :=
  match l with
  | [] => ret acc
  | x :: l' => acc' <- f acc x ;; foldM f l' acc'
  end.

(** ** lib/util.js *)

Module util.

(** The object literal that [mockScriptNode] returns for a string [src];
    it has no [childNodes]. *)
Definition scriptNode (src : string) (parentNode : option nid) : Node :=
  mkNode "script" "script" [("src", src)] EmptyString EmptyString parentNode None.

(** The object literal that [mockStyleNode] returns for a string [href]. *)
Definition styleNode (href : string) (parentNode : option nid) : Node :=
  mkNode "link" "link" [("rel", "stylesheet"); ("href", href)]
         EmptyString EmptyString parentNode None.

(** [mockScriptNode({src, parentNode})] for a string [src], the branch
    that every call of [HTMLDocument] takes. *)
Definition mockScriptNode (src : string) (parentNode : option nid) : M nid :=
  newNode (scriptNode src parentNode).

(** [mockStyleNode({href, parentNode})] for a string [href]. *)
Definition mockStyleNode (href : string) (parentNode : option nid) : M nid :=
  newNode (styleNode href parentNode).

(** The array [oldNodes[0].parentNode.childNodes], read through its
    owner. *)
Definition childrenOf (p : nid) : M (list nid) :=
  ocs <- getChildNodes p ;; notNull ocs.

(** [replaceNodesWithNodes(oldNodes, newNodes)].  [findIndex] answers [-1]
    for a node that is not in the array, and [splice] then counts from
    the end. *)
Definition replaceNodesWithNodes (oldNodes newNodes : list nid) : M unit :=
  o0 <- notNull (head oldNodes) ;;
  n0 <- getNode o0 ;;
  p <- notNull (parentNode n0) ;;
  _ <- childrenOf p ;;
  index <- foldM (fun (_ : Z) oldNode =>
                    cs <- childrenOf p ;;
                    let index := findIndex (Nat.eqb oldNode) cs in
                    setChildNodes p (splice index 1 [] cs) ;;;
                    ret index)
                 oldNodes 0%Z ;;
  cs <- childrenOf p ;;
  setChildNodes p (splice index 0 newNodes cs).

(** The constructors that [plugin.__proto__.constructor] is compared
    with; [OtherClass] is any other constructor. *)
Inductive pluginClass := DefinePlugin | ExtractTextPlugin | OtherClass.

#[global] Instance pluginClass_eq_dec : EqDecision pluginClass.
Proof. solve_decision. Defined.

(** An object among [compiler.options.plugins], as far as the two tests
    below look into it: the constructor of its prototype, [None] for an
    object without prototype; the properties of [plugin.definitions] that
    hold a string, [None] when [plugin.definitions] is [null] or
    [undefined]; and [plugin.filename] when it is a string. *)
Record plugin := mkPlugin {
  proto_constructor : option pluginClass;
  definitions : option (gmap string string);
  plugin_filename : option string
}.

(** What the two tests read of the process and of the compiler:
    [process.env.NODE_ENV], whether [require('extract-text-webpack-plugin')]
    returns, and [compiler.options.plugins], [None] when it is [undefined],
    an element [None] when it is [null] or [undefined]. *)
Record host := mkHost {
  NODE_ENV : option string;
  extractTextInstalled : bool;
  plugins : option (list (option plugin))
}.

(** The body of the [try] of [isProduction], for one plugin: whether it is
    a [DefinePlugin] that defines [process.env.NODE_ENV] as the text
    ["production"], the quotes included. *)
Definition definesProduction (plugin : option plugin) : result bool :=
  match plugin with
  | None => Throw TypeError
  | Some p =>
      match proto_constructor p with
      | None => Throw TypeError
      | Some c =>
          if bool_decide (c = DefinePlugin) then
            match definitions p with
            | None => Throw TypeError
            | Some defs =>
                Ok (bool_decide (defs !! "process.env.NODE_ENV"
                                 = Some (dquote ++ "production" ++ dquote)%string))
            end
          else Ok false
      end
  end.

(** The loop of [isProduction]: what a plugin throws is caught inside the
    loop, which goes on. *)
Fixpoint isProduction_loop (plugins : list (option plugin)) : bool :=
  match plugins with
  | [] => false
  | plugin :: rest =>
      match definesProduction plugin with
      | Ok true => true
      | Ok false => isProduction_loop rest
      | Throw _ => isProduction_loop rest
      end
  end.

(** [isProduction(compiler)] *)
Definition isProduction (c : host) : result bool :=
  if bool_decide (NODE_ENV c = Some "production") then Ok true
  else match plugins c with
       | None => Throw TypeError
       | Some ps => Ok (isProduction_loop ps)
       end.

(** The body of the loop of [isExtractStyle], for one plugin: whether it
    is an [ExtractTextPlugin] whose [filename] ends with [.css]. *)
Definition extractsCss (plugin : option plugin) : result bool :=
  match plugin with
  | None => Throw TypeError
  | Some p =>
      match proto_constructor p with
      | None => Throw TypeError
      | Some c =>
          if bool_decide (c = ExtractTextPlugin) then
            match plugin_filename p with
            | None => Throw TypeError
            | Some f => Ok (endsWith ".css" f)
            end
          else Ok false
      end
  end.

(** The loop of [isExtractStyle]: what a plugin throws ends the loop. *)
Fixpoint isExtractStyle_loop (plugins : list (option plugin)) : result bool :=
  match plugins with
  | [] => Ok false
  | plugin :: rest =>
      match extractsCss plugin with
      | Ok true => Ok true
      | Ok false => isExtractStyle_loop rest
      | Throw e => Throw e
      end
  end.

(** [isExtractStyle(compiler)]: the [try] is around the [require] and the
    whole loop, and the [catch] falls through to [return false]. *)
Definition isExtractStyle (c : host) : bool :=
  if extractTextInstalled c then
    match plugins c with
    | None => false
    | Some ps =>
        match isExtractStyle_loop ps with
        | Ok b => b
        | Throw _ => false
        end
    end
  else false.

(** [/.+\.hot-update\.js$/] *)
Definition hotUpdatePattern : list regexItem := OneOrMore AnyChar :: literal ".hot-update.js".

(** [isHotUpdateCompilation(compilation)], given [Object.keys(compilation.assets)]. *)
Fixpoint isHotUpdateCompilation (files : list string) : bool :=
  match files with
  | [] => false
  | name :: rest => if test hotUpdatePattern name then true else isHotUpdateCompilation rest
  end.

End util.

(** ** lib/HTMLDocument.js *)

(** What the host build tool and the file system supply: [path.resolve('.', p)],
    [fs.readFileSync] ([None] when it throws) and [parse5.parse], which
    gives the nodes of a new tree for the first free reference, the
    [#document] node first. *)
Record env := mkEnv {
  path_resolve : string -> string;
  readFileSync : string -> option string;
  parse5_parse : string -> nid -> list Node
}.

(** [global._isProduction] and [global._isExtractStyle]. *)
Record globals := mkGlobals {
  _isProduction : bool;
  _isExtractStyle : bool
}.

Definition DefaultHtmlTemplate : string :=
  newline ++ "<!DOCTYPE html>" ++ newline ++ "<html>" ++ newline ++ "<head>" ++ newline
  ++ "    <meta charset=" ++ dquote ++ "UTF-8" ++ dquote ++ ">" ++ newline
  ++ "</head>" ++ newline ++ "<body>" ++ newline ++ "<!--SCRIPT-->" ++ newline
  ++ "</body>" ++ newline ++ "</html>" ++ newline.

Definition set_headNode (v : option nid) (d : HTMLDocument) : HTMLDocument :=
  mkDoc (document d) v (bodyNode d) (scriptResources d) (stylesResources d)
        (scriptInjectCommentNode d) (styleInjectCommentNode d) (htmlTemplateFilePath d).

Definition set_bodyNode (v : option nid) (d : HTMLDocument) : HTMLDocument :=
  mkDoc (document d) (headNode d) v (scriptResources d) (stylesResources d)
        (scriptInjectCommentNode d) (styleInjectCommentNode d) (htmlTemplateFilePath d).

Definition push_scriptResource (r : Resource.t) (d : HTMLDocument) : HTMLDocument :=
  mkDoc (document d) (headNode d) (bodyNode d) (scriptResources d ++ [r]) (stylesResources d)
        (scriptInjectCommentNode d) (styleInjectCommentNode d) (htmlTemplateFilePath d).

Definition push_stylesResource (r : Resource.t) (d : HTMLDocument) : HTMLDocument :=
  mkDoc (document d) (headNode d) (bodyNode d) (scriptResources d) (stylesResources d ++ [r])
        (scriptInjectCommentNode d) (styleInjectCommentNode d) (htmlTemplateFilePath d).

Definition set_scriptInjectCommentNode (v : option nid) (d : HTMLDocument) : HTMLDocument :=
  mkDoc (document d) (headNode d) (bodyNode d) (scriptResources d) (stylesResources d)
        v (styleInjectCommentNode d) (htmlTemplateFilePath d).

Definition set_styleInjectCommentNode (v : option nid) (d : HTMLDocument) : HTMLDocument :=
  mkDoc (document d) (headNode d) (bodyNode d) (scriptResources d) (stylesResources d)
        (scriptInjectCommentNode d) v (htmlTemplateFilePath d).

(** The body of the [forEach] of [_findScriptStyleTagComment]: what one
    scanned resource does to [this]. *)
Definition record_resource (this : HTMLDocument) (resource : Resource.t) : HTMLDocument :=
  match Resource.type resource with
  | Resource.script => push_scriptResource resource this
  | Resource.style => push_stylesResource resource this
  | Resource.comment =>
      if String.eqb (Resource.data resource) "SCRIPT"
      then set_scriptInjectCommentNode (Some (Resource.node resource)) this
      else if String.eqb (Resource.data resource) "STYLE"
      then set_styleInjectCommentNode (Some (Resource.node resource)) this
      else this
  | Resource.other => this
  end.

(** [_findScriptStyleTagComment(node)], given [node.childNodes]. *)
Definition _findScriptStyleTagComment (this : HTMLDocument) (childNodes : option (list nid))
  : M HTMLDocument :=
  cs <- notNull childNodes ;;
  foldM (fun this childNode =>
           n <- getNode childNode ;;
           ret (record_resource this (Resource.new childNode n (htmlTemplateFilePath this))))
        cs this.

(** [_findOutAll()] *)
Definition _findOutAll (this : HTMLDocument) : M HTMLDocument :=
  d <- notNull (document this) ;;
  top <- util.childrenOf d ;;
  foldM (fun this node =>
           n <- getNode node ;;
           if String.eqb (nodeName n) "html" then
             cs <- notNull (childNodes n) ;;
             foldM (fun this node =>
                      n <- getNode node ;;
                      if String.eqb (nodeName n) "head" then
                        _findScriptStyleTagComment (set_headNode (Some node) this) (childNodes n)
                      else if String.eqb (nodeName n) "body" then
                        _findScriptStyleTagComment (set_bodyNode (Some node) this) (childNodes n)
                      else ret this)
                   cs this
           else ret this)
        top this.

(** The first loop of both passes: every resource removes the first
    occurrence of its chunk name from the array. *)
Definition removePresent (resources : list Resource.t) (requires : aid) : M unit :=
  forEach (fun resource =>
             arr <- getArray requires ;;
             let index :=
               findIndex (fun one => bool_decide (Some one = Resource.chunkName resource)) arr in
             if (0 <=? index)%Z then setArray requires (splice index 1 [] arr) else ret tt)
          resources.

(** [_ensureRequireScripts(requiresScripts)] *)
Definition _ensureRequireScripts (this : HTMLDocument) (requiresScripts : aid) : M (list nid) :=
  removePresent (scriptResources this) requiresScripts ;;;
  arr <- getArray requiresScripts ;;
  if (0 <? length arr)%nat then
    match scriptInjectCommentNode this with
    | Some marker =>
        leftScriptNodes <- mapM (fun chunkName =>
                                   m <- getNode marker ;;
                                   util.mockScriptNode chunkName (parentNode m)) arr ;;
        util.replaceNodesWithNodes [marker] leftScriptNodes ;;;
        ret leftScriptNodes
    | None =>
        leftScriptNodes <- mapM (fun chunkName =>
                                   util.mockScriptNode chunkName (bodyNode this)) arr ;;
        body <- notNull (bodyNode this) ;;
        cs <- util.childrenOf body ;;
        setChildNodes body (cs ++ leftScriptNodes) ;;;
        ret leftScriptNodes
    end
  else ret [].

(** [_ensureRequireStyles(requiresStyles)] *)
Definition _ensureRequireStyles (this : HTMLDocument) (requiresStyles : aid) : M (list nid) :=
  removePresent (stylesResources this) requiresStyles ;;;
  arr <- getArray requiresStyles ;;
  if (0 <? length arr)%nat then
    match styleInjectCommentNode this with
    | Some marker =>
        leftStyleNodes <- mapM (fun chunkName =>
                                  m <- getNode marker ;;
                                  util.mockStyleNode chunkName (parentNode m)) arr ;;
        util.replaceNodesWithNodes [marker] leftStyleNodes ;;;
        ret leftStyleNodes
    | None =>
        leftStyleNodes <- mapM (fun chunkName =>
                                  util.mockStyleNode chunkName (headNode this)) arr ;;
        head <- notNull (headNode this) ;;
        cs <- util.childrenOf head ;;
        setChildNodes head (cs ++ leftStyleNodes) ;;;
        ret leftStyleNodes
    end
  else ret [].

(** [[...requires]] *)
Definition copyArray (requires : aid) : M aid :=
  arr <- getArray requires ;; newArray arr.

(** [ensureRequires(requires)] *)
Definition ensureRequires (G : globals) (this : HTMLDocument) (requires : aid) : M HTMLDocument :=
  c1 <- copyArray requires ;;
  lefts1 <- _ensureRequireScripts this c1 ;;
  lefts2 <- (if _isExtractStyle G
             then c2 <- copyArray requires ;; _ensureRequireStyles this c2
             else ret []) ;;
  _findScriptStyleTagComment this (Some (lefts1 ++ lefts2)).

(** The loop of [mini] over the array owned by [p], about to visit the
    indices [i - 1] down to [0]. *)
Fixpoint mini_loop (p : nid) (i : nat) : M unit :=
  match i with
  | O => ret tt
  | S j =>
      cs <- util.childrenOf p ;;
      node <- notNull (cs !! j) ;;
      n <- getNode node ;;
      (if (String.eqb (nodeName n) "#comment" && negb (startsWith "[if " (data n)))%bool then
         setChildNodes p (splice (Z.of_nat j) 1 [] cs)
       else if String.eqb (nodeName n) "#text" then
         setNode node (set_value (trim (value n)) n) ;;;
         if Nat.eqb (String.length (trim (value n))) 0 then
           cs' <- util.childrenOf p ;;
           setChildNodes p (splice (Z.of_nat j) 1 [] cs')
         else ret tt
       else ret tt) ;;;
      mini_loop p j
  end.

(** [mini(childNodes)], the array being the [childNodes] of [p]. *)
Definition mini (p : nid) : M unit :=
  cs <- util.childrenOf p ;;
  mini_loop p (length cs).

(** The loop of [pretty]; its [return] ends the whole loop. *)
Fixpoint pretty_loop (p : nid) (i : nat) : M unit :=
  match i with
  | O => ret tt
  | S j =>
      cs <- util.childrenOf p ;;
      node <- notNull (cs !! j) ;;
      n <- getNode node ;;
      if negb (String.eqb (nodeName n) "#text") then
        stop <- match (match j with O => None | S k => cs !! k end) with
                | Some preNode =>
                    pn <- getNode preNode ;;
                    ret (String.eqb (nodeName pn) "#text"
                         && includes_char (ascii_of_nat 10) (value pn))%bool
                | None => ret false
                end ;;
        if (stop : bool) then ret tt
        else
          t <- newNode (mkNode "#text" EmptyString [] EmptyString newline (parentNode n) None) ;;
          util.replaceNodesWithNodes [node] [t; node] ;;;
          pretty_loop p j
      else pretty_loop p j
  end.

Definition pretty (p : nid) : M unit :=
  cs <- util.childrenOf p ;;
  pretty_loop p (length cs).

(** [serialize()]; [parse5_serialize] stands for [parse5.serialize], which
    reads the tree below [this.document]. *)
Definition serialize (parse5_serialize : list Node -> option nid -> string)
    (G : globals) (this : HTMLDocument) : M string :=
  let f := if _isProduction G then mini else pretty in
  head <- notNull (headNode this) ;;
  f head ;;;
  body <- notNull (bodyNode this) ;;
  f body ;;;
  fun s => (Ok (parse5_serialize (nodes s) (document this)), s).

(** [clone()].  [Object.assign({}, this)] copies the references
    [headNode] and [bodyNode], so the two assignments write a copy of each
    child array into the node that [this] holds as well. *)
Definition clone (this : HTMLDocument) : M HTMLDocument :=
  head <- notNull (headNode this) ;;
  hcs <- util.childrenOf head ;;
  setChildNodes head hcs ;;;
  body <- notNull (bodyNode this) ;;
  bcs <- util.childrenOf body ;;
  setChildNodes body bcs ;;;
  ret (mkDoc (document this) (headNode this) (bodyNode this)
             (map Resource.clone (scriptResources this))
             (map Resource.clone (stylesResources this))
             (scriptInjectCommentNode this) (styleInjectCommentNode this)
             (htmlTemplateFilePath this)).

(** The property key that a template path becomes: [undefined] is the key
    ["undefined"]. *)
Definition cacheKey (htmlTemplateFilePath : option string) : string :=
  default "undefined" htmlTemplateFilePath.

(** [parse5.parse(htmlString)]: the new tree is put behind the nodes that
    exist. *)
Definition parse (E : env) (htmlString : string) : M nid :=
  fun s => (Ok (length (nodes s)),
            mkState (nodes s ++ parse5_parse E htmlString (length (nodes s)))
                    (arrays s) (HTMLDocumentCacheMap s)).

(** [new HTMLDocument(htmlTemplateFilePath)].  The cache is asked for the
    path as given and filled under the resolved path. *)
Definition constructor (E : env) (htmlTemplateFilePath : option string) : M HTMLDocument :=
  c <- getCache ;;
  match c !! cacheKey htmlTemplateFilePath with
  | Some proto => clone proto
  | None =>
      source <-
          match htmlTemplateFilePath with
          | Some p =>
              match readFileSync E (path_resolve E p) with
              | Some text => ret (Some (path_resolve E p), text)
              | None => throw FsError
              end
          | None => ret (None, DefaultHtmlTemplate)
          end ;;
      root <- parse E (snd source) ;;
      this <- _findOutAll (mkDoc (Some root) None None [] [] None None (fst source)) ;;
      proto <- clone this ;;
      setCache (cacheKey (fst source)) proto ;;;
      ret this
  end.

(** ** lib/AutoWebPlugin.js *)

Module AutoWebPlugin.

(** The JavaScript values that reach [apply] through the options. *)
Inductive jsval :=
| JUndefined
| JNull
| JBool (b : bool)
| JString (s : string)
| JStrings (l : list string).

(** [options.commonsChunk {Object}]: left out, [null], or an object with
    its own properties in order. *)
Inductive commonsChunkOption :=
| Absent
| Null
| Obj (props : list (string * jsval)).

Record options := mkOptions {
  commonsChunk : commonsChunkOption;
  preEntrys : option (list jsval);
  postEntrys : option (list jsval);
  stylePublicPath : jsval;
  outputPagemap : bool
}.

Record pageEntry := mkPageEntry {
  template : jsval;
  entryPath : jsval;
  filename : jsval
}.

(** The instance: [this.options] and [this.entryMap], the latter in the
    order in which [Object.keys] lists it. *)
Record t := mk {
  this_options : options;
  entryMap : list (string * pageEntry)
}.

(** What [apply] hands to the host: a [WebPlugin] applied with its
    options, a [CommonsChunkPlugin] applied with its options, the [emit]
    hook. *)
Inductive registration :=
| WebPluginApplied (template : jsval) (filename : string) (requires : list jsval)
                   (stylePublicPath : jsval)
| CommonsChunkPluginApplied (opts : list (string * jsval))
| EmitHook (outputPagemap : bool).

(** The compiler as [apply] changes it: the own properties of
    [options.entry], an object that the configuration has made, and the
    plugins and hooks registered so far. *)
Record compiler := mkCompiler {
  entry : gmap string (list jsval);
  registered : list registration
}.

(** What [apply] asks of the host build tool besides the compiler that it
    changes: what the two tests of [util] read of the process and of
    [compiler.options.plugins], and the two classes that [apply]
    instantiates, [WebPlugin] and webpack's [CommonsChunkPlugin], whose
    sources are outside [lib/AutoWebPlugin.js].  [refuses] gives what
    [new C(options).apply(compiler)] throws for the class and the options
    of a registration, [None] when it returns. *)
Record host := mkHost {
  tests : util.host;
  refuses : registration -> option exn
}.

(** The first two statements of [apply]: the two globals that
    [HTMLDocument] reads. *)
Definition applyGlobals (h : util.host) : result globals :=
  match util.isProduction h with
  | Ok production => Ok (mkGlobals production (util.isExtractStyle h))
  | Throw e => Throw e
  end.

(** [new C(options).apply(compiler)] *)
Definition plug (H : host) (request : registration) (c : compiler) : result compiler :=
  match refuses H request with
  | Some e => Throw e
  | None => Ok (mkCompiler (entry c) (registered c ++ [request]))
  end.

(** [commonsChunk != null] *)
Definition looseNotNull (c : commonsChunkOption) : bool :=
  match c with
  | Absent | Null => false
  | Obj _ => true
  end.

(** [typeof commonsChunk === 'object']: [typeof null] is ['object']. *)
Definition typeofIsObject (c : commonsChunkOption) : bool :=
  match c with
  | Absent => false
  | Null | Obj _ => true
  end.

Fixpoint getProp (k : string) (props : list (string * jsval)) : jsval :=
  match props with
  | [] => JUndefined
  | (k', v) :: rest => if String.eqb k' k then v else getProp k rest
  end.

(** [commonsChunk.name] *)
Definition commonsChunk_name (c : commonsChunkOption) : result jsval :=
  match c with
  | Absent | Null => Throw TypeError
  | Obj props => Ok (getProp "name" props)
  end.

(** [target[k] = v] on an object kept as its properties in order. *)
Fixpoint putProp (k : string) (v : jsval) (target : list (string * jsval))
  : list (string * jsval) :=
  match target with
  | [] => [(k, v)]
  | (k', v') :: rest =>
      if String.eqb k' k then (k', v) :: rest else (k', v') :: putProp k v rest
  end.

(** [Object.assign(target, source)]; a [null] source adds nothing. *)
Definition Object_assign (target : list (string * jsval)) (source : commonsChunkOption)
  : list (string * jsval) :=
  match source with
  | Absent | Null => target
  | Obj props => fold_left (fun acc kv => putProp (fst kv) (snd kv) acc) props target
  end.

(** The body of the [forEach] over [Object.keys(entryMap)]: the entry of
    the page is written, then the options of its [WebPlugin] are made, which
    reads [commonsChunk.name], then the plugin is made and applied. *)
Definition applyPage (H : host) (o : options) (useCommonsChunk : bool) (c : compiler)
    (page : string * pageEntry) : result compiler :=
  let entryName := fst page in
  let pageEntryArray := [entryPath (snd page)] in
  let pageEntryArray :=
    match preEntrys o with Some pre => pre ++ pageEntryArray | None => pageEntryArray end in
  let pageEntryArray :=
    match postEntrys o with Some post => pageEntryArray ++ post | None => pageEntryArray end in
  let c' := mkCompiler (assignEntry entryName pageEntryArray (entry c)) (registered c) in
  let register requires :=
    plug H (WebPluginApplied (template (snd page)) (entryName ++ ".html")
                             requires (stylePublicPath o)) c' in
  if useCommonsChunk then
    match commonsChunk_name (commonsChunk o) with
    | Ok name => register [name; JString entryName]
    | Throw e => Throw e
    end
  else register [JString entryName].

Fixpoint applyPages (H : host) (o : options) (useCommonsChunk : bool)
    (pages : list (string * pageEntry)) (c : compiler) : result compiler :=
  match pages with
  | [] => Ok c
  | page :: rest =>
      match applyPage H o useCommonsChunk c page with
      | Ok c' => applyPages H o useCommonsChunk rest c'
      | Throw e => Throw e
      end
  end.

(** [apply(compiler)]: when it returns, the globals that it has set and
    the compiler as it leaves it; when it throws, what it throws, and
    nothing of what it had written by then. *)
Definition apply (H : host) (this : t) (c : compiler) : result (globals * compiler) :=
  match applyGlobals (tests H) with
  | Throw e => Throw e
  | Ok G =>
      let o := this_options this in
      let useCommonsChunk :=
        (looseNotNull (commonsChunk o) || typeofIsObject (commonsChunk o))%bool in
      match applyPages H o useCommonsChunk (entryMap this) c with
      | Throw e => Throw e
      | Ok c1 =>
          let shared :=
            if useCommonsChunk then
              let commonsChunkPluginOption :=
                Object_assign [("chunks", JStrings (map fst (entryMap this)))] (commonsChunk o) in
              plug H (CommonsChunkPluginApplied commonsChunkPluginOption) c1
            else Ok c1 in
          match shared with
          | Throw e => Throw e
          | Ok c2 => Ok (G, mkCompiler (entry c2) (registered c2 ++ [EmitHook (outputPagemap o)]))
          end
      end
  end.

(** What the constructor reads of the file system: [fs.readdirSync(dir)],
    [None] when it throws; [fs.lstatSync(path).isDirectory()], [None] when
    [lstatSync] throws; and [path.resolve] of its arguments. *)
Record fsEnv := mkFs {
  readdirSync : string -> option (list string);
  lstat_isDirectory : string -> option bool;
  resolve : list string -> string
}.

(** The loop of [getDirsInDir] over [files], [ret] being what it has
    pushed so far.  [lstatSync] is not called for a name that is among
    [ignorePages]. *)
Fixpoint getDirsInDir_loop (F : fsEnv) (dir : string) (ignorePages files ret : list string)
  : result (list string) :=
  match files with
  | [] => Ok ret
  | fileName :: rest =>
      if (findIndex (fun em => String.eqb em fileName) ignorePages <? 0)%Z then
        match lstat_isDirectory F (resolve F [dir; fileName]) with
        | None => Throw FsError
        | Some true => getDirsInDir_loop F dir ignorePages rest (ret ++ [fileName])
        | Some false => getDirsInDir_loop F dir ignorePages rest ret
        end
      else getDirsInDir_loop F dir ignorePages rest ret
  end.

(** [getDirsInDir(dir, ignorePages = [])], [ignorePages] being [undefined]
    or an array of strings. *)
Definition getDirsInDir (F : fsEnv) (dir : string) (ignorePages : option (list string))
  : result (list string) :=
  match readdirSync F dir with
  | None => Throw FsError
  | Some files => getDirsInDir_loop F dir (default [] ignorePages) files []
  end.

(** [options.template], [options.entry] and [options.filename]: a value
    or a function of the page name. *)
Inductive optionValue :=
| Value (v : jsval)
| Function (f : string -> jsval).

(** The options that the constructor reads, and with them the ones that
    [apply] reads. *)
Record constructorOptions := mkConstructorOptions {
  opt_template : optionValue;
  opt_entry : optionValue;
  opt_filename : optionValue;
  opt_ignorePages : option (list string);
  opt_apply : options
}.

(** [entryMap[pageName].template]; [undefined] when the constructor sets
    no such property. *)
Definition pageTemplate (template : optionValue) (pageName : string) : jsval :=
  match template with
  | Value (JString s) => JString s
  | Value _ => JUndefined
  | Function f => f pageName
  end.

(** [entryMap[pageName].entryPath] *)
Definition pageEntryPath (F : fsEnv) (pageDir : string) (entry : optionValue)
    (pageName : string) : jsval :=
  match entry with
  | Value (JString s) =>
      if (0 <? String.length s)%nat then JString s
      else JString (resolve F [pageDir; pageName; EmptyString])
  | Value _ => JString (resolve F [pageDir; pageName; EmptyString])
  | Function f => f pageName
  end.

(** [entryMap[pageName].filename] *)
Definition pageFilename (filename : optionValue) (pageName : string) : jsval :=
  match filename with
  | Function f => f pageName
  | Value _ => JString pageName
  end.

(** What the body of the [forEach] of the constructor leaves in
    [entryMap[pageName]]. *)
Definition pageEntryOf (F : fsEnv) (pageDir : string) (o : constructorOptions)
    (pageName : string) : pageEntry :=
  mkPageEntry (pageTemplate (opt_template o) pageName)
              (pageEntryPath F pageDir (opt_entry o) pageName)
              (pageFilename (opt_filename o) pageName).

(** [new AutoWebPlugin(pageDir, options)].  [entryMap] is an object
    literal filled by [entryMap[pageName] = {}]: for the page name
    [__proto__] that assignment and the ones to [entryMap[pageName].template]
    and the like go to the prototype, and [entryMap] gets no property. *)
Definition constructor (F : fsEnv) (pageDir : string) (o : constructorOptions) : result t :=
  match getDirsInDir F pageDir (opt_ignorePages o) with
  | Throw e => Throw e
  | Ok pageNames =>
      let entryMap :=
        fold_left (fun entryMap pageName =>
                     assignProperty pageName (pageEntryOf F pageDir o pageName) entryMap)
                  pageNames [] in
      Ok (mk (opt_apply o) (ownProperties entryMap))
  end.

End AutoWebPlugin.

(** ** Concrete documents *)

Definition element (name : string) (attrs : list (string * string)) (parent : option nid)
    (children : list nid) : Node :=
  mkNode name name attrs EmptyString EmptyString parent (Some children).

Definition text (v : string) (parent : option nid) : Node :=
  mkNode "#text" EmptyString [] EmptyString v parent None.

Definition commentNode (d : string) (parent : option nid) : Node :=
  mkNode "#comment" EmptyString [] d EmptyString parent None.

(** The tree that parse5 builds for [DefaultHtmlTemplate], its [#document]
    at reference [b]. *)
Definition defaultTree (b : nid) : list Node :=
  [ mkNode "#document" EmptyString [] EmptyString EmptyString None (Some [b + 1; b + 2]);
    mkNode "#documentType" EmptyString [] EmptyString EmptyString (Some b) None;
    element "html" [] (Some b) [b + 3; b + 7; b + 8];
    element "head" [] (Some (b + 2)) [b + 4; b + 5; b + 6];
    text (newline ++ "    ") (Some (b + 3));
    element "meta" [("charset", "UTF-8")] (Some (b + 3)) [];
    text newline (Some (b + 3));
    text newline (Some (b + 2));
    element "body" [] (Some (b + 2)) [b + 9; b + 10; b + 11];
    text newline (Some (b + 8));
    commentNode "SCRIPT" (Some (b + 8));
    text (newline ++ newline ++ newline) (Some (b + 8)) ].

(** A host in which [/index.html] is the one template file, with the text
    of the default template, the paths are absolute already, and the parser
    knows that text. *)
Definition defaultEnv : env :=
  mkEnv (fun p => p)
        (fun p => if String.eqb p "/index.html" then Some DefaultHtmlTemplate else None)
        (fun htmlString b =>
           if String.eqb htmlString DefaultHtmlTemplate then defaultTree b
           else [mkNode "#document" EmptyString [] EmptyString EmptyString None (Some [])]).

Definition emptyState : state := mkState [] [] ∅.

(** The state in which the caller holds one array of chunk names, at
    reference [0]. *)
Definition stateWith (requires : list string) : state := mkState [] [requires] ∅.

Definition childrenIn (s : state) (p : option nid) : option (list nid) :=
  i ← p; n ← nodes s !! i; childNodes n.

(** A production build that leaves the styles to the bundler, and one that
    extracts them. *)
Definition productionG : globals := mkGlobals true false.
Definition extractG : globals := mkGlobals true true.

(** What the constructor starts [_findOutAll] with. *)
Definition blankDoc (root : nid) : HTMLDocument :=
  mkDoc (Some root) None None [] [] None None None.

(** The document that the constructor makes of the default template, and
    the store that holds its tree and one array of chunk names. *)
Definition defaultDoc : HTMLDocument :=
  mkDoc (Some 0) (Some 3) (Some 8) [] [] (Some 10) None None.

Definition defaultState (requires : list string) : state :=
  mkState (defaultTree 0) [requires] ∅.

(** The default document reconciled once with [vendor] and [app], styles
    extracted. *)
Definition onceDoc : HTMLDocument :=
  match fst (ensureRequires extractG defaultDoc 0 (defaultState ["vendor"; "app"])) with
  | Ok d => d
  | Throw _ => defaultDoc
  end.

Definition onceState : state :=
  snd (ensureRequires extractG defaultDoc 0 (defaultState ["vendor"; "app"])).

(** [<html><head></head><body><!--STYLE--><!--SCRIPT--></body></html>] *)
Definition markersTree : list Node :=
  [ mkNode "#document" EmptyString [] EmptyString EmptyString None (Some [1]);
    element "html" [] (Some 0) [2; 3];
    element "head" [] (Some 1) [];
    element "body" [] (Some 1) [4; 5];
    commentNode "STYLE" (Some 3);
    commentNode "SCRIPT" (Some 3) ].

Definition markersDoc : HTMLDocument :=
  mkDoc (Some 0) (Some 2) (Some 3) [] [] (Some 5) (Some 4) None.

Definition markersState (requires : list string) : state :=
  mkState markersTree [requires] ∅.

(** [<html><head><!--SCRIPT--></head><body><!--SCRIPT--><!-- SCRIPT --></body></html>] *)
Definition duplicatesTree : list Node :=
  [ mkNode "#document" EmptyString [] EmptyString EmptyString None (Some [1]);
    element "html" [] (Some 0) [2; 3];
    element "head" [] (Some 1) [4];
    element "body" [] (Some 1) [5; 6];
    commentNode "SCRIPT" (Some 2);
    commentNode "SCRIPT" (Some 3);
    commentNode " SCRIPT " (Some 3) ].

(** What parse5 builds for a frameset page: an [html] with a [head] and a
    [frameset], and no [body]. *)
Definition framesetTree (b : nid) : list Node :=
  [ mkNode "#document" EmptyString [] EmptyString EmptyString None (Some [b + 1]);
    element "html" [] (Some b) [b + 2; b + 3];
    element "head" [] (Some (b + 1)) [];
    element "frameset" [] (Some (b + 1)) [] ].

Definition framesetEnv : env :=
  mkEnv (fun p => p) (fun _ => Some "<frameset></frameset>") (fun _ b => framesetTree b).

(** [<html><head></head><body><div><!-- note -->   </div></body></html>] *)
Definition nestedTree : list Node :=
  [ mkNode "#document" EmptyString [] EmptyString EmptyString None (Some [1]);
    element "html" [] (Some 0) [2; 3];
    element "head" [] (Some 1) [];
    element "body" [] (Some 1) [4];
    element "div" [] (Some 3) [5; 6];
    commentNode " note " (Some 4);
    text "   " (Some 4) ].

Definition nestedDoc : HTMLDocument :=
  mkDoc (Some 0) (Some 2) (Some 3) [] [] None None None.

(** The no-break space, and
    [<html><head></head><body>&nbsp;<p></p>&nbsp;x &nbsp;</body></html>]. *)
Definition nbsp : string := String "160"%char EmptyString.

Definition nbspTree : list Node :=
  [ mkNode "#document" EmptyString [] EmptyString EmptyString None (Some [1]);
    element "html" [] (Some 0) [2; 3];
    element "head" [] (Some 1) [];
    element "body" [] (Some 1) [4; 5; 6];
    text nbsp (Some 3);
    element "p" [] (Some 3) [];
    text (nbsp ++ "x " ++ nbsp) (Some 3) ].

(** The example of the spec:
    [<head><!--STYLE--></head><body><script src="vendor.js"></script><!--SCRIPT--></body>]. *)
Definition vendorTree : list Node :=
  [ mkNode "#document" EmptyString [] EmptyString EmptyString None (Some [1]);
    element "html" [] (Some 0) [2; 3];
    element "head" [] (Some 1) [4];
    element "body" [] (Some 1) [5; 6];
    commentNode "STYLE" (Some 2);
    element "script" [("src", "vendor.js")] (Some 3) [];
    commentNode "SCRIPT" (Some 3) ].

Definition vendorDoc : HTMLDocument :=
  mkDoc (Some 0) (Some 2) (Some 3)
        [Resource.mk 5 Resource.script (Some "vendor") EmptyString] []
        (Some 6) (Some 4) None.

Definition vendorState (requires : list string) : state :=
  mkState vendorTree [requires] ∅.

(** Three documents made of the template [/index.html], the second of
    them reconciled with the array at reference [0]: the reconciled document
    and the third one. *)
Definition threeDocuments : M (HTMLDocument * HTMLDocument) :=
  _ <- constructor defaultEnv (Some "/index.html") ;;
  d1 <- constructor defaultEnv (Some "/index.html") ;;
  d2 <- constructor defaultEnv (Some "/index.html") ;;
  d1' <- ensureRequires productionG d1 0 ;;
  ret (d1', d2).

(** What parse5 builds for
    [<html><head></head><body><!--SCRIPT--><script src="a"></script></body></html>],
    and a host whose one template has that text. *)
Definition scriptedTree (b : nid) : list Node :=
  [ mkNode "#document" EmptyString [] EmptyString EmptyString None (Some [b + 1]);
    element "html" [] (Some b) [b + 2; b + 3];
    element "head" [] (Some (b + 1)) [];
    element "body" [] (Some (b + 1)) [b + 4; b + 5];
    commentNode "SCRIPT" (Some (b + 3));
    element "script" [("src", "a")] (Some (b + 3)) [] ].

Definition scriptedEnv : env :=
  mkEnv (fun p => p) (fun _ => Some "<!--SCRIPT--><script src=a></script>")
        (fun _ b => scriptedTree b).

(** Three documents made of that template, the second of them reconciled
    with the array at reference [0]: the reconciled document and the third
    one. *)
Definition firstPage : M (HTMLDocument * HTMLDocument) :=
  _ <- constructor scriptedEnv (Some "/page.html") ;;
  d1 <- constructor scriptedEnv (Some "/page.html") ;;
  d2 <- constructor scriptedEnv (Some "/page.html") ;;
  d1' <- ensureRequires productionG d1 0 ;;
  ret (d1', d2).

(** A plugin instance over one page, [home], with the given
    [commonsChunk] option, and a compiler that has nothing registered. *)
Definition homePage : string * AutoWebPlugin.pageEntry :=
  ("home", AutoWebPlugin.mkPageEntry (AutoWebPlugin.JString "template.html")
                                     (AutoWebPlugin.JString "/pages/home")
                                     (AutoWebPlugin.JString "home")).

Definition homePlugin (c : AutoWebPlugin.commonsChunkOption) : AutoWebPlugin.t :=
  AutoWebPlugin.mk (AutoWebPlugin.mkOptions c None None AutoWebPlugin.JUndefined false)
                   [homePage].

Definition freshCompiler : AutoWebPlugin.compiler := AutoWebPlugin.mkCompiler ∅ [].

(** A host without [NODE_ENV] and without plugins, whose classes take
    whatever options they are given. *)
Definition plainHost : AutoWebPlugin.host :=
  AutoWebPlugin.mkHost (util.mkHost None false (Some [])) (fun _ => None).

(** [v] as a condition: the values that are not falsy. *)
Definition truthy (v : AutoWebPlugin.jsval) : bool :=
  match v with
  | AutoWebPlugin.JUndefined | AutoWebPlugin.JNull => false
  | AutoWebPlugin.JBool b => b
  | AutoWebPlugin.JString s => negb (String.eqb s EmptyString)
  | AutoWebPlugin.JStrings _ => true
  end.

(** A host whose [CommonsChunkPlugin] throws for options that have both
    [children] and [chunks], as the one of webpack 2 and 3 does. *)
Definition strictHost : AutoWebPlugin.host :=
  AutoWebPlugin.mkHost
    (util.mkHost None false (Some []))
    (fun request =>
       match request with
       | AutoWebPlugin.CommonsChunkPluginApplied opts =>
           if (truthy (AutoWebPlugin.getProp "children" opts)
               && truthy (AutoWebPlugin.getProp "chunks" opts))%bool
           then Some Error else None
       | _ => None
       end).

(** A development build. *)
Definition developmentG : globals := mkGlobals false false.

(** The store after a first document has been made of [/index.html], the
    cache holding its prototype. *)
Definition cachedState : state :=
  snd (constructor defaultEnv (Some "/index.html") emptyState).

(** A host whose working directory is [/]: the template is given as
    [index.html] and resolved to [/index.html]. *)
Definition relativeEnv : env :=
  mkEnv (fun p => ("/" ++ p)%string)
        (fun p => if String.eqb p "/index.html" then Some DefaultHtmlTemplate else None)
        (fun htmlString b =>
           if String.eqb htmlString DefaultHtmlTemplate then defaultTree b
           else [mkNode "#document" EmptyString [] EmptyString EmptyString None (Some [])]).

(** The store that the reconciliation of the default document with
    [vendor] and [app] has left, its marker consumed, and in it an array
    that asks for one more chunk. *)
Definition staleState : state :=
  mkState (nodes onceState) [["late"]] (HTMLDocumentCacheMap onceState).

(** A document without [body], none of whose anchors is asked for when
    nothing is required. *)
Definition framesetDoc : HTMLDocument :=
  mkDoc (Some 0) (Some 2) None [] [] None None None.

(** [<head><link rel="stylesheet" href="vendor.css"></head>
     <body><script src="vendor.js"></script></body>], a template that
    carries the [vendor] chunk as a stylesheet and as a script and has no
    marker, and the document that the scan makes of it. *)
Definition carriedTree : list Node :=
  [ mkNode "#document" EmptyString [] EmptyString EmptyString None (Some [1]);
    element "html" [] (Some 0) [2; 3];
    element "head" [] (Some 1) [4];
    element "body" [] (Some 1) [5];
    element "link" [("rel", "stylesheet"); ("href", "vendor.css")] (Some 2) [];
    element "script" [("src", "vendor.js")] (Some 3) [] ].

Definition carriedDoc : HTMLDocument :=
  mkDoc (Some 0) (Some 2) (Some 3)
        [Resource.mk 5 Resource.script (Some "vendor") EmptyString]
        [Resource.mk 4 Resource.style (Some "vendor") EmptyString]
        None None None.

(** A page directory [/pages] that holds the directories [home], [10],
    [__proto__], [9] and [drafts] and the file [readme.md]; [drafts] cannot
    be examined. *)
Definition pagesFs : AutoWebPlugin.fsEnv :=
  AutoWebPlugin.mkFs
    (fun dir => if String.eqb dir "/pages"
                then Some ["home"; "10"; "readme.md"; "__proto__"; "9"; "drafts"] else None)
    (fun path => if String.eqb path "/pages/readme.md" then Some false
                 else if String.eqb path "/pages/drafts" then None
                 else Some true)
    (fun segments => String.concat "/" (List.filter (fun x => negb (String.eqb x EmptyString))
                                                    segments)).

(** Options that ignore [drafts], take the entry of a page from its
    directory and name its output after the page in upper directory
    [out/]. *)
Definition pagesOptions : AutoWebPlugin.constructorOptions :=
  AutoWebPlugin.mkConstructorOptions
    (AutoWebPlugin.Value (AutoWebPlugin.JString "template.html"))
    (AutoWebPlugin.Value (AutoWebPlugin.JString EmptyString))
    (AutoWebPlugin.Function (fun pageName => AutoWebPlugin.JString ("out/" ++ pageName)%string))
    (Some ["drafts"])
    (AutoWebPlugin.mkOptions AutoWebPlugin.Absent None None AutoWebPlugin.JUndefined false).

(** An [ExtractTextPlugin] for [style.css], and a compiler whose list of
    plugins holds [null] before it. *)
Definition cssPlugin : util.plugin :=
  util.mkPlugin (Some util.ExtractTextPlugin) None (Some "style.css").

Definition hiddenHost : util.host :=
  util.mkHost None true (Some [None; Some cssPlugin]).

(** ** Notions used by the statements *)

(** One step of the loop of [removePresent] on the content of the array. *)
Definition removeFirst (c : option string) (l : list string) : list string :=
  let index := findIndex (fun one => bool_decide (Some one = c)) l in
  if (0 <=? index)%Z then splice index 1 [] l else l.

(** The left-over names: what the loop leaves of [requires] for the chunk
    names [present]. *)
Definition leftover (present : list (option string)) (requires : list string) : list string :=
  fold_left (fun l c => removeFirst c l) present requires.

(** The node that receives the injected nodes: the parent of the marker, or
    the fallback anchor when there is no marker. *)
Definition injectionParent (marker fallback : option nid) (ns : list Node) : option nid :=
  match marker with
  | Some m => n ← ns !! m; parentNode n
  | None => fallback
  end.

(** The child array after the injection of [ids]. *)
Definition injectedChildren (marker : option nid) (ids cs : list nid) : list nid :=
  match marker with
  | Some m =>
      let index := findIndex (Nat.eqb m) cs in
      splice index 0 ids (splice index 1 [] cs)
  | None => cs ++ ids
  end.

(** An insertion point exists: [injectionParent] is a node with a child
    array. *)
Definition insertionPoint (marker fallback : option nid) (ns : list Node) : bool :=
  match injectionParent marker fallback ns with
  | Some p =>
      match ns !! p with
      | Some pn => bool_decide (is_Some (childNodes pn))
      | None => false
      end
  | None => false
  end.

(** The two passes are one algorithm over the literal to inject, the
    resources, the marker and the fallback anchor. *)
Definition ensurePass (lit : string -> option nid -> Node) (resources : list Resource.t)
    (marker fallback : option nid) (requires : aid) : M (list nid) :=
  removePresent resources requires ;;;
  arr <- getArray requires ;;
  if (0 <? length arr)%nat then
    match marker with
    | Some marker =>
        lefts <- mapM (fun chunkName =>
                         m <- getNode marker ;; newNode (lit chunkName (parentNode m))) arr ;;
        util.replaceNodesWithNodes [marker] lefts ;;;
        ret lefts
    | None =>
        lefts <- mapM (fun chunkName => newNode (lit chunkName fallback)) arr ;;
        anchor <- notNull fallback ;;
        cs <- util.childrenOf anchor ;;
        setChildNodes anchor (cs ++ lefts) ;;;
        ret lefts
    end
  else ret [].

(** The chunk name that the scan gives to an injected node. *)
Definition noExtension (name : string) : Prop := Resource.stripExt name = name.

#[global] Instance noExtension_dec name : Decision (noExtension name).
Proof. unfold noExtension. apply _. Defined.

(** What [mini] keeps of a child array, judged on the nodes as they were. *)
Definition miniKeeps (ns : list Node) (c : nid) : bool :=
  match ns !! c with
  | Some n =>
      if (String.eqb (nodeName n) "#comment" && negb (startsWith "[if " (data n)))%bool then false
      else if String.eqb (nodeName n) "#text" then negb (Nat.eqb (String.length (trim (value n))) 0)
      else true
  | None => true
  end.

(** What [mini] does to a node that it visits. *)
Definition miniNode (n : Node) : Node :=
  if (String.eqb (nodeName n) "#comment" && negb (startsWith "[if " (data n)))%bool then n
  else if String.eqb (nodeName n) "#text" then set_value (trim (value n)) n
  else n.

(** The child array of the node behind [i], empty when there is none, and
    the test [node.nodeName === name]. *)
Definition kidsOf (ns : list Node) (i : nid) : list nid :=
  default [] (n ← ns !! i; childNodes n).

Definition isNamed (ns : list Node) (name : string) (i : nid) : bool :=
  match ns !! i with
  | Some n => String.eqb (nodeName n) name
  | None => false
  end.

(** The children of every [html] below the document, in order. *)
Definition htmlKids (ns : list Node) (root : nid) : list nid :=
  flat_map (fun h => if isNamed ns "html" h then kidsOf ns h else []) (kidsOf ns root).

(** The scan order of [_findOutAll]: the children of every [head] and
    [body] below every [html] below the document, in order. *)
Definition scanned (ns : list Node) (root : nid) : list nid :=
  flat_map (fun c => if (isNamed ns "head" c || isNamed ns "body" c)%bool then kidsOf ns c else [])
           (htmlKids ns root).

(** The node behind [i] has a child array whose references all resolve. *)
Definition resolvedKids (ns : list Node) (i : nid) : bool :=
  match ns !! i with
  | Some n =>
      match childNodes n with
      | Some cs => forallb (fun c => bool_decide (is_Some (ns !! c))) cs
      | None => false
      end
  | None => false
  end.

(** The tree below [root] is one that [_findOutAll] can walk: the
    document, every [html] below it and every [head] and [body] below
    those have child arrays that resolve. *)
Definition scannable (ns : list Node) (root : nid) : bool :=
  (resolvedKids ns root
   && forallb (fun h => if isNamed ns "html" h then resolvedKids ns h else true) (kidsOf ns root)
   && forallb (fun c => if (isNamed ns "head" c || isNamed ns "body" c)%bool
                        then resolvedKids ns c else true)
              (htmlKids ns root))%bool.

(** A comment whose trimmed text is [payload]. *)
Definition isMarker (payload : string) (ns : list Node) (c : nid) : bool :=
  match ns !! c with
  | Some n => (String.eqb (nodeName n) "#comment" && String.eqb (trim (data n)) payload)%bool
  | None => false
  end.

(** The last element of [l] that satisfies [p], [d] when there is none. *)
Definition lastSuch {A} (p : A -> bool) (l : list A) (d : option A) : option A :=
  fold_left (fun acc x => if p x then Some x else acc) l d.

(** The entry array of a page, the entries after the pages have been
    applied, and the request for the HTML of a page. *)
Definition pageEntryArray (o : AutoWebPlugin.options) (page : string * AutoWebPlugin.pageEntry)
  : list AutoWebPlugin.jsval :=
  default [] (AutoWebPlugin.preEntrys o) ++ [AutoWebPlugin.entryPath (snd page)]
  ++ default [] (AutoWebPlugin.postEntrys o).

Definition entriesAfter (o : AutoWebPlugin.options)
    (pages : list (string * AutoWebPlugin.pageEntry))
    (e : gmap string (list AutoWebPlugin.jsval)) : gmap string (list AutoWebPlugin.jsval) :=
  fold_left (fun e page => assignEntry (fst page) (pageEntryArray o page) e) pages e.

(** The requirements that a page has before its own chunk: the [name] of
    the shared chunk, the reading of which may throw. *)
Definition sharedRequires (o : AutoWebPlugin.options) (useCommonsChunk : bool)
  : result (list AutoWebPlugin.jsval) :=
  if useCommonsChunk then
    match AutoWebPlugin.commonsChunk_name (AutoWebPlugin.commonsChunk o) with
    | Ok name => Ok [name]
    | Throw e => Throw e
    end
  else Ok [].

Definition htmlRequest (o : AutoWebPlugin.options) (shared : list AutoWebPlugin.jsval)
    (page : string * AutoWebPlugin.pageEntry) : AutoWebPlugin.registration :=
  AutoWebPlugin.WebPluginApplied (AutoWebPlugin.template (snd page)) (fst page ++ ".html")
    (shared ++ [AutoWebPlugin.JString (fst page)]) (AutoWebPlugin.stylePublicPath o).

(** The number of times [x] occurs in [l]. *)
Fixpoint occurrences {A} `{EqDecision A} (x : A) (l : list A) : nat :=
  match l with
  | [] => 0
  | y :: l' => (if decide (y = x) then 1 else 0) + occurrences x l'
  end.

(** The marker [m] stands in the tree: it is a comment whose trimmed text
    is [payload], and the node that it names as its parent has it among
    its children, once. *)
Definition markerInPlace (payload : string) (ns : list Node) (m : nid) : bool :=
  (isMarker payload ns m
   && match ns !! m with
      | Some mn =>
          match parentNode mn with
          | Some p => Nat.eqb (occurrences m (kidsOf ns p)) 1
          | None => false
          end
      | None => false
      end)%bool.

(** A pass finds the tree as the scan leaves it: its marker stands in the
    tree, or there is no marker and the anchor that takes its place is a
    node with a child array. *)
Definition passPoint (payload : string) (marker fallback : option nid) (ns : list Node) : bool :=
  match marker with
  | Some m => markerInPlace payload ns m
  | None => insertionPoint None fallback ns
  end.

Definition scriptPoint (d : HTMLDocument) (ns : list Node) : bool :=
  passPoint "SCRIPT" (scriptInjectCommentNode d) (bodyNode d) ns.

Definition stylePoint (d : HTMLDocument) (ns : list Node) : bool :=
  passPoint "STYLE" (styleInjectCommentNode d) (headNode d) ns.

(** The elements that the passes are to inject, as the specification
    names them: [<script src=...>] and [<link rel="stylesheet" href=...>],
    below [parent]. *)
Definition scriptElement (src : string) (parent : nid) : Node :=
  mkNode "script" "script" [("src", src)] EmptyString EmptyString (Some parent) None.


(** The node behind [c] is one that the Resource Model takes for a script
    with the chunk name [name]. *)
Definition carriesScript (ns : list Node) (name : string) (c : nid) : bool :=
  match ns !! c with
  | Some cn =>
      bool_decide (Resource.type (Resource.new c cn None) = Resource.script /\
                   Resource.chunkName (Resource.new c cn None) = Some name)
  | None => false
  end.

(** The chunk [name] stands in the tree as a script: some node has such a
    node among its children. *)
Definition scriptInTree (ns : list Node) (name : string) : bool :=
  existsb (fun q => existsb (carriesScript ns name) (default [] (childNodes q))) ns.

(** The node [p] is one whose children a scan from [root] reads: a [head]
    or a [body] below an [html] below [root]. *)
Definition anchored (ns : list Node) (root p : nid) : bool :=
  (bool_decide (p ∈ htmlKids ns root) && (isNamed ns "head" p || isNamed ns "body" p))%bool.

(** The chunk [name] is present in the document below [root]: a scan from
    [root] comes by a script with that chunk name. *)
Definition scriptScanned (ns : list Node) (root : nid) (name : string) : bool :=
  existsb (carriesScript ns name) (scanned ns root).

(** A string that does not begin with white space. *)
Definition startsClean (s : string) : Prop :=
  match s with
  | String a _ => is_white a = false
  | EmptyString => True
  end.

(** What stops [pretty]: a text node whose value holds a line feed. *)
Definition breaksLine (ns : list Node) (c : nid) : bool :=
  match ns !! c with
  | Some n => (String.eqb (nodeName n) "#text" && includes_char (ascii_of_nat 10) (value n))%bool
  | None => false
  end.

(** The text node that [pretty] puts before a child of [p]. *)
Definition lineBreak (p : nid) : Node :=
  mkNode "#text" EmptyString [] EmptyString newline (Some p) None.

(** What [pretty] makes of a child array, both read from the end as the
    loop goes: [rs] is the array reversed, so its head is the node at the
    index of the loop and the next element is [preNode]; [fresh] is the
    reference that the next new node gets.  A text node is passed over; any
    other node ends the loop when a text node with a line feed stands
    before it, and otherwise gets a new text node put before it. *)
Fixpoint prettyRev (ns : list Node) (fresh : nid) (rs : list nid) : list nid :=
  match rs with
  | [] => []
  | c :: rs' =>
      if isNamed ns "#text" c then c :: prettyRev ns fresh rs'
      else if match rs' with preNode :: _ => breaksLine ns preNode | [] => false end then rs
      else c :: fresh :: prettyRev ns (S fresh) rs'
  end.

(** The number of text nodes that [pretty] creates on the way. *)
Fixpoint prettyNew (ns : list Node) (rs : list nid) : nat :=
  match rs with
  | [] => 0
  | c :: rs' =>
      if isNamed ns "#text" c then prettyNew ns rs'
      else if match rs' with preNode :: _ => breaksLine ns preNode | [] => false end then 0
      else S (prettyNew ns rs')
  end.

(** The node behind [c] exists, and when it is no text node its
    [parentNode] is [p]. *)
Definition childOf (ns : list Node) (p c : nid) : Prop :=
  exists n, ns !! c = Some n /\ (String.eqb (nodeName n) "#text" = false -> parentNode n = Some p).

(** The node whose child array [replaceNodesWithNodes] works on:
    [oldNodes[0].parentNode]. *)
Definition firstParent (oldNodes : list nid) (ns : list Node) : option nid :=
  o ← head oldNodes; n ← ns !! o; parentNode n.

(** ** Notions used by the proofs *)

(** The store [s] with other nodes, and with other arrays. *)
Definition withNodes (ns : list Node) (s : state) : state :=
  mkState ns (arrays s) (HTMLDocumentCacheMap s).

Definition withArrays (l : list (list string)) (s : state) : state :=
  mkState (nodes s) l (HTMLDocumentCacheMap s).

(** The state that a pass leaves when it injects the names [L] below [p]. *)
Definition injected (lit : string -> option nid -> Node) (marker : option nid) (r : aid)
    (L : list string) (p : nid) (pn : Node) (cs : list nid) (s : state) : state :=
  mkState (<[p := set_childNodes
                    (injectedChildren marker (seq (length (nodes s)) (length L)) cs) pn]>
             (nodes s ++ map (fun c => lit c (Some p)) L))
          (<[r := L]> (arrays s))
          (HTMLDocumentCacheMap s).

(** The document after the scan of the nodes [cs], read in [ns]. *)
Definition scanWith (ns : list Node) (d : HTMLDocument) (cs : list nid) : HTMLDocument :=
  fold_left (fun d c =>
               match ns !! c with
               | Some n => record_resource d (Resource.new c n (htmlTemplateFilePath d))
               | None => d
               end) cs d.

(** The resource that the scan makes of an injected script and of an
    injected stylesheet link. *)
Definition scriptResource (id : nid) (c : string) : Resource.t :=
  Resource.mk id Resource.script (Some (Resource.stripExt c)) EmptyString.

Definition styleResource (id : nid) (c : string) : Resource.t :=
  Resource.mk id Resource.style (Some (Resource.stripExt c)) EmptyString.

Definition pushScripts (rs : list Resource.t) (d : HTMLDocument) : HTMLDocument :=
  mkDoc (document d) (headNode d) (bodyNode d) (scriptResources d ++ rs) (stylesResources d)
        (scriptInjectCommentNode d) (styleInjectCommentNode d) (htmlTemplateFilePath d).

Definition pushStyles (rs : list Resource.t) (d : HTMLDocument) : HTMLDocument :=
  mkDoc (document d) (headNode d) (bodyNode d) (scriptResources d) (stylesResources d ++ rs)
        (scriptInjectCommentNode d) (styleInjectCommentNode d) (htmlTemplateFilePath d).

(** What a pass that has the names [L] left over makes of the nodes. *)
Definition passStep (lit : string -> option nid -> Node) (marker fallback : option nid)
    (L : list string) (ns ns' : list Node) : Prop :=
  (L = [] /\ ns' = ns) \/
  (L <> [] /\
   exists p pn cs,
     injectionParent marker fallback ns = Some p /\ ns !! p = Some pn /\
     childNodes pn = Some cs /\
     match marker with Some m => occurrences m cs = 1 | None => True end /\
     ns' = <[p := set_childNodes (injectedChildren marker (seq (length ns) (length L)) cs) pn]>
             (ns ++ map (fun c => lit c (Some p)) L)).

(** A node without child array is never written to. *)
Definition leavesKept (s s1 : state) : Prop :=
  forall i n, nodes s !! i = Some n -> childNodes n = None -> nodes s1 !! i = Some n.

(** The names that the style pass of a call has left over. *)
Definition styleLeftover (G : globals) (d : HTMLDocument) (R : list string) : list string :=
  if _isExtractStyle G then leftover (map Resource.chunkName (stylesResources d)) R else [].

(** The references of the nodes that a call injects: the scripts first, the
    stylesheet links behind them. *)
Definition scriptIds (d : HTMLDocument) (R : list string) (s : state) : list nid :=
  seq (length (nodes s)) (length (leftover (map Resource.chunkName (scriptResources d)) R)).

Definition styleIds (G : globals) (d : HTMLDocument) (R : list string) (s : state) : list nid :=
  seq (length (nodes s) + length (leftover (map Resource.chunkName (scriptResources d)) R))
      (length (styleLeftover G d R)).

(** [keeps R m]: whatever [m] does, and whether it returns or throws, the
    store it leaves is related by [R] to the store it started in. *)
Definition keeps {A} (R : state -> state -> Prop) (m : M A) : Prop :=
  forall s, R s (snd (m s)).

(** Every array but the one behind [c] is as it was. *)
Definition arraysExcept (c : aid) (s s1 : state) : Prop :=
  length (arrays s1) = length (arrays s) /\
  forall i, i <> c -> arrays s1 !! i = arrays s !! i.

(** Every array that existed is as it was. *)
Definition arraysKept (s s1 : state) : Prop :=
  length (arrays s) <= length (arrays s1) /\
  forall i, i < length (arrays s) -> arrays s1 !! i = arrays s !! i.

(** [n1] is [n] but for its child array, which it has if [n] had one. *)
Definition reshaped (n n1 : Node) : Prop :=
  nodeName n1 = nodeName n /\ tagName n1 = tagName n /\ attrs n1 = attrs n /\
  data n1 = data n /\ value n1 = value n /\ parentNode n1 = parentNode n /\
  (is_Some (childNodes n) -> is_Some (childNodes n1)).

(** From [s] to [s1] the nodes that existed kept all but their child arrays,
    and every new node is a [name] element. *)
Definition adds (name : string) (s s1 : state) : Prop :=
  (forall i n, nodes s !! i = Some n -> exists n1, nodes s1 !! i = Some n1 /\ reshaped n n1) /\
  (forall i n1, nodes s !! i = None -> nodes s1 !! i = Some n1 -> nodeName n1 = name).

(** What [_findOutAll] does at a child of [html], and at a child of the
    document. *)
Definition scanAnchor (ns : list Node) (d : HTMLDocument) (c : nid) : HTMLDocument :=
  if isNamed ns "head" c then scanWith ns (set_headNode (Some c) d) (kidsOf ns c)
  else if isNamed ns "body" c then scanWith ns (set_bodyNode (Some c) d) (kidsOf ns c)
  else d.

Definition scanHtml (ns : list Node) (d : HTMLDocument) (h : nid) : HTMLDocument :=
  if isNamed ns "html" h then fold_left (scanAnchor ns) (kidsOf ns h) d else d.

(** From [s] to [s1] no node has come or gone, every node has kept all but
    its child array, and every node but [p] has kept that as well; the
    arrays of chunk names and the cache are as they were. *)
Definition onlyChildrenOf (p : option nid) (s s1 : state) : Prop :=
  length (nodes s1) = length (nodes s) /\
  arrays s1 = arrays s /\ HTMLDocumentCacheMap s1 = HTMLDocumentCacheMap s /\
  (forall i n, nodes s !! i = Some n -> exists n1, nodes s1 !! i = Some n1 /\ reshaped n n1) /\
  (forall i, p <> Some i -> nodes s1 !! i = nodes s !! i).

(** What [clone] returns for [this]. *)
Definition cloneOf (this : HTMLDocument) : HTMLDocument :=
  mkDoc (document this) (headNode this) (bodyNode this)
        (map Resource.clone (scriptResources this))
        (map Resource.clone (stylesResources this))
        (scriptInjectCommentNode this) (styleInjectCommentNode this)
        (htmlTemplateFilePath this).

(** A [DefinePlugin] that defines [process.env.NODE_ENV] as the text
    ["production"], the quotes included. *)
Definition definesProductionPlugin (p : util.plugin) : Prop :=
  util.proto_constructor p = Some util.DefinePlugin /\
  exists defs, util.definitions p = Some defs /\
               defs !! "process.env.NODE_ENV" = Some (dquote ++ "production" ++ dquote)%string.

(** An [ExtractTextPlugin] whose [filename] is a string that ends with
    [.css]. *)
Definition cssExtractor (p : util.plugin) : Prop :=
  util.proto_constructor p = Some util.ExtractTextPlugin /\
  exists f, util.plugin_filename p = Some f /\ endsWith ".css" f = true.

(** An element of [plugins] that [isExtractStyle] looks at and passes
    over: an object with a prototype that is no [ExtractTextPlugin], or one
    whose [filename] is a string that does not end with [.css]. *)
Definition passedOver (q : option util.plugin) : Prop :=
  exists p c, q = Some p /\ util.proto_constructor p = Some c /\
              (c = util.ExtractTextPlugin ->
               exists f, util.plugin_filename p = Some f /\ endsWith ".css" f = false).

(** An element of [plugins] that [isExtractStyle] cannot look at: [null]
    or [undefined], an object without prototype, or an [ExtractTextPlugin]
    whose [filename] is no string. *)
Definition uninspectable (q : option util.plugin) : Prop :=
  match q with
  | None => True
  | Some p =>
      util.proto_constructor p = None \/
      (util.proto_constructor p = Some util.ExtractTextPlugin /\ util.plugin_filename p = None)
  end.

(** A name that ends with [.hot-update.js] and has a character that is no
    line terminator right before that. *)
Definition hotUpdateName (name : string) : Prop :=
  exists pre a, name = (pre ++ String a ".hot-update.js")%string /\ lineTerminator a = false.

(** A page of the directory [dir]: an entry that is not among the
    ignored names and is a directory. *)
Definition isPage (F : AutoWebPlugin.fsEnv) (dir : string) (ignorePages : list string)
    (fileName : string) : Prop :=
  (fileName ∉ ignorePages) /\
  AutoWebPlugin.lstat_isDirectory F (AutoWebPlugin.resolve F [dir; fileName]) = Some true.

#[global] Instance isPage_dec F dir ignorePages fileName :
  Decision (isPage F dir ignorePages fileName).
Proof. unfold isPage. apply _. Defined.

(** A page name under which [entryMap] gets a property: any name but
    [__proto__]. *)
Definition ownKey (pageName : string) : Prop := pageName <> "__proto__".

#[global] Instance ownKey_dec pageName : Decision (ownKey pageName).
Proof. unfold ownKey. apply _. Defined.

(** The property [k] of the options that [apply] gives to the
    shared-chunk pass for an option object with the properties [props]. *)
Definition sharedOption (pages : list string) (props : list (string * AutoWebPlugin.jsval))
    (k : string) : AutoWebPlugin.jsval :=
  if bool_decide (k ∈ map fst props) then AutoWebPlugin.getProp k props
  else if String.eqb k "chunks" then AutoWebPlugin.JStrings pages
  else AutoWebPlugin.JUndefined.

(** The resources that a document records, scripts and styles alike. *)
Definition recorded (d : HTMLDocument) (r : Resource.t) : Prop :=
  r ∈ scriptResources d \/ r ∈ stylesResources d.

(** * Properties *)

(** ** Running a computation *)

Lemma bind_run {A B} (m : M A) (k : A -> M B) s a s1 :
  m s = (Ok a, s1) -> bind m k s = k a s1.
Proof. intros H. unfold bind. now rewrite H. Qed.

Lemma bind_assoc {A B C} (m : M A) (f : A -> M B) (g : B -> M C) s :
  bind (bind m f) g s = bind m (fun x => bind (f x) g) s.
Proof. unfold bind. destruct (m s) as [[a|e] s1]; reflexivity. Qed.

Lemma bind_inv {A B} (m : M A) (k : A -> M B) s b s2 :
  bind m k s = (Ok b, s2) -> exists a s1, m s = (Ok a, s1) /\ k a s1 = (Ok b, s2).
Proof.
  unfold bind. destruct (m s) as [[a|e] s1]; intros H; [eauto | discriminate].
Qed.

Lemma getNode_run s i n : nodes s !! i = Some n -> getNode i s = (Ok n, s).
Proof. intros H. unfold getNode. now rewrite H. Qed.

Lemma getArray_run s r l : arrays s !! r = Some l -> getArray r s = (Ok l, s).
Proof. intros H. unfold getArray. now rewrite H. Qed.

Lemma childrenOf_run s p pn cs :
  nodes s !! p = Some pn -> childNodes pn = Some cs -> util.childrenOf p s = (Ok cs, s).
Proof.
  intros Hp Hc. unfold util.childrenOf, getChildNodes.
  rewrite (bind_run _ _ _ _ _ (bind_run _ _ _ _ _ (getNode_run _ _ _ Hp))).
  now rewrite Hc.
Qed.

Lemma childrenOf_inv s p cs s1 :
  util.childrenOf p s = (Ok cs, s1) ->
  s1 = s /\ exists pn, nodes s !! p = Some pn /\ childNodes pn = Some cs.
Proof.
  unfold util.childrenOf, getChildNodes, bind, getNode, ret, notNull, throw.
  destruct (nodes s !! p) as [pn|]; [|discriminate].
  destruct (childNodes pn) as [cs'|] eqn:E; [|discriminate].
  intros [= <- <-]. eauto.
Qed.

Lemma setChildNodes_run s p pn cs :
  nodes s !! p = Some pn ->
  setChildNodes p cs s =
    (Ok tt, mkState (<[p := set_childNodes cs pn]> (nodes s)) (arrays s) (HTMLDocumentCacheMap s)).
Proof.
  intros Hp. unfold setChildNodes. now rewrite (bind_run _ _ _ _ _ (getNode_run _ _ _ Hp)).
Qed.

(** ** Arrays: [findIndex] and [splice] *)

Lemma findIndex_from_shift {A} (p : A -> bool) l i :
  findIndex_from p l i =
    (if (findIndex_from p l 0 =? -1)%Z then (-1)%Z else (i + findIndex_from p l 0)%Z)
  /\ (-1 <= findIndex_from p l 0)%Z.
Proof.
  revert i. induction l as [|x l IH]; intros i; simpl.
  - split; [reflexivity | lia].
  - destruct (p x).
    + simpl. split; [f_equal; lia | lia].
    + destruct (IH (i + 1)%Z) as [E1 _]. destruct (IH 1%Z) as [E2 Hge].
      rewrite E1. change (0 + 1)%Z with 1%Z. rewrite E2.
      destruct (findIndex_from p l 0 =? -1)%Z eqn:E; simpl.
      * split; [reflexivity | lia].
      * apply Z.eqb_neq in E.
        replace (1 + findIndex_from p l 0 =? -1)%Z with false
          by (symmetry; apply Z.eqb_neq; lia).
        split; lia.
Qed.

Lemma findIndex_cons {A} (p : A -> bool) x l :
  findIndex p (x :: l) =
    if p x then 0%Z
    else if (findIndex p l =? -1)%Z then (-1)%Z else (1 + findIndex p l)%Z.
Proof.
  unfold findIndex. simpl. destruct (p x); [reflexivity|].
  change (0 + 1)%Z with 1%Z.
  now destruct (findIndex_from_shift p l 1%Z) as [-> _].
Qed.

Lemma findIndex_ge {A} (p : A -> bool) l : (-1 <= findIndex p l)%Z.
Proof. apply (findIndex_from_shift p l 0%Z). Qed.

Lemma findIndex_none {A} (p : A -> bool) l :
  Forall (fun x => p x = false) l -> findIndex p l = (-1)%Z.
Proof.
  induction 1 as [|x l Hx _ IH]; [reflexivity|].
  rewrite findIndex_cons, Hx, IH. reflexivity.
Qed.

Lemma findIndex_first {A} (p : A -> bool) pre x post :
  Forall (fun y => p y = false) pre -> p x = true ->
  findIndex p (pre ++ x :: post) = Z.of_nat (length pre).
Proof.
  intros Hpre Hx. induction Hpre as [|y pre Hy _ IH]; simpl.
  - now rewrite findIndex_cons, Hx.
  - rewrite findIndex_cons, Hy, IH.
    replace (Z.of_nat (length pre) =? -1)%Z with false by (symmetry; apply Z.eqb_neq; lia).
    lia.
Qed.

Lemma splice_delete_at {A} (pre post : list A) x :
  splice (Z.of_nat (length pre)) 1 [] (pre ++ x :: post) = pre ++ post.
Proof.
  unfold splice, splice_start.
  replace (Z.of_nat (length pre) <? 0)%Z with false by (symmetry; apply Z.ltb_ge; lia).
  rewrite Z.min_l by (rewrite length_app; simpl; lia).
  rewrite Nat2Z.id, take_app_length. simpl.
  replace (length pre + 1) with (length pre + 1 + 0) by lia.
  rewrite <- Nat.add_assoc, drop_app_add'; [|reflexivity]. reflexivity.
Qed.

Lemma splice_insert_at {A} (pre post items : list A) :
  splice (Z.of_nat (length pre)) 0 items (pre ++ post) = pre ++ items ++ post.
Proof.
  unfold splice, splice_start.
  replace (Z.of_nat (length pre) <? 0)%Z with false by (symmetry; apply Z.ltb_ge; lia).
  rewrite Z.min_l by (rewrite length_app; lia).
  rewrite Nat2Z.id, take_app_length, Nat.add_0_r.
  now rewrite drop_app_length.
Qed.

Lemma splice_cons {A} (x : A) l i k items :
  (0 <= i)%Z -> splice (1 + i) k items (x :: l) = x :: splice i k items l.
Proof.
  intros Hi. unfold splice, splice_start.
  replace (1 + i <? 0)%Z with false by (symmetry; apply Z.ltb_ge; lia).
  replace (i <? 0)%Z with false by (symmetry; apply Z.ltb_ge; lia).
  replace (Z.to_nat (Z.min (1 + i) (Z.of_nat (length (x :: l)))))
    with (S (Z.to_nat (Z.min i (Z.of_nat (length l))))) by (simpl length; lia).
  reflexivity.
Qed.

(** ** The left-over names *)

Lemma removeFirst_cons c x l :
  removeFirst c (x :: l) = if bool_decide (Some x = c) then l else x :: removeFirst c l.
Proof.
  unfold removeFirst. rewrite findIndex_cons.
  destruct (bool_decide (Some x = c)); [reflexivity|].
  pose proof (findIndex_ge (fun one => bool_decide (Some one = c)) l) as Hge.
  destruct (findIndex _ l =? -1)%Z eqn:E.
  - apply Z.eqb_eq in E. rewrite E. reflexivity.
  - apply Z.eqb_neq in E.
    replace (0 <=? 1 + findIndex (fun one => bool_decide (Some one = c)) l)%Z with true
      by (symmetry; apply Z.leb_le; lia).
    replace (0 <=? findIndex (fun one => bool_decide (Some one = c)) l)%Z with true
      by (symmetry; apply Z.leb_le; lia).
    apply splice_cons. lia.
Qed.

Lemma removeFirst_None l : removeFirst None l = l.
Proof.
  induction l as [|x l IH]; [reflexivity|].
  rewrite removeFirst_cons, IH. now rewrite bool_decide_eq_false_2.
Qed.

Lemma removeFirst_absent x l : x ∉ l -> removeFirst (Some x) l = l.
Proof.
  induction l as [|y l IH]; intros Hx; [reflexivity|].
  rewrite removeFirst_cons. apply not_elem_of_cons in Hx as [Hne Hx].
  rewrite bool_decide_eq_false_2 by congruence. now rewrite IH.
Qed.

Lemma removeFirst_present x l : x ∈ l -> l ≡ₚ x :: removeFirst (Some x) l.
Proof.
  induction l as [|y l IH]; intros Hx; [now apply elem_of_nil in Hx|].
  rewrite removeFirst_cons. destruct (decide (y = x)) as [->|Hne].
  - now rewrite bool_decide_eq_true_2.
  - rewrite bool_decide_eq_false_2 by congruence.
    apply elem_of_cons in Hx as [->|Hx]; [congruence|].
    rewrite (IH Hx) at 1. apply Permutation_swap.
Qed.

Lemma removeFirst_elem c n l : n ∈ l -> n ∈ removeFirst c l \/ c = Some n.
Proof.
  induction l as [|y l IH]; intros Hn; [now apply elem_of_nil in Hn|].
  rewrite removeFirst_cons. case_bool_decide as E.
  - apply elem_of_cons in Hn as [->|Hn]; [now right | now left].
  - apply elem_of_cons in Hn as [->|Hn]; [left; apply elem_of_cons; now left|].
    destruct (IH Hn) as [H|H]; [left; apply elem_of_cons; now right | now right].
Qed.

Lemma removeFirst_sublist c l : removeFirst c l `sublist_of` l.
Proof.
  induction l as [|y l IH]; [reflexivity|].
  rewrite removeFirst_cons. case_bool_decide.
  - now apply sublist_cons.
  - now apply sublist_skip.
Qed.

Lemma leftover_app S1 S2 R : leftover (S1 ++ S2) R = leftover S2 (leftover S1 R).
Proof. unfold leftover. apply fold_left_app. Qed.

Lemma leftover_cons c S R : leftover (c :: S) R = leftover S (removeFirst c R).
Proof. reflexivity. Qed.

Lemma leftover_sublist S R : leftover S R `sublist_of` R.
Proof.
  revert R. induction S as [|c S IH]; intros R; [reflexivity|].
  rewrite leftover_cons. etransitivity; [apply IH | apply removeFirst_sublist].
Qed.

(** A name that is required is present already or left over. *)
Lemma leftover_elem S R n : n ∈ R -> n ∈ leftover S R \/ Some n ∈ S.
Proof.
  revert R. induction S as [|c S IH]; intros R Hn; [now left|].
  rewrite leftover_cons. destruct (removeFirst_elem c n R Hn) as [H | ->].
  - destruct (IH _ H) as [H'|H']; [now left | right; apply elem_of_cons; now right].
  - right. apply elem_of_cons. now left.
Qed.

(** Names that are all present leave nothing over. *)
Lemma leftover_covered T L : L ⊆+ T -> leftover (map Some T) L = [].
Proof.
  revert L. induction T as [|t T IH]; intros L HL.
  - now apply submseteq_nil_r in HL as ->.
  - change (leftover (map Some (t :: T)) L)
      with (leftover (map Some T) (removeFirst (Some t) L)).
    apply IH.
    destruct (decide (t ∈ L)) as [Hin|Hout].
    + rewrite (removeFirst_present t L Hin) in HL.
      now apply (submseteq_app_inv_l _ _ [t]) in HL.
    + rewrite removeFirst_absent by assumption.
      apply submseteq_cons_r in HL as [HL|(L' & HP & _)]; [assumption|].
      exfalso. apply Hout. rewrite HP. apply elem_of_cons. now left.
Qed.

Lemma leftover_twice S R : leftover (S ++ map Some (leftover S R)) R = [].
Proof. rewrite leftover_app. now apply leftover_covered. Qed.

(** ** The steps of a pass *)

Lemma withArrays_id s r R : arrays s !! r = Some R -> withArrays (<[r := R]> (arrays s)) s = s.
Proof. intros H. unfold withArrays. rewrite list_insert_id by assumption. now destruct s. Qed.

Lemma removePresent_run res r s R :
  arrays s !! r = Some R ->
  removePresent res r s =
    (Ok tt, withArrays (<[r := leftover (map Resource.chunkName res) R]> (arrays s)) s).
Proof.
  revert s R. induction res as [|x res IH]; intros s R HR.
  - simpl. unfold ret. now rewrite withArrays_id.
  - change (removePresent (x :: res) r)
      with (bind (arr <- getArray r ;;
                  let index :=
                    findIndex (fun one => bool_decide (Some one = Resource.chunkName x)) arr in
                  if (0 <=? index)%Z then setArray r (splice index 1 [] arr) else ret tt)
                 (fun _ => removePresent res r)).
    assert (Hlt : r < length (arrays s)) by (eapply lookup_lt_Some; eassumption).
    erewrite bind_run with
      (s1 := withArrays (<[r := removeFirst (Resource.chunkName x) R]> (arrays s)) s) (a := tt).
    + rewrite (IH _ (removeFirst (Resource.chunkName x) R)).
      * unfold withArrays. simpl. now rewrite list_insert_insert_eq.
      * simpl. now apply list_lookup_insert_eq.
    + rewrite (bind_run _ _ _ _ _ (getArray_run _ _ _ HR)).
      unfold removeFirst. cbv zeta.
      destruct (0 <=? _)%Z; [reflexivity|].
      unfold ret. now rewrite withArrays_id.
Qed.

Lemma mapM_newNode_run (f : string -> Node) L s :
  mapM (fun c => newNode (f c)) L s =
    (Ok (seq (length (nodes s)) (length L)), withNodes (nodes s ++ map f L) s).
Proof.
  revert s. induction L as [|c L IH]; intros s.
  - simpl. unfold ret, withNodes. rewrite app_nil_r. now destruct s.
  - simpl. unfold bind at 1. unfold newNode at 1.
    unfold bind at 1. rewrite IH. unfold ret, withNodes. simpl.
    rewrite length_app, <- app_assoc. simpl.
    replace (length (nodes s) + 1) with (S (length (nodes s))) by lia.
    reflexivity.
Qed.

Lemma mapM_marked_run (lit : string -> option nid -> Node) marker mn L s :
  nodes s !! marker = Some mn ->
  mapM (fun c => m <- getNode marker ;; newNode (lit c (parentNode m))) L s =
    (Ok (seq (length (nodes s)) (length L)),
     withNodes (nodes s ++ map (fun c => lit c (parentNode mn)) L) s).
Proof.
  revert s. induction L as [|c L IH]; intros s Hm.
  - simpl. unfold ret, withNodes. rewrite app_nil_r. now destruct s.
  - simpl. unfold bind at 1. unfold bind at 1. rewrite (getNode_run _ _ _ Hm).
    unfold newNode at 1. unfold bind at 1. rewrite IH.
    + unfold ret, withNodes. simpl.
      rewrite length_app, <- app_assoc. simpl.
      replace (length (nodes s) + 1) with (S (length (nodes s))) by lia.
      reflexivity.
    + simpl. apply lookup_app_l_Some. assumption.
Qed.

Lemma set_childNodes_twice a b n : set_childNodes b (set_childNodes a n) = set_childNodes b n.
Proof. reflexivity. Qed.

Lemma replaceNodesWithNodes_run m new s mn p pn cs :
  nodes s !! m = Some mn -> parentNode mn = Some p ->
  nodes s !! p = Some pn -> childNodes pn = Some cs ->
  util.replaceNodesWithNodes [m] new s =
    (Ok tt, withNodes (<[p := set_childNodes (injectedChildren (Some m) new cs) pn]> (nodes s)) s).
Proof.
  intros Hm Hpar Hp Hcs. unfold util.replaceNodesWithNodes.
  change (head [m]) with (Some m). unfold notNull at 1.
  unfold bind at 1. unfold ret at 1.
  rewrite (bind_run _ _ _ _ _ (getNode_run _ _ _ Hm)).
  rewrite Hpar. unfold notNull at 1. unfold bind at 1. unfold ret at 1.
  rewrite (bind_run _ _ _ _ _ (childrenOf_run _ _ _ _ Hp Hcs)).
  assert (Hlt : p < length (nodes s)) by (eapply lookup_lt_Some; eassumption).
  set (index := findIndex (Nat.eqb m) cs).
  set (s1 := withNodes (<[p := set_childNodes (splice index 1 [] cs) pn]> (nodes s)) s).
  assert (Hfold :
    foldM (fun (_ : Z) oldNode =>
             cs0 <- util.childrenOf p ;;
             let index := findIndex (Nat.eqb oldNode) cs0 in
             setChildNodes p (splice index 1 [] cs0) ;;; ret index) [m] 0%Z s
    = (Ok index, s1)).
  { simpl. unfold bind at 1.
    rewrite (bind_run _ _ _ _ _ (childrenOf_run _ _ _ _ Hp Hcs)). cbv zeta.
    rewrite (bind_run _ _ _ _ _ (setChildNodes_run _ _ _ _ Hp)). reflexivity. }
  rewrite (bind_run _ _ _ _ _ Hfold).
  assert (Hp1 : nodes s1 !! p = Some (set_childNodes (splice index 1 [] cs) pn))
    by (simpl; now apply list_lookup_insert_eq).
  rewrite (bind_run _ _ _ _ _ (childrenOf_run _ _ _ _ Hp1 eq_refl)).
  rewrite (setChildNodes_run _ _ _ _ Hp1).
  unfold s1, withNodes. simpl. rewrite list_insert_insert_eq. reflexivity.
Qed.

(** ** One pass *)

Lemma _ensureRequireScripts_pass this r :
  _ensureRequireScripts this r =
    ensurePass util.scriptNode (scriptResources this) (scriptInjectCommentNode this)
               (bodyNode this) r.
Proof. reflexivity. Qed.

Lemma _ensureRequireStyles_pass this r :
  _ensureRequireStyles this r =
    ensurePass util.styleNode (stylesResources this) (styleInjectCommentNode this)
               (headNode this) r.
Proof. reflexivity. Qed.

Lemma pass_prefix lit res marker fb r s R :
  arrays s !! r = Some R ->
  ensurePass lit res marker fb r s =
    (let s0 := withArrays (<[r := leftover (map Resource.chunkName res) R]> (arrays s)) s in
     let arr := leftover (map Resource.chunkName res) R in
     (if (0 <? length arr)%nat then
        match marker with
        | Some marker =>
            lefts <- mapM (fun chunkName =>
                             m <- getNode marker ;; newNode (lit chunkName (parentNode m))) arr ;;
            util.replaceNodesWithNodes [marker] lefts ;;;
            ret lefts
        | None =>
            lefts <- mapM (fun chunkName => newNode (lit chunkName fb)) arr ;;
            anchor <- notNull fb ;;
            cs <- util.childrenOf anchor ;;
            setChildNodes anchor (cs ++ lefts) ;;;
            ret lefts
        end
      else ret []) s0).
Proof.
  intros HR. unfold ensurePass.
  rewrite (bind_run _ _ _ _ _ (removePresent_run res r s R HR)).
  assert (Hlt : r < length (arrays s)) by (eapply lookup_lt_Some; eassumption).
  erewrite bind_run; [reflexivity|].
  apply getArray_run. simpl. now apply list_lookup_insert_eq.
Qed.

Lemma ensurePass_nothing lit res marker fb r s R :
  arrays s !! r = Some R ->
  leftover (map Resource.chunkName res) R = [] ->
  ensurePass lit res marker fb r s = (Ok [], withArrays (<[r := []]> (arrays s)) s).
Proof.
  intros HR HL. rewrite (pass_prefix _ _ _ _ _ _ _ HR). rewrite HL. reflexivity.
Qed.

Lemma length_pos_ltb {A} (l : list A) : l <> [] -> (0 <? length l)%nat = true.
Proof. destruct l; [congruence|reflexivity]. Qed.

Lemma ensurePass_run lit res marker fb r s R p pn cs :
  arrays s !! r = Some R ->
  leftover (map Resource.chunkName res) R <> [] ->
  injectionParent marker fb (nodes s) = Some p ->
  nodes s !! p = Some pn -> childNodes pn = Some cs ->
  ensurePass lit res marker fb r s =
    (Ok (seq (length (nodes s)) (length (leftover (map Resource.chunkName res) R))),
     injected lit marker r (leftover (map Resource.chunkName res) R) p pn cs s).
Proof.
  intros HR HL Hpar Hp Hcs. rewrite (pass_prefix _ _ _ _ _ _ _ HR). cbv zeta.
  set (L := leftover (map Resource.chunkName res) R) in *.
  rewrite (length_pos_ltb _ HL).
  set (s0 := withArrays (<[r := L]> (arrays s)) s).
  destruct marker as [m|]; simpl in Hpar.
  - destruct (nodes s !! m) as [mn|] eqn:Hm; [|discriminate]. simpl in Hpar.
    assert (Hm0 : nodes s0 !! m = Some mn) by exact Hm.
    rewrite (bind_run _ _ _ _ _ (mapM_marked_run lit m mn L s0 Hm0)).
    rewrite Hpar.
    erewrite bind_run; [reflexivity|].
    erewrite replaceNodesWithNodes_run; [reflexivity | | exact Hpar | | exact Hcs].
    + simpl. now apply lookup_app_l_Some.
    + simpl. now apply lookup_app_l_Some.
  - subst fb.
    rewrite (bind_run _ _ _ _ _ (mapM_newNode_run (fun c => lit c (Some p)) L s0)).
    unfold notNull. unfold bind at 1. unfold ret at 1.
    assert (Hp1 : nodes (withNodes (nodes s0 ++ map (fun c => lit c (Some p)) L) s0) !! p
                  = Some pn) by (simpl; now apply lookup_app_l_Some).
    rewrite (bind_run _ _ _ _ _ (childrenOf_run _ _ _ _ Hp1 Hcs)).
    rewrite (bind_run _ _ _ _ _ (setChildNodes_run _ _ _ _ Hp1)).
    reflexivity.
Qed.

Lemma getNode_inv s i n s1 : getNode i s = (Ok n, s1) -> s1 = s /\ nodes s !! i = Some n.
Proof. unfold getNode. destruct (nodes s !! i); intros [= <- <-] || intros [=]; auto. Qed.

Lemma notNull_inv {A} (o : option A) s a s1 : notNull o s = (Ok a, s1) -> s1 = s /\ o = Some a.
Proof. destruct o; unfold notNull, ret, throw; intros [= <- <-] || intros [=]; auto. Qed.

Tactic Notation "inv_bind" hyp(H) "as" ident(a) ident(s) ident(H1) :=
  apply bind_inv in H as (a & s & H1 & H).

Lemma replaceNodesWithNodes_inv m new s u s1 :
  util.replaceNodesWithNodes [m] new s = (Ok u, s1) ->
  exists mn p pn cs,
    nodes s !! m = Some mn /\ parentNode mn = Some p /\
    nodes s !! p = Some pn /\ childNodes pn = Some cs.
Proof.
  unfold util.replaceNodesWithNodes. intros H.
  inv_bind H as o0 s0 H0. apply notNull_inv in H0 as [-> [= <-]].
  inv_bind H as mn s0 H0. apply getNode_inv in H0 as [-> Hm].
  inv_bind H as p s0 H0. apply notNull_inv in H0 as [-> Hp].
  inv_bind H as cs s0 H0. apply childrenOf_inv in H0 as [-> (pn & Hpn & Hcs)].
  eauto 10.
Qed.

Lemma mapM_marked_dangling (lit : string -> option nid -> Node) marker c L s :
  nodes s !! marker = None ->
  fst (mapM (fun c => m <- getNode marker ;; newNode (lit c (parentNode m))) (c :: L) s)
  = Throw Dangling.
Proof.
  intros Hm. simpl. unfold bind at 1. unfold bind at 1. unfold getNode. now rewrite Hm.
Qed.

Lemma lookup_app_fresh {A} (f : A -> Node) (ns : list Node) (L : list A) p n :
  (ns ++ map f L) !! p = Some n -> ns !! p = Some n \/ exists c, n = f c.
Proof.
  intros H. apply lookup_app_Some in H as [H|[_ H]]; [now left|right].
  rewrite list_lookup_fmap in H. destruct (L !! _) as [c|]; [|discriminate].
  injection H as <-. eauto.
Qed.

(** A pass that returns with names left over has found its insertion
    point. *)
Lemma ensurePass_inv lit res marker fb r s R ids s1 :
  (forall c q, childNodes (lit c q) = None) ->
  arrays s !! r = Some R ->
  leftover (map Resource.chunkName res) R <> [] ->
  ensurePass lit res marker fb r s = (Ok ids, s1) ->
  exists p pn cs,
    injectionParent marker fb (nodes s) = Some p /\
    nodes s !! p = Some pn /\ childNodes pn = Some cs.
Proof.
  intros Hlit HR HL H. rewrite (pass_prefix _ _ _ _ _ _ _ HR) in H. cbv zeta in H.
  set (L := leftover (map Resource.chunkName res) R) in *.
  rewrite (length_pos_ltb _ HL) in H.
  set (s0 := withArrays (<[r := L]> (arrays s)) s) in *.
  destruct marker as [m|]; simpl.
  - destruct (nodes s !! m) as [mn|] eqn:Hm.
    + assert (Hm0 : nodes s0 !! m = Some mn) by exact Hm.
      rewrite (bind_run _ _ _ _ _ (mapM_marked_run lit m mn L s0 Hm0)) in H.
      inv_bind H as u su H0.
      apply replaceNodesWithNodes_inv in H0 as (mn' & p & pn & cs & Hm' & Hpar & Hp & Hcs).
      simpl in Hm', Hp.
      rewrite (lookup_app_l_Some _ _ _ _ Hm) in Hm'. injection Hm' as <-.
      apply lookup_app_fresh in Hp as [Hp|[c ->]].
      * exists p, pn, cs. auto.
      * rewrite Hlit in Hcs. discriminate.
    + exfalso. destruct L as [|c L']; [congruence|].
      pose proof (mapM_marked_dangling lit m c L' s0 Hm) as HT.
      unfold bind in H. destruct (mapM _ _ s0) as [[?|?] ?]; simpl in HT; discriminate.
  - rewrite (bind_run _ _ _ _ _ (mapM_newNode_run (fun c => lit c fb) L s0)) in H.
    inv_bind H as p sp H0. apply notNull_inv in H0 as [-> ->].
    inv_bind H as cs sp H0. apply childrenOf_inv in H0 as [-> (pn & Hp & Hcs)].
    simpl in Hp. apply lookup_app_fresh in Hp as [Hp|[c ->]].
    + exists p, pn, cs. auto.
    + rewrite Hlit in Hcs. discriminate.
Qed.

(** What a returning pass has done. *)
Lemma ensurePass_Ok lit res marker fb r s R ids s1 :
  (forall c q, childNodes (lit c q) = None) ->
  arrays s !! r = Some R ->
  ensurePass lit res marker fb r s = (Ok ids, s1) ->
  (leftover (map Resource.chunkName res) R = [] /\ ids = [] /\
   s1 = withArrays (<[r := []]> (arrays s)) s)
  \/
  (exists p pn cs,
     leftover (map Resource.chunkName res) R <> [] /\
     injectionParent marker fb (nodes s) = Some p /\
     nodes s !! p = Some pn /\ childNodes pn = Some cs /\
     ids = seq (length (nodes s)) (length (leftover (map Resource.chunkName res) R)) /\
     s1 = injected lit marker r (leftover (map Resource.chunkName res) R) p pn cs s).
Proof.
  intros Hlit HR H.
  destruct (decide (leftover (map Resource.chunkName res) R = [])) as [HL|HL].
  - left. rewrite (ensurePass_nothing _ _ _ _ _ _ _ HR HL) in H. now injection H as <- <-.
  - right. destruct (ensurePass_inv _ _ _ _ _ _ _ _ _ Hlit HR HL H) as (p & pn & cs & Hpar & Hp & Hcs).
    rewrite (ensurePass_run _ _ _ _ _ _ _ _ _ _ HR HL Hpar Hp Hcs) in H.
    injection H as <- <-. exists p, pn, cs. auto 10.
Qed.

(** ** The scan *)

Lemma scan_inv d cs s d1 s1 :
  _findScriptStyleTagComment d (Some cs) s = (Ok d1, s1) ->
  s1 = s /\ d1 = scanWith (nodes s) d cs /\ Forall (fun c => is_Some (nodes s !! c)) cs.
Proof.
  unfold _findScriptStyleTagComment. unfold notNull at 1. unfold bind at 1. unfold ret at 1.
  revert d. induction cs as [|c cs IH]; intros d H.
  - simpl in H. injection H as <- <-. auto.
  - simpl in H. inv_bind H as d' s' H0. inv_bind H0 as n sn H1.
    apply getNode_inv in H1 as [-> Hc].
    injection H0 as <- <-. apply IH in H as (-> & -> & Hall).
    split; [reflexivity|]. split.
    + simpl. now rewrite Hc.
    + constructor; [eauto | assumption].
Qed.

Lemma scan_run d cs s :
  Forall (fun c => is_Some (nodes s !! c)) cs ->
  _findScriptStyleTagComment d (Some cs) s = (Ok (scanWith (nodes s) d cs), s).
Proof.
  unfold _findScriptStyleTagComment. unfold notNull at 1. unfold bind at 1. unfold ret at 1.
  intros Hall. revert d. induction Hall as [|c cs [n Hc] _ IH]; intros d.
  - reflexivity.
  - simpl. unfold bind at 1. rewrite (bind_run _ _ _ _ _ (getNode_run _ _ _ Hc)).
    unfold ret at 1. rewrite IH. now rewrite Hc.
Qed.

Lemma scanWith_app ns d cs1 cs2 :
  scanWith ns d (cs1 ++ cs2) = scanWith ns (scanWith ns d cs1) cs2.
Proof. unfold scanWith. apply fold_left_app. Qed.

Lemma scanWith_scripts ns d ids L q :
  Forall2 (fun id c => ns !! id = Some (util.scriptNode c q)) ids L ->
  scanWith ns d ids = pushScripts (zip_with scriptResource ids L) d.
Proof.
  intros H. revert d. induction H as [|id c ids L Hid _ IH]; intros d.
  - simpl. unfold pushScripts. rewrite app_nil_r. now destruct d.
  - simpl. rewrite Hid. rewrite IH. unfold pushScripts. simpl.
    now rewrite <- app_assoc.
Qed.

Lemma scanWith_styles ns d ids L q :
  Forall2 (fun id c => ns !! id = Some (util.styleNode c q)) ids L ->
  scanWith ns d ids = pushStyles (zip_with styleResource ids L) d.
Proof.
  intros H. revert d. induction H as [|id c ids L Hid _ IH]; intros d.
  - simpl. unfold pushStyles. rewrite app_nil_r. now destruct d.
  - simpl. rewrite Hid. rewrite IH. unfold pushStyles. simpl.
    now rewrite <- app_assoc.
Qed.

Lemma chunkNames_scriptResource ids L :
  length ids = length L ->
  map Resource.chunkName (zip_with scriptResource ids L) = map (fun c => Some (Resource.stripExt c)) L.
Proof.
  revert L. induction ids as [|id ids IH]; intros [|c L] Hlen; try discriminate; [reflexivity|].
  simpl. f_equal. apply IH. now injection Hlen.
Qed.

Lemma chunkNames_styleResource ids L :
  length ids = length L ->
  map Resource.chunkName (zip_with styleResource ids L) = map (fun c => Some (Resource.stripExt c)) L.
Proof.
  revert L. induction ids as [|id ids IH]; intros [|c L] Hlen; try discriminate; [reflexivity|].
  simpl. f_equal. apply IH. now injection Hlen.
Qed.

(** ** What a pass changes *)

Lemma injected_new lit marker r L p pn cs s :
  nodes s !! p = Some pn ->
  Forall2 (fun id c => nodes (injected lit marker r L p pn cs s) !! id = Some (lit c (Some p)))
          (seq (length (nodes s)) (length L)) L.
Proof.
  intros Hp. apply Forall2_same_length_lookup. split; [apply length_seq|].
  intros i id c Hid Hc. apply lookup_seq in Hid as [-> Hi].
  assert (Hlt : p < length (nodes s)) by (eapply lookup_lt_Some; eassumption).
  unfold injected. simpl. rewrite list_lookup_insert_ne by lia.
  rewrite lookup_app_r by lia.
  replace (length (nodes s) + i - length (nodes s)) with i by lia.
  now rewrite list_lookup_fmap, Hc.
Qed.

Lemma injected_leaves lit marker r L p pn cs s :
  nodes s !! p = Some pn -> childNodes pn = Some cs ->
  leavesKept s (injected lit marker r L p pn cs s).
Proof.
  intros Hp Hcs i n Hi Hleaf. unfold injected. simpl.
  assert (Hne : p <> i).
  { intros <-. rewrite Hp in Hi. injection Hi as <-. rewrite Hcs in Hleaf. discriminate. }
  rewrite list_lookup_insert_ne by exact Hne.
  now apply lookup_app_l_Some.
Qed.

Lemma pass_summary lit res marker fb r s R ids s1 :
  (forall c q, childNodes (lit c q) = None) ->
  arrays s !! r = Some R ->
  ensurePass lit res marker fb r s = (Ok ids, s1) ->
  leavesKept s s1 /\
  (exists q, Forall2 (fun id c => nodes s1 !! id = Some (lit c q)) ids
                     (leftover (map Resource.chunkName res) R)) /\
  length (arrays s1) = length (arrays s) /\
  (forall i, i <> r -> arrays s1 !! i = arrays s !! i) /\
  ids = seq (length (nodes s)) (length (leftover (map Resource.chunkName res) R)) /\
  length (nodes s1) = length (nodes s) + length (leftover (map Resource.chunkName res) R).
Proof.
  intros Hlit HR H.
  destruct (ensurePass_Ok _ _ _ _ _ _ _ _ _ Hlit HR H)
    as [(HL & -> & ->)|(p & pn & cs & HL & Hpar & Hp & Hcs & -> & ->)].
  - rewrite HL. repeat split.
    + intros i n Hi _. exact Hi.
    + exists None. constructor.
    + simpl. apply length_insert.
    + intros i Hi. simpl. now apply list_lookup_insert_ne.
    + simpl. lia.
  - repeat split.
    + now apply (injected_leaves _ _ _ _ _ _ cs).
    + exists (Some p). now apply injected_new.
    + simpl. apply length_insert.
    + intros i Hi. simpl. now apply list_lookup_insert_ne.
    + simpl. now rewrite length_insert, length_app, length_map.
Qed.


Lemma copyArray_run r s R :
  arrays s !! r = Some R ->
  copyArray r s = (Ok (length (arrays s)), withArrays (arrays s ++ [R]) s).
Proof. intros H. unfold copyArray. now rewrite (bind_run _ _ _ _ _ (getArray_run _ _ _ H)). Qed.

Lemma scriptNode_leaf c q : childNodes (util.scriptNode c q) = None.
Proof. reflexivity. Qed.

Lemma styleNode_leaf c q : childNodes (util.styleNode c q) = None.
Proof. reflexivity. Qed.

(** A returning reconciliation is a returning script pass on a copy of the
    array, a returning style pass on a second copy when styles are
    extracted, and the scan of what both have injected. *)
Lemma ensureRequires_inv G d r s R d1 s1 :
  arrays s !! r = Some R ->
  ensureRequires G d r s = (Ok d1, s1) ->
  exists sb,
    ensurePass util.scriptNode (scriptResources d) (scriptInjectCommentNode d) (bodyNode d)
               (length (arrays s)) (withArrays (arrays s ++ [R]) s)
    = (Ok (scriptIds d R s), sb) /\
    arrays sb !! r = Some R /\
    length (nodes sb)
    = length (nodes s) + length (leftover (map Resource.chunkName (scriptResources d)) R) /\
    (exists q, Forall2 (fun id c => nodes sb !! id = Some (util.scriptNode c q)) (scriptIds d R s)
                       (leftover (map Resource.chunkName (scriptResources d)) R)) /\
    d1 = scanWith (nodes s1) d (scriptIds d R s ++ styleIds G d R s) /\
    if _isExtractStyle G then
      ensurePass util.styleNode (stylesResources d) (styleInjectCommentNode d) (headNode d)
                 (length (arrays sb)) (withArrays (arrays sb ++ [R]) sb)
      = (Ok (styleIds G d R s), s1) /\
      arrays s1 !! r = Some R
    else s1 = sb.
Proof.
  intros HR H. unfold ensureRequires in H.
  assert (Hr : r < length (arrays s)) by (eapply lookup_lt_Some; eassumption).
  inv_bind H as c1 sa' H0. rewrite (copyArray_run _ _ _ HR) in H0. injection H0 as <- <-.
  inv_bind H as ids1 sb H0. rewrite _ensureRequireScripts_pass in H0.
  set (sa := withArrays (arrays s ++ [R]) s) in *.
  assert (HRa : arrays sa !! length (arrays s) = Some R).
  { simpl. rewrite lookup_app_r by lia. now rewrite Nat.sub_diag. }
  destruct (pass_summary _ _ _ _ _ _ _ _ _ scriptNode_leaf HRa H0)
    as (Hk1 & Hids1 & Hlen1 & Harr1 & -> & Hn1).
  assert (HRb : arrays sb !! r = Some R).
  { rewrite Harr1 by lia. simpl. now apply lookup_app_l_Some. }
  exists sb. split; [exact H0|]. split; [exact HRb|]. split; [exact Hn1|].
  split; [exact Hids1|].
  inv_bind H as ids2 s2 H1. unfold styleIds, styleLeftover.
  destruct (_isExtractStyle G).
  - inv_bind H1 as c2 sc' H2. rewrite (copyArray_run _ _ _ HRb) in H2. injection H2 as <- <-.
    rewrite _ensureRequireStyles_pass in H1.
    set (sc := withArrays (arrays sb ++ [R]) sb) in *.
    assert (HRc : arrays sc !! length (arrays sb) = Some R).
    { simpl. rewrite lookup_app_r by lia. now rewrite Nat.sub_diag. }
    destruct (pass_summary _ _ _ _ _ _ _ _ _ styleNode_leaf HRc H1)
      as (Hk2 & Hids2 & Hlen2 & Harr2 & -> & Hn2).
    apply scan_inv in H as (-> & -> & _).
    simpl nodes in *. rewrite Hn1 in *.
    split; [reflexivity|]. split; [exact H1|].
    rewrite Harr2.
    + simpl. now apply lookup_app_l_Some.
    + simpl in Hlen1. rewrite length_app in Hlen1. simpl in Hlen1.
      assert (r < length (arrays sb)) by (eapply lookup_lt_Some; eassumption). lia.
  - injection H1 as <- <-. apply scan_inv in H as (-> & -> & _). auto.
Qed.

(** What a returning reconciliation has done to the document object, to
    the caller's array and to the store of nodes. *)
Lemma ensureRequires_Ok G d r s R d1 s1 :
  arrays s !! r = Some R ->
  ensureRequires G d r s = (Ok d1, s1) ->
  d1 = pushStyles (zip_with styleResource (styleIds G d R s) (styleLeftover G d R))
         (pushScripts
            (zip_with scriptResource (scriptIds d R s)
                      (leftover (map Resource.chunkName (scriptResources d)) R)) d) /\
  arrays s1 !! r = Some R /\
  (exists q, Forall2 (fun id c => nodes s1 !! id = Some (util.scriptNode c q)) (scriptIds d R s)
                     (leftover (map Resource.chunkName (scriptResources d)) R)) /\
  (exists q, Forall2 (fun id c => nodes s1 !! id = Some (util.styleNode c q)) (styleIds G d R s)
                     (styleLeftover G d R)).
Proof.
  intros HR H.
  destruct (ensureRequires_inv _ _ _ _ _ _ _ HR H)
    as (sb & Hpass1 & HRb & Hn1 & [q1 Hids1] & Hd1 & Hrest).
  unfold styleIds, styleLeftover in *.
  destruct (_isExtractStyle G).
  - destruct Hrest as [Hpass2 HR1].
    assert (HRc : arrays (withArrays (arrays sb ++ [R]) sb) !! length (arrays sb) = Some R).
    { simpl. rewrite lookup_app_r by lia. now rewrite Nat.sub_diag. }
    destruct (pass_summary _ _ _ _ _ _ _ _ _ styleNode_leaf HRc Hpass2)
      as (Hk2 & [q2 Hids2] & _).
    assert (Hids1' : Forall2 (fun id c => nodes s1 !! id = Some (util.scriptNode c q1))
                             (scriptIds d R s)
                             (leftover (map Resource.chunkName (scriptResources d)) R)).
    { eapply Forall2_impl; [exact Hids1|]. intros id c Hid. simpl in Hid.
      apply Hk2; [exact Hid | reflexivity]. }
    split; [|split; [exact HR1|split; eauto]].
    rewrite Hd1, scanWith_app, (scanWith_scripts _ _ _ _ _ Hids1').
    now apply (scanWith_styles _ _ _ _ q2).
  - subst sb. split; [|split; [exact HRb|split; [eauto|exists None; constructor]]].
    rewrite Hd1. simpl. rewrite app_nil_r, (scanWith_scripts _ _ _ _ _ Hids1).
    unfold pushStyles. simpl. rewrite app_nil_r. reflexivity.
Qed.

(** ** Reconciling twice *)

Lemma Forall_sublist {A} (P : A -> Prop) (l k : list A) :
  l `sublist_of` k -> Forall P k -> Forall P l.
Proof.
  induction 1 as [|x l k _ IH|x l k _ IH]; intros H.
  - constructor.
  - apply Forall_cons in H as [Hx H]. constructor; auto.
  - apply Forall_cons in H as [_ H]. auto.
Qed.

Lemma map_stripExt_noExtension L :
  Forall noExtension L -> map (fun c => Some (Resource.stripExt c)) L = map Some L.
Proof.
  induction 1 as [|c L Hc _ IH]; [reflexivity|].
  simpl. rewrite IH. unfold noExtension in Hc. now rewrite Hc.
Qed.

(** After a call, the names that the call was made for are all present. *)
Lemma leftover_after present R ids :
  Forall noExtension R ->
  length ids = length (leftover present R) ->
  forall mk : nid -> string -> Resource.t,
    (map Resource.chunkName (zip_with mk ids (leftover present R))
     = map (fun c => Some (Resource.stripExt c)) (leftover present R)) ->
    leftover (present ++ map Resource.chunkName (zip_with mk ids (leftover present R))) R = [].
Proof.
  intros Hno Hlen mk ->.
  rewrite map_stripExt_noExtension.
  - apply leftover_twice.
  - eapply Forall_sublist; [apply leftover_sublist | exact Hno].
Qed.

(** C2, for chunk names that the scan gives back unchanged: a second call
    of [ensureRequires] with the same array returns the same document object
    and leaves every node as the first call left it, so nothing is injected
    again. *)
Theorem ensureRequires_idempotent G d r s R d1 s1 :
  arrays s !! r = Some R ->
  Forall noExtension R ->
  ensureRequires G d r s = (Ok d1, s1) ->
  exists s2, ensureRequires G d1 r s1 = (Ok d1, s2) /\ nodes s2 = nodes s1.
Proof.
  intros HR Hno H.
  destruct (ensureRequires_Ok _ _ _ _ _ _ _ HR H) as (-> & HR1 & _ & _).
  set (ids1 := scriptIds d R s). set (ids2 := styleIds G d R s).
  assert (Hl1 : length ids1 = length (leftover (map Resource.chunkName (scriptResources d)) R))
    by apply length_seq.
  assert (Hl2 : length ids2 = length (styleLeftover G d R)) by apply length_seq.
  clearbody ids1 ids2.
  set (Ls := leftover (map Resource.chunkName (scriptResources d)) R) in *.
  assert (Hs : leftover (map Resource.chunkName
                           (scriptResources d ++ zip_with scriptResource ids1 Ls)) R = []).
  { rewrite map_app. apply leftover_after; [exact Hno | exact Hl1 |].
    now apply chunkNames_scriptResource. }
  unfold ensureRequires.
  rewrite (bind_run _ _ _ _ _ (copyArray_run _ _ _ HR1)).
  set (sa := withArrays (arrays s1 ++ [R]) s1).
  assert (Hr : r < length (arrays s1)) by (eapply lookup_lt_Some; eassumption).
  assert (HRa : arrays sa !! length (arrays s1) = Some R).
  { simpl. rewrite lookup_app_r by lia. now rewrite Nat.sub_diag. }
  rewrite _ensureRequireScripts_pass.
  rewrite (bind_run _ _ _ _ _ (ensurePass_nothing _ _ _ _ _ _ _ HRa Hs)).
  unfold styleLeftover in *. destruct (_isExtractStyle G).
  - set (Lt := leftover (map Resource.chunkName (stylesResources d)) R) in *.
    assert (Ht : leftover (map Resource.chunkName
                             (stylesResources d ++ zip_with styleResource ids2 Lt)) R = []).
    { rewrite map_app. apply leftover_after; [exact Hno | exact Hl2 |].
      now apply chunkNames_styleResource. }
    set (sb := withArrays (<[length (arrays s1) := []]> (arrays sa)) sa).
    assert (HRb : arrays sb !! r = Some R).
    { simpl. rewrite list_lookup_insert_ne by lia. now apply lookup_app_l_Some. }
    rewrite bind_assoc, (bind_run _ _ _ _ _ (copyArray_run _ _ _ HRb)).
    set (sc := withArrays (arrays sb ++ [R]) sb).
    assert (HRc : arrays sc !! length (arrays sb) = Some R).
    { simpl. rewrite lookup_app_r by lia. now rewrite Nat.sub_diag. }
    rewrite _ensureRequireStyles_pass.
    rewrite (bind_run _ _ _ _ _ (ensurePass_nothing _ _ _ _ _ _ _ HRc Ht)).
    eexists. split; reflexivity.
  - eexists. split; reflexivity.
Qed.

(** ** Invariants of every outcome *)

Section Keeps.
Variable R : state -> state -> Prop.
Context `{!PreOrder R}.

Lemma keeps_ret {A} (a : A) : keeps R (ret a).
Proof. intros s. reflexivity. Qed.

Lemma keeps_throw {A} e : keeps R (@throw A e).
Proof. intros s. reflexivity. Qed.

Lemma keeps_bind {A B} (m : M A) (k : A -> M B) :
  keeps R m -> (forall a, keeps R (k a)) -> keeps R (bind m k).
Proof.
  intros Hm Hk s. unfold bind. specialize (Hm s).
  destruct (m s) as [[a|e] s1]; simpl in *; [|assumption].
  etransitivity; [exact Hm | apply Hk].
Qed.

Lemma keeps_notNull {A} (o : option A) : keeps R (notNull o).
Proof. destruct o; [apply keeps_ret | apply keeps_throw]. Qed.

Lemma keeps_getNode i : keeps R (getNode i).
Proof. intros s. unfold getNode. destruct (nodes s !! i); reflexivity. Qed.

Lemma keeps_getArray r : keeps R (getArray r).
Proof. intros s. unfold getArray. destruct (arrays s !! r); reflexivity. Qed.

Lemma keeps_childrenOf p : keeps R (util.childrenOf p).
Proof.
  unfold util.childrenOf, getChildNodes.
  repeat (apply keeps_bind; [|intros ?]);
    auto using keeps_getNode, keeps_ret, keeps_notNull.
Qed.

Lemma keeps_forEach {A} (f : A -> M unit) l :
  (forall x, keeps R (f x)) -> keeps R (forEach f l).
Proof.
  intros Hf. induction l; simpl; [apply keeps_ret|]. apply keeps_bind; auto.
Qed.

Lemma keeps_mapM {A B} (f : A -> M B) l :
  (forall x, keeps R (f x)) -> keeps R (mapM f l).
Proof.
  intros Hf. induction l; simpl; [apply keeps_ret|].
  apply keeps_bind; [auto|intros ?]. apply keeps_bind; [auto|intros ?]. apply keeps_ret.
Qed.

Lemma keeps_foldM {A S} (f : S -> A -> M S) l acc :
  (forall a x, keeps R (f a x)) -> keeps R (foldM f l acc).
Proof.
  intros Hf. revert acc. induction l; intros acc; simpl; [apply keeps_ret|].
  apply keeps_bind; auto.
Qed.

Lemma keeps_scan d ocs : keeps R (_findScriptStyleTagComment d ocs).
Proof.
  unfold _findScriptStyleTagComment.
  apply keeps_bind; [apply keeps_notNull|intros cs].
  apply keeps_foldM. intros a x.
  apply keeps_bind; [apply keeps_getNode|intros ?]. apply keeps_ret.
Qed.

(** The writes of a pass over the array [c] that injects the literals
    [lit]. *)
Variable c : aid.
Variable lit : string -> option nid -> Node.
Hypothesis keeps_setArray : forall l, keeps R (setArray c l).
Hypothesis keeps_newNode : forall x q, keeps R (newNode (lit x q)).
Hypothesis keeps_setChildNodes : forall i cs, keeps R (setChildNodes i cs).

Lemma keeps_replaceNodesWithNodes olds news : keeps R (util.replaceNodesWithNodes olds news).
Proof.
  unfold util.replaceNodesWithNodes.
  apply keeps_bind; [apply keeps_notNull|intros ?].
  apply keeps_bind; [apply keeps_getNode|intros ?].
  apply keeps_bind; [apply keeps_notNull|intros ?].
  apply keeps_bind; [apply keeps_childrenOf|intros ?].
  apply keeps_bind.
  - apply keeps_foldM. intros ? ?.
    apply keeps_bind; [apply keeps_childrenOf|intros ?].
    apply keeps_bind; [apply keeps_setChildNodes|intros ?]. apply keeps_ret.
  - intros ?. apply keeps_bind; [apply keeps_childrenOf|intros ?].
    apply keeps_setChildNodes.
Qed.

Lemma keeps_removePresent res : keeps R (removePresent res c).
Proof.
  unfold removePresent. apply keeps_forEach. intros x.
  apply keeps_bind; [apply keeps_getArray|intros arr]. cbv zeta.
  destruct (0 <=? _)%Z; [apply keeps_setArray | apply keeps_ret].
Qed.

Lemma keeps_ensurePass res marker fb : keeps R (ensurePass lit res marker fb c).
Proof.
  unfold ensurePass.
  apply keeps_bind; [apply keeps_removePresent|intros ?].
  apply keeps_bind; [apply keeps_getArray|intros arr].
  destruct (0 <? length arr)%nat; [|apply keeps_ret].
  destruct marker as [m|].
  - apply keeps_bind.
    + apply keeps_mapM. intros x.
      apply keeps_bind; [apply keeps_getNode|intros ?]. apply keeps_newNode.
    + intros ?. apply keeps_bind; [apply keeps_replaceNodesWithNodes|intros ?].
      apply keeps_ret.
  - apply keeps_bind; [apply keeps_mapM; intros x; apply keeps_newNode|intros ?].
    apply keeps_bind; [apply keeps_notNull|intros ?].
    apply keeps_bind; [apply keeps_childrenOf|intros ?].
    apply keeps_bind; [apply keeps_setChildNodes|intros ?]. apply keeps_ret.
Qed.
End Keeps.

Lemma keeps_ext {A} R (m m' : M A) : (forall s, m s = m' s) -> keeps R m' -> keeps R m.
Proof. intros E H s. rewrite E. apply H. Qed.

(** ** The arrays of chunk names *)

#[local] Instance arraysExcept_preorder c : PreOrder (arraysExcept c).
Proof.
  split.
  - intros s. split; auto.
  - intros s1 s2 s3 [L1 H1] [L2 H2]. split; [congruence|].
    intros i Hi. rewrite H2, H1; auto.
Qed.

#[local] Instance arraysKept_preorder : PreOrder arraysKept.
Proof.
  split.
  - intros s. split; auto.
  - intros s1 s2 s3 [L1 H1] [L2 H2]. split; [lia|].
    intros i Hi. rewrite H2, H1; auto. lia.
Qed.

Lemma setChildNodes_arrays i cs s : arrays (snd (setChildNodes i cs s)) = arrays s.
Proof.
  unfold setChildNodes, bind, getNode. destruct (nodes s !! i); reflexivity.
Qed.

Lemma pass_arraysExcept lit res marker fb c :
  keeps (arraysExcept c) (ensurePass lit res marker fb c).
Proof.
  apply keeps_ensurePass.
  - apply _.
  - intros l s. split; simpl; [apply length_insert|].
    intros i Hi. now apply list_lookup_insert_ne.
  - intros x q s. split; auto.
  - intros i cs s. rewrite (surjective_pairing (setChildNodes i cs s)).
    split; simpl; now rewrite setChildNodes_arrays.
Qed.

Lemma copy_pass_arraysKept lit res marker fb r :
  keeps arraysKept (c <- copyArray r ;; ensurePass lit res marker fb c).
Proof.
  intros s. unfold bind at 1. unfold copyArray, bind at 1, getArray.
  destruct (arrays s !! r) as [R|]; [|reflexivity].
  unfold newArray.
  destruct (pass_arraysExcept lit res marker fb (length (arrays s))
              (mkState (nodes s) (arrays s ++ [R]) (HTMLDocumentCacheMap s))) as [HL HE].
  simpl in HL, HE. rewrite length_app in HL. simpl in HL.
  split; [lia|].
  intros i Hi. rewrite HE by lia. now apply lookup_app_l.
Qed.

Lemma ensureRequires_arraysKept G d r : keeps arraysKept (ensureRequires G d r).
Proof.
  apply keeps_ext with
    (m' := bind (c1 <- copyArray r ;; _ensureRequireScripts d c1)
                (fun lefts1 =>
                   lefts2 <- (if _isExtractStyle G
                              then c2 <- copyArray r ;; _ensureRequireStyles d c2
                              else ret []) ;;
                   _findScriptStyleTagComment d (Some (lefts1 ++ lefts2)))).
  - intros s. unfold ensureRequires. now rewrite bind_assoc.
  - apply keeps_bind; [apply _ | apply copy_pass_arraysKept | intros lefts1].
    apply keeps_bind; [apply _ | | intros lefts2; apply keeps_scan; apply _].
    destruct (_isExtractStyle G); [apply copy_pass_arraysKept | apply keeps_ret; apply _].
Qed.

(** C10: whatever [ensureRequires] does, and also when it throws, the array
    that the caller passed holds afterwards what it held before. *)
Theorem ensureRequires_keeps_requires G d r s :
  arrays (snd (ensureRequires G d r s)) !! r = arrays s !! r.
Proof.
  destruct (arrays s !! r) as [R|] eqn:HR.
  - destruct (ensureRequires_arraysKept G d r s) as [_ H].
    rewrite H; [exact HR|]. eapply lookup_lt_Some; eassumption.
  - unfold ensureRequires, copyArray. unfold bind at 1. unfold bind at 1.
    unfold getArray. now rewrite HR.
Qed.

(** ** The nodes that a pass adds *)

Lemma reshaped_refl n : reshaped n n.
Proof. unfold reshaped. auto 10. Qed.

Lemma reshaped_trans n1 n2 n3 : reshaped n1 n2 -> reshaped n2 n3 -> reshaped n1 n3.
Proof.
  unfold reshaped. intros (?&?&?&?&?&?&?) (?&?&?&?&?&?&?).
  repeat split; try congruence. auto.
Qed.

#[local] Instance adds_preorder name : PreOrder (adds name).
Proof.
  split.
  - intros s. split.
    + intros i n Hi. exists n. split; [exact Hi | apply reshaped_refl].
    + intros i n1 H1 H2. congruence.
  - intros s1 s2 s3 [A1 B1] [A2 B2]. split.
    + intros i n Hi. destruct (A1 _ _ Hi) as (n2 & Hi2 & R2).
      destruct (A2 _ _ Hi2) as (n3 & Hi3 & R3).
      exists n3. split; [exact Hi3 | eapply reshaped_trans; eassumption].
    + intros i n3 Hi1 Hi3. destruct (nodes s2 !! i) as [n2|] eqn:Hi2.
      * destruct (A2 _ _ Hi2) as (n3' & Hi3' & R3).
        rewrite Hi3 in Hi3'. injection Hi3' as <-.
        destruct R3 as [-> _]. eapply B1; eassumption.
      * eapply B2; eassumption.
Qed.

Lemma adds_same_nodes name s s1 : nodes s1 = nodes s -> adds name s s1.
Proof.
  intros E. split.
  - intros i n Hi. exists n. rewrite E. split; [exact Hi | apply reshaped_refl].
  - intros i n1 H1 H2. congruence.
Qed.

Lemma newNode_adds name n : nodeName n = name -> keeps (adds name) (newNode n).
Proof.
  intros Hn s. split; simpl.
  - intros i n0 Hi. exists n0. split; [now apply lookup_app_l_Some | apply reshaped_refl].
  - intros i n1 Hnone Hi. apply lookup_app_Some in Hi as [Hi|[_ Hi]]; [congruence|].
    apply list_lookup_singleton_Some in Hi as [_ <-]. exact Hn.
Qed.

Lemma setChildNodes_adds name i cs : keeps (adds name) (setChildNodes i cs).
Proof.
  intros s. unfold setChildNodes, bind, getNode, setNode.
  destruct (nodes s !! i) as [n|] eqn:Hi; [|reflexivity].
  simpl. split.
  - intros j nj Hj. destruct (decide (i = j)) as [<-|Hne].
    + exists (set_childNodes cs n). split.
      * apply list_lookup_insert_eq. eapply lookup_lt_Some; eassumption.
      * rewrite Hi in Hj. injection Hj as <-. unfold reshaped. simpl. eauto 10.
    + exists nj. simpl. rewrite list_lookup_insert_ne by assumption.
      split; [exact Hj | apply reshaped_refl].
  - intros j n1 Hnone Hj. destruct (decide (i = j)) as [<-|Hne]; [congruence|].
    simpl in Hj. rewrite list_lookup_insert_ne in Hj by assumption. congruence.
Qed.

Lemma pass_adds name lit res marker fb c :
  (forall x q, nodeName (lit x q) = name) ->
  keeps (adds name) (ensurePass lit res marker fb c).
Proof.
  intros Hlit. apply keeps_ensurePass.
  - apply _.
  - intros l s. now apply adds_same_nodes.
  - intros x q. apply newNode_adds, Hlit.
  - apply setChildNodes_adds.
Qed.

Lemma copyArray_adds name r : keeps (adds name) (copyArray r).
Proof.
  intros s. unfold copyArray, bind, getArray.
  destruct (arrays s !! r); now apply adds_same_nodes.
Qed.

(** An insertion point stays one, and stays where it was. *)
Lemma insertionPoint_adds name s s1 marker fb :
  adds name s s1 ->
  insertionPoint marker fb (nodes s) = true ->
  insertionPoint marker fb (nodes s1) = true /\
  injectionParent marker fb (nodes s1) = injectionParent marker fb (nodes s).
Proof.
  intros [HA _]. unfold insertionPoint.
  destruct (injectionParent marker fb (nodes s)) as [p|] eqn:Hpar; [|discriminate].
  destruct (nodes s !! p) as [pn|] eqn:Hp; [|discriminate].
  intros Hc. apply bool_decide_eq_true in Hc.
  assert (Hpar1 : injectionParent marker fb (nodes s1) = Some p).
  { destruct marker as [m|]; [|exact Hpar]. simpl in *.
    destruct (nodes s !! m) as [mn|] eqn:Hm; [|discriminate]. simpl in Hpar.
    destruct (HA _ _ Hm) as (mn1 & -> & R1). simpl.
    destruct R1 as (_&_&_&_&_&->&_). exact Hpar. }
  rewrite Hpar1. destruct (HA _ _ Hp) as (pn1 & -> & R1).
  split; [|reflexivity]. apply bool_decide_eq_true. now apply R1.
Qed.

Lemma insertionPoint_inv marker fb ns :
  insertionPoint marker fb ns = true ->
  exists p pn cs,
    injectionParent marker fb ns = Some p /\ ns !! p = Some pn /\ childNodes pn = Some cs.
Proof.
  unfold insertionPoint.
  destruct (injectionParent marker fb ns) as [p|]; [|discriminate].
  destruct (ns !! p) as [pn|] eqn:Hp; [|discriminate].
  intros Hc. apply bool_decide_eq_true in Hc as [cs Hcs]. eauto 10.
Qed.

(** A pass that has an insertion point returns. *)
Lemma pass_total lit res marker fb r s R :
  arrays s !! r = Some R ->
  insertionPoint marker fb (nodes s) = true ->
  exists ids s1, ensurePass lit res marker fb r s = (Ok ids, s1).
Proof.
  intros HR Hpt.
  destruct (decide (leftover (map Resource.chunkName res) R = [])) as [HL|HL].
  - rewrite (ensurePass_nothing _ _ _ _ _ _ _ HR HL). eauto.
  - destruct (insertionPoint_inv _ _ _ Hpt) as (p & pn & cs & Hpar & Hp & Hcs).
    rewrite (ensurePass_run _ _ _ _ _ _ _ _ _ _ HR HL Hpar Hp Hcs). eauto.
Qed.

(** ** Reconciliation returns *)

Lemma Forall2_resolved {A} (f : A -> Node) (ns : list Node) (ids : list nid) (L : list A) :
  Forall2 (fun id c => ns !! id = Some (f c)) ids L -> Forall (fun id => is_Some (ns !! id)) ids.
Proof. induction 1; constructor; eauto. Qed.

Lemma ensureRequires_total G d r s R :
  arrays s !! r = Some R ->
  insertionPoint (scriptInjectCommentNode d) (bodyNode d) (nodes s) = true ->
  (_isExtractStyle G = true ->
   insertionPoint (styleInjectCommentNode d) (headNode d) (nodes s) = true) ->
  exists d1 s1, ensureRequires G d r s = (Ok d1, s1).
Proof.
  intros HR Hscript Hstyle. unfold ensureRequires.
  assert (Hr : r < length (arrays s)) by (eapply lookup_lt_Some; eassumption).
  rewrite (bind_run _ _ _ _ _ (copyArray_run _ _ _ HR)).
  set (sa := withArrays (arrays s ++ [R]) s).
  assert (HRa : arrays sa !! length (arrays s) = Some R).
  { simpl. rewrite lookup_app_r by lia. now rewrite Nat.sub_diag. }
  rewrite _ensureRequireScripts_pass.
  destruct (pass_total util.scriptNode (scriptResources d) _ _ _ sa R HRa Hscript)
    as (ids1 & sb & H1).
  rewrite (bind_run _ _ _ _ _ H1).
  destruct (pass_summary _ _ _ _ _ _ _ _ _ scriptNode_leaf HRa H1)
    as (Hk1 & [q1 Hids1] & Hlen1 & Harr1 & _ & _).
  assert (HRb : arrays sb !! r = Some R).
  { rewrite Harr1 by lia. simpl. now apply lookup_app_l_Some. }
  pose proof (pass_adds "script" util.scriptNode (scriptResources d)
                (scriptInjectCommentNode d) (bodyNode d) (length (arrays s))
                (fun _ _ => eq_refl) sa) as Hadds.
  rewrite H1 in Hadds. simpl in Hadds.
  destruct (_isExtractStyle G).
  - rewrite bind_assoc, (bind_run _ _ _ _ _ (copyArray_run _ _ _ HRb)).
    set (sc := withArrays (arrays sb ++ [R]) sb).
    assert (HRc : arrays sc !! length (arrays sb) = Some R).
    { simpl. rewrite lookup_app_r by lia. now rewrite Nat.sub_diag. }
    rewrite _ensureRequireStyles_pass.
    destruct (insertionPoint_adds _ _ _ _ _ Hadds (Hstyle eq_refl)) as [Hpt _].
    destruct (pass_total util.styleNode (stylesResources d) _ _ _ sc R HRc Hpt)
      as (ids2 & sd & H2).
    rewrite (bind_run _ _ _ _ _ H2).
    destruct (pass_summary _ _ _ _ _ _ _ _ _ styleNode_leaf HRc H2)
      as (Hk2 & [q2 Hids2] & _).
    rewrite scan_run; [eauto|].
    apply Forall_app. split.
    + apply (Forall2_resolved (fun c => util.scriptNode c q1) _ _
                              (leftover (map Resource.chunkName (scriptResources d)) R)).
      eapply Forall2_impl; [exact Hids1|]. intros id c Hid. simpl in Hid.
      apply Hk2; [exact Hid | reflexivity].
    + exact (Forall2_resolved _ _ _ _ Hids2).
  - unfold ret at 1. unfold bind at 1.
    rewrite scan_run; [eauto|].
    rewrite app_nil_r. exact (Forall2_resolved _ _ _ _ Hids1).
Qed.

(** ** Completeness *)

(** ** The style pass *)

Lemma injectedChildren_elem marker ids cs id : id ∈ ids -> id ∈ injectedChildren marker ids cs.
Proof.
  intros H. destruct marker as [m|]; simpl.
  - unfold splice at 1. apply elem_of_app. right. apply elem_of_app. now left.
  - apply elem_of_app. now right.
Qed.

Lemma injected_children lit marker r L p pn cs s :
  nodes s !! p = Some pn ->
  childrenIn (injected lit marker r L p pn cs s) (Some p)
  = Some (injectedChildren marker (seq (length (nodes s)) (length L)) cs).
Proof.
  intros Hp. unfold childrenIn, injected. simpl.
  rewrite list_lookup_insert_eq; [reflexivity|].
  rewrite length_app. apply lookup_lt_Some in Hp. lia.
Qed.

Lemma ensureRequires_no_link G d r :
  _isExtractStyle G = false -> keeps (adds "script") (ensureRequires G d r).
Proof.
  intros HG. unfold ensureRequires. rewrite HG.
  apply keeps_bind; [apply _ | apply copyArray_adds | intros c1].
  apply keeps_bind; [apply _ | | intros lefts1].
  - rewrite _ensureRequireScripts_pass. now apply pass_adds.
  - apply keeps_bind; [apply _ | apply keeps_ret; apply _ | intros lefts2].
    apply keeps_scan. apply _.
Qed.

(** ** The script marker *)

Lemma injectedChildren_at m ids pre post :
  m ∉ pre -> injectedChildren (Some m) ids (pre ++ m :: post) = pre ++ ids ++ post.
Proof.
  intros Hm. unfold injectedChildren.
  rewrite findIndex_first.
  - now rewrite splice_delete_at, splice_insert_at.
  - apply Forall_forall. intros y Hy. apply Nat.eqb_neq. intros <-. contradiction.
  - apply Nat.eqb_refl.
Qed.

(** The script pass on the array behind [c] when the marker [m] is a child
    of its parent [p]. *)
Lemma script_pass_at_marker d c s R m mn p pn pre post :
  arrays s !! c = Some R ->
  scriptInjectCommentNode d = Some m ->
  nodes s !! m = Some mn -> parentNode mn = Some p ->
  nodes s !! p = Some pn -> childNodes pn = Some (pre ++ m :: post) ->
  m ∉ pre -> m ∉ post ->
  leftover (map Resource.chunkName (scriptResources d)) R <> [] ->
  let ids := scriptIds d R s in
  exists sb,
    _ensureRequireScripts d c s = (Ok ids, sb) /\
    childrenIn sb (Some p) = Some (pre ++ ids ++ post) /\
    (m ∉ pre ++ ids ++ post) /\
    Forall2 (fun id name => nodes sb !! id = Some (util.scriptNode name (Some p)))
            ids (leftover (map Resource.chunkName (scriptResources d)) R) /\
    nodes sb = nodes (injected util.scriptNode (Some m) c
                        (leftover (map Resource.chunkName (scriptResources d)) R)
                        p pn (pre ++ m :: post) s).
Proof.
  intros HR Hmarker Hm Hpar Hp Hcs Hpre Hpost HL ids.
  assert (Hip : injectionParent (scriptInjectCommentNode d) (bodyNode d) (nodes s) = Some p).
  { rewrite Hmarker. simpl. rewrite Hm. exact Hpar. }
  eexists. split.
  - rewrite _ensureRequireScripts_pass.
    exact (ensurePass_run _ _ _ _ _ _ _ _ _ _ HR HL Hip Hp Hcs).
  - rewrite Hmarker. split.
    + rewrite injected_children by exact Hp. now rewrite injectedChildren_at.
    + split; [|split; [now apply injected_new | reflexivity]].
      intros Hin. apply elem_of_app in Hin as [Hin|Hin]; [contradiction|].
      apply elem_of_app in Hin as [Hin|Hin]; [|contradiction].
      apply elem_of_seq in Hin as [Hge _]. apply lookup_lt_Some in Hm. lia.
Qed.

(** ** Compact serialization *)

Lemma set_childNodes_same pn cs : childNodes pn = Some cs -> set_childNodes cs pn = pn.
Proof. destruct pn. simpl. intros ->. reflexivity. Qed.

(** One round of the loop of [mini], at the last index [length front] of
    the part [front ++ [c]] that is still to visit. *)
Lemma mini_round p c front kept s pn n :
  nodes s !! p = Some pn -> childNodes pn = Some (front ++ c :: kept) ->
  nodes s !! c = Some n -> c <> p ->
  exists s1,
    mini_loop p (S (length front)) s = mini_loop p (length front) s1 /\
    nodes s1 !! p
    = Some (set_childNodes (front ++ (if miniKeeps (nodes s) c then c :: kept else kept)) pn) /\
    nodes s1 !! c = Some (miniNode n) /\
    (forall i, i <> p -> i <> c -> nodes s1 !! i = nodes s !! i) /\
    arrays s1 = arrays s /\ HTMLDocumentCacheMap s1 = HTMLDocumentCacheMap s.
Proof.
  intros Hp Hcs Hc Hne.
  assert (Hlt : p < length (nodes s)) by (eapply lookup_lt_Some; eassumption).
  assert (Hltc : c < length (nodes s)) by (eapply lookup_lt_Some; eassumption).
  simpl mini_loop.
  rewrite (bind_run _ _ _ _ _ (childrenOf_run _ _ _ _ Hp Hcs)).
  rewrite list_lookup_middle by reflexivity.
  unfold notNull at 1. unfold ret at 1. unfold bind at 1.
  rewrite (bind_run _ _ _ _ _ (getNode_run _ _ _ Hc)).
  unfold miniKeeps, miniNode. rewrite Hc.
  destruct (String.eqb (nodeName n) "#comment" && negb (startsWith "[if " (data n)))%bool.
  - rewrite (bind_run _ _ _ _ _ (setChildNodes_run _ _ _ _ Hp)).
    rewrite splice_delete_at.
    eexists. split; [reflexivity|]. simpl. split; [now apply list_lookup_insert_eq|].
    split; [rewrite list_lookup_insert_ne by congruence; exact Hc|].
    split; [|auto].
    intros i Hi _. now apply list_lookup_insert_ne.
  - destruct (String.eqb (nodeName n) "#text").
    + set (s0 := mkState (<[c := set_value (trim (value n)) n]> (nodes s)) (arrays s)
                         (HTMLDocumentCacheMap s)).
      assert (Hp0 : nodes s0 !! p = Some pn)
        by (simpl; rewrite list_lookup_insert_ne by congruence; exact Hp).
      rewrite bind_assoc.
      rewrite (bind_run _ _ _ _ _
                 (eq_refl : setNode c (set_value (trim (value n)) n) s = (Ok tt, s0))).
      destruct (Nat.eqb (String.length (trim (value n))) 0); simpl negb; cbv iota.
      * rewrite bind_assoc, (bind_run _ _ _ _ _ (childrenOf_run _ _ _ _ Hp0 Hcs)).
        rewrite (bind_run _ _ _ _ _ (setChildNodes_run _ _ _ _ Hp0)).
        rewrite splice_delete_at.
        eexists. split; [reflexivity|]. simpl.
        split; [apply list_lookup_insert_eq; now rewrite length_insert|].
        split; [rewrite list_lookup_insert_ne by congruence; now apply list_lookup_insert_eq|].
        split; [|auto].
        intros i Hi Hic. rewrite !list_lookup_insert_ne by congruence. reflexivity.
      * unfold ret at 1. unfold bind at 1.
        exists s0. split; [reflexivity|]. simpl.
        split; [rewrite list_lookup_insert_ne by congruence;
                now rewrite (set_childNodes_same _ _ Hcs)|].
        split; [now apply list_lookup_insert_eq|].
        split; [|auto].
        intros i _ Hic. now apply list_lookup_insert_ne.
    + unfold ret at 1. unfold bind at 1.
      exists s. split; [reflexivity|].
      split; [now rewrite (set_childNodes_same _ _ Hcs)|]. auto.
Qed.

Lemma miniKeeps_ext (ns ns1 : list Node) c :
  ns1 !! c = ns !! c -> miniKeeps ns1 c = miniKeeps ns c.
Proof. unfold miniKeeps. now intros ->. Qed.

Lemma mini_loop_spec p front :
  forall kept s pn,
    nodes s !! p = Some pn -> childNodes pn = Some (front ++ kept) ->
    NoDup front -> p ∉ front -> Forall (fun c => is_Some (nodes s !! c)) front ->
    exists s1,
      mini_loop p (length front) s = (Ok tt, s1) /\
      nodes s1 !! p
      = Some (set_childNodes (List.filter (miniKeeps (nodes s)) front ++ kept) pn) /\
      (forall c, c ∈ front -> nodes s1 !! c = miniNode <$> nodes s !! c) /\
      (forall i, i <> p -> i ∉ front -> nodes s1 !! i = nodes s !! i) /\
      arrays s1 = arrays s /\ HTMLDocumentCacheMap s1 = HTMLDocumentCacheMap s.
Proof.
  induction front as [|c front IH] using rev_ind; intros kept s pn Hp Hcs Hnd Hpf Hres.
  - exists s. simpl in *. rewrite (set_childNodes_same _ _ Hcs).
    split; [reflexivity|]. split; [exact Hp|]. split; [|auto].
    intros c Hc. now apply elem_of_nil in Hc.
  - apply NoDup_app in Hnd as (Hnd & Hdisj & _).
    assert (Hcf : c ∉ front).
    { intros Hin. apply (Hdisj _ Hin). apply list_elem_of_singleton. reflexivity. }
    apply not_elem_of_app in Hpf as [Hpf Hpc].
    assert (Hne : c <> p) by (intros ->; apply Hpc, list_elem_of_singleton; reflexivity).
    apply Forall_app in Hres as [Hres Hc]. apply Forall_singleton in Hc as [n Hc].
    rewrite <- app_assoc in Hcs. simpl in Hcs.
    rewrite length_app, Nat.add_1_r.
    destruct (mini_round p c front kept s pn n Hp Hcs Hc Hne)
      as (s1 & -> & Hp1 & Hc1 & Hoth1 & Ha1 & Hm1).
    set (kept1 := if miniKeeps (nodes s) c then c :: kept else kept) in *.
    assert (Hres1 : Forall (fun c0 => is_Some (nodes s1 !! c0)) front).
    { apply Forall_forall. intros c0 Hc0. rewrite Hoth1.
      - eapply Forall_forall in Hres; eassumption.
      - intros ->. contradiction.
      - intros ->. contradiction. }
    destruct (IH kept1 s1 _ Hp1 eq_refl Hnd Hpf Hres1)
      as (s2 & Hrun & Hp2 & Hin2 & Hoth2 & Ha2 & Hm2).
    exists s2. split; [exact Hrun|]. split; [|split; [|split; [|split; congruence]]].
    + rewrite Hp2, set_childNodes_twice. do 2 f_equal.
      rewrite List.filter_app, <- app_assoc. f_equal.
      * apply List.filter_ext_in. intros c0 Hc0. apply miniKeeps_ext, Hoth1.
        -- intros ->. apply Hpf. now apply list_elem_of_In.
        -- intros ->. apply Hcf. now apply list_elem_of_In.
      * simpl. unfold kept1. now destruct (miniKeeps (nodes s) c).
    + intros c0 Hc0. apply elem_of_app in Hc0 as [Hc0|Hc0].
      * rewrite (Hin2 _ Hc0). f_equal. apply Hoth1.
        -- intros ->. contradiction.
        -- intros ->. contradiction.
      * apply list_elem_of_singleton in Hc0 as ->.
        rewrite (Hoth2 _ Hne Hcf), Hc1, Hc. reflexivity.
    + intros i Hip Hif. apply not_elem_of_app in Hif as [Hif Hic].
      rewrite (Hoth2 _ Hip Hif). apply Hoth1; [exact Hip|].
      intros ->. apply Hic, list_elem_of_singleton. reflexivity.
Qed.

Lemma mini_run p s pn cs :
  nodes s !! p = Some pn -> childNodes pn = Some cs ->
  NoDup cs -> p ∉ cs -> Forall (fun c => is_Some (nodes s !! c)) cs ->
  exists s1,
    mini p s = (Ok tt, s1) /\
    nodes s1 !! p = Some (set_childNodes (List.filter (miniKeeps (nodes s)) cs) pn) /\
    (forall c, c ∈ cs -> nodes s1 !! c = miniNode <$> nodes s !! c) /\
    (forall i, i <> p -> i ∉ cs -> nodes s1 !! i = nodes s !! i) /\
    arrays s1 = arrays s /\ HTMLDocumentCacheMap s1 = HTMLDocumentCacheMap s.
Proof.
  intros Hp Hcs Hnd Hpc Hres.
  assert (Hcs' : childNodes pn = Some (cs ++ [])) by now rewrite app_nil_r.
  destruct (mini_loop_spec p cs [] s pn Hp Hcs' Hnd Hpc Hres) as (s1 & Hrun & H).
  rewrite app_nil_r in H.
  exists s1. split; [|exact H].
  unfold mini. now rewrite (bind_run _ _ _ _ _ (childrenOf_run _ _ _ _ Hp Hcs)).
Qed.

(** C5, for the children of [head] and [body] themselves: in production
    mode [serialize] returns what [parse5.serialize] makes of the store in
    which the child arrays of [head] and [body] have lost every comment
    that does not start with ["[if "] and every text node that is white
    space only, the text nodes among those children are trimmed, and every
    other node, so every node deeper in the tree, is as it was.  White
    space is what [trim] strips; in strings of code units below 256 that
    is TAB, LF, VT, FF, CR, SPACE and the no-break space. *)
Theorem serialize_compact ps G d s h b hn bn hcs bcs :
  _isProduction G = true ->
  headNode d = Some h -> bodyNode d = Some b ->
  nodes s !! h = Some hn -> childNodes hn = Some hcs ->
  nodes s !! b = Some bn -> childNodes bn = Some bcs ->
  NoDup (h :: b :: hcs ++ bcs) ->
  Forall (fun c => is_Some (nodes s !! c)) (hcs ++ bcs) ->
  exists s1,
    serialize ps G d s = (Ok (ps (nodes s1) (document d)), s1) /\
    childrenIn s1 (Some h) = Some (List.filter (miniKeeps (nodes s)) hcs) /\
    childrenIn s1 (Some b) = Some (List.filter (miniKeeps (nodes s)) bcs) /\
    (forall c, c ∈ hcs ++ bcs -> nodes s1 !! c = miniNode <$> nodes s !! c) /\
    (forall i, i ∉ h :: b :: hcs ++ bcs -> nodes s1 !! i = nodes s !! i).
Proof.
  intros HG Hh Hb Hhn Hhcs Hbn Hbcs Hnd Hres.
  apply NoDup_cons in Hnd as [Hh_out Hnd]. apply NoDup_cons in Hnd as [Hb_out Hnd].
  apply NoDup_app in Hnd as (Hndh & Hdisj & Hndb).
  apply not_elem_of_cons in Hh_out as [Hhb Hh_out].
  apply not_elem_of_app in Hh_out as [Hh_hcs Hh_bcs].
  apply not_elem_of_app in Hb_out as [Hb_hcs Hb_bcs].
  apply Forall_app in Hres as [Hresh Hresb].
  destruct (mini_run h s hn hcs Hhn Hhcs Hndh Hh_hcs Hresh)
    as (s1 & Hrun1 & Hh1 & Hin1 & Hoth1 & _ & _).
  assert (Hbn1 : nodes s1 !! b = Some bn) by (rewrite Hoth1; auto).
  assert (Hresb1 : Forall (fun c => is_Some (nodes s1 !! c)) bcs).
  { apply Forall_forall. intros c Hc. rewrite Hoth1.
    - eapply Forall_forall in Hresb; eassumption.
    - intros ->. contradiction.
    - intros Hc'. exact (Hdisj _ Hc' Hc). }
  destruct (mini_run b s1 bn bcs Hbn1 Hbcs Hndb Hb_bcs Hresb1)
    as (s2 & Hrun2 & Hb2 & Hin2 & Hoth2 & _ & _).
  exists s2. split; [|split; [|split; [|split]]].
  - unfold serialize. rewrite HG, Hh, Hb.
    unfold notNull at 1. unfold ret at 1. unfold bind at 1.
    rewrite (bind_run _ _ _ _ _ Hrun1).
    unfold notNull at 1. unfold ret at 1. unfold bind at 1.
    now rewrite (bind_run _ _ _ _ _ Hrun2).
  - unfold childrenIn. simpl. rewrite Hoth2, Hh1 by auto. reflexivity.
  - unfold childrenIn. simpl. rewrite Hb2. simpl. f_equal.
    apply List.filter_ext_in. intros c Hc. apply list_elem_of_In in Hc.
    apply miniKeeps_ext, Hoth1.
    + intros ->. contradiction.
    + intros Hc'. exact (Hdisj _ Hc' Hc).
  - intros c Hc. apply elem_of_app in Hc as [Hc|Hc].
    + rewrite Hoth2; [now apply Hin1| |].
      * intros ->. contradiction.
      * exact (Hdisj _ Hc).
    + rewrite (Hin2 _ Hc). f_equal. apply Hoth1.
      * intros ->. contradiction.
      * intros Hc'. exact (Hdisj _ Hc' Hc).
  - intros i Hi. apply not_elem_of_cons in Hi as [Hih Hi].
    apply not_elem_of_cons in Hi as [Hib Hi].
    apply not_elem_of_app in Hi as [Hi_h Hi_b].
    rewrite Hoth2 by assumption. now apply Hoth1.
Qed.

(** ** The scan of the template *)

Lemma resolvedKids_inv ns i :
  resolvedKids ns i = true ->
  exists n, ns !! i = Some n /\ childNodes n = Some (kidsOf ns i) /\
            Forall (fun c => is_Some (ns !! c)) (kidsOf ns i).
Proof.
  unfold resolvedKids, kidsOf. destruct (ns !! i) as [n|]; [|discriminate]. simpl.
  destruct (childNodes n) as [cs|] eqn:E; [|discriminate]. simpl.
  intros H. exists n. split; [reflexivity|]. split; [exact E|].
  apply Forall_forall. intros c Hc.
  rewrite forallb_forall in H. apply list_elem_of_In in Hc.
  apply H in Hc. now apply bool_decide_eq_true in Hc.
Qed.

Lemma forallb_flat_map {A B} (p : B -> bool) (f : A -> list B) l :
  forallb p (flat_map f l) = forallb (fun x => forallb p (f x)) l.
Proof.
  induction l as [|x l IH]; [reflexivity|].
  simpl. now rewrite forallb_app, IH.
Qed.

Lemma scanAnchors_run cs : forall d s,
  Forall (fun c => is_Some (nodes s !! c)) cs ->
  forallb (fun c => if (isNamed (nodes s) "head" c || isNamed (nodes s) "body" c)%bool
                    then resolvedKids (nodes s) c else true) cs = true ->
  foldM (fun this node =>
           n <- getNode node ;;
           if String.eqb (nodeName n) "head" then
             _findScriptStyleTagComment (set_headNode (Some node) this) (childNodes n)
           else if String.eqb (nodeName n) "body" then
             _findScriptStyleTagComment (set_bodyNode (Some node) this) (childNodes n)
           else ret this) cs d s
  = (Ok (fold_left (scanAnchor (nodes s)) cs d), s).
Proof.
  induction cs as [|c cs IH]; intros d s Hres Hok; [reflexivity|].
  apply Forall_cons in Hres as [[n Hc] Hres].
  simpl in Hok. apply andb_true_iff in Hok as [Hc_ok Hok].
  simpl foldM. simpl fold_left.
  assert (Hstep :
    (n <- getNode c ;;
     if String.eqb (nodeName n) "head" then
       _findScriptStyleTagComment (set_headNode (Some c) d) (childNodes n)
     else if String.eqb (nodeName n) "body" then
       _findScriptStyleTagComment (set_bodyNode (Some c) d) (childNodes n)
     else ret d) s = (Ok (scanAnchor (nodes s) d c), s)).
  { rewrite (bind_run _ _ _ _ _ (getNode_run _ _ _ Hc)).
    unfold scanAnchor. unfold isNamed in *. rewrite Hc in *.
    destruct (String.eqb (nodeName n) "head").
    - simpl in Hc_ok. apply resolvedKids_inv in Hc_ok as (n' & Hn' & Hkids & Hall).
      rewrite Hc in Hn'. injection Hn' as <-. rewrite Hkids. now apply scan_run.
    - destruct (String.eqb (nodeName n) "body"); [|reflexivity].
      simpl in Hc_ok. apply resolvedKids_inv in Hc_ok as (n' & Hn' & Hkids & Hall).
      rewrite Hc in Hn'. injection Hn' as <-. rewrite Hkids. now apply scan_run. }
  rewrite (bind_run _ _ _ _ _ Hstep). now apply IH.
Qed.

Lemma _findOutAll_run d s root :
  document d = Some root ->
  scannable (nodes s) root = true ->
  _findOutAll d s = (Ok (fold_left (scanHtml (nodes s)) (kidsOf (nodes s) root) d), s).
Proof.
  intros Hdoc Hok. unfold scannable in Hok.
  apply andb_true_iff in Hok as [Hok Hanchors]. apply andb_true_iff in Hok as [Hroot Hhtml].
  apply resolvedKids_inv in Hroot as (rn & Hrn & Hkids & Hall).
  unfold _findOutAll. rewrite Hdoc.
  unfold notNull at 1. unfold ret at 1. unfold bind at 1.
  rewrite (bind_run _ _ _ _ _ (childrenOf_run _ _ _ _ Hrn Hkids)).
  unfold htmlKids in Hanchors. rewrite forallb_flat_map in Hanchors.
  clear Hdoc. revert d Hall Hhtml Hanchors.
  generalize (kidsOf (nodes s) root) as top.
  induction top as [|h top IH]; intros d Hall Hhtml Hanchors; [reflexivity|].
  apply Forall_cons in Hall as [[n Hh] Hall].
  simpl in Hhtml. apply andb_true_iff in Hhtml as [Hh_ok Hhtml].
  simpl in Hanchors. apply andb_true_iff in Hanchors as [Hh_an Hanchors].
  simpl foldM. simpl fold_left.
  erewrite bind_run with (a := scanHtml (nodes s) d h) (s1 := s).
  - apply IH; auto.
  - rewrite (bind_run _ _ _ _ _ (getNode_run _ _ _ Hh)).
    unfold scanHtml.
    assert (Hnm : isNamed (nodes s) "html" h = String.eqb (nodeName n) "html")
      by (unfold isNamed; now rewrite Hh).
    rewrite Hnm in *.
    destruct (String.eqb (nodeName n) "html"); [|reflexivity].
    apply resolvedKids_inv in Hh_ok as (n' & Hn' & Hkids' & Hall').
    rewrite Hh in Hn'. injection Hn' as <-. rewrite Hkids'.
    unfold notNull at 1. unfold ret at 1. unfold bind at 1.
    now apply scanAnchors_run.
Qed.

Lemma lastSuch_app {A} (p : A -> bool) l1 l2 d :
  lastSuch p (l1 ++ l2) d = lastSuch p l2 (lastSuch p l1 d).
Proof. unfold lastSuch. apply fold_left_app. Qed.

Lemma lastSuch_none {A} (p : A -> bool) l d :
  Forall (fun x => p x = false) l -> lastSuch p l d = d.
Proof.
  intros H. revert d. induction H as [|x l Hx _ IH]; intros d; [reflexivity|].
  simpl. rewrite Hx. apply IH.
Qed.

Lemma lastSuch_last {A} (p : A -> bool) pre m post d :
  p m = true -> Forall (fun x => p x = false) post ->
  lastSuch p (pre ++ m :: post) d = Some m.
Proof.
  intros Hm Hpost. rewrite lastSuch_app. simpl. rewrite Hm. now apply lastSuch_none.
Qed.

(** What one scanned node does to the two markers and to the anchors. *)
Lemma record_resource_fields ns d c n path :
  ns !! c = Some n ->
  let d1 := record_resource d (Resource.new c n path) in
  scriptInjectCommentNode d1
  = (if isMarker "SCRIPT" ns c then Some c else scriptInjectCommentNode d) /\
  styleInjectCommentNode d1
  = (if isMarker "STYLE" ns c then Some c else styleInjectCommentNode d) /\
  headNode d1 = headNode d /\ bodyNode d1 = bodyNode d /\
  htmlTemplateFilePath d1 = htmlTemplateFilePath d.
Proof.
  intros Hc. unfold isMarker. rewrite Hc. unfold Resource.new.
  destruct (String.eqb_spec (nodeName n) "script") as [E|_]; [rewrite E; simpl; auto|].
  destruct (String.eqb_spec (nodeName n) "link") as [E|_].
  { rewrite E. simpl.
    destruct (getAttr "rel" (attrs n)) as [rel|]; [|simpl; auto].
    destruct (String.eqb rel "stylesheet"); simpl; auto. }
  destruct (String.eqb_spec (nodeName n) "style") as [E|_]; [rewrite E; simpl; auto|].
  destruct (String.eqb_spec (nodeName n) "#comment") as [E|_]; [|simpl; auto].
  unfold record_resource, Resource.nodeData. simpl.
  destruct (String.eqb_spec (trim (data n)) "SCRIPT") as [E1|_]; [rewrite E1; simpl; auto|].
  destruct (String.eqb (trim (data n)) "STYLE"); simpl; auto.
Qed.

Lemma scanWith_fields ns cs : forall d,
  scriptInjectCommentNode (scanWith ns d cs)
  = lastSuch (isMarker "SCRIPT" ns) cs (scriptInjectCommentNode d) /\
  styleInjectCommentNode (scanWith ns d cs)
  = lastSuch (isMarker "STYLE" ns) cs (styleInjectCommentNode d) /\
  headNode (scanWith ns d cs) = headNode d /\ bodyNode (scanWith ns d cs) = bodyNode d.
Proof.
  induction cs as [|c cs IH]; intros d; [simpl; auto|].
  simpl. destruct (ns !! c) as [n|] eqn:Hc.
  - destruct (record_resource_fields ns d c n (htmlTemplateFilePath d) Hc)
      as (H1 & H2 & H3 & H4 & _).
    destruct (IH (record_resource d (Resource.new c n (htmlTemplateFilePath d))))
      as (I1 & I2 & I3 & I4).
    rewrite I1, I2, I3, I4, H1, H2, H3, H4. auto.
  - destruct (IH d) as (I1 & I2 & I3 & I4). rewrite I1, I2, I3, I4.
    unfold isMarker. rewrite Hc. auto.
Qed.

Lemma scanAnchors_markers ns cs : forall d,
  scriptInjectCommentNode (fold_left (scanAnchor ns) cs d)
  = lastSuch (isMarker "SCRIPT" ns)
      (flat_map (fun c => if (isNamed ns "head" c || isNamed ns "body" c)%bool
                          then kidsOf ns c else []) cs)
      (scriptInjectCommentNode d) /\
  styleInjectCommentNode (fold_left (scanAnchor ns) cs d)
  = lastSuch (isMarker "STYLE" ns)
      (flat_map (fun c => if (isNamed ns "head" c || isNamed ns "body" c)%bool
                          then kidsOf ns c else []) cs)
      (styleInjectCommentNode d).
Proof.
  induction cs as [|c cs IH]; intros d; [simpl; auto|].
  simpl. rewrite !lastSuch_app. destruct (IH (scanAnchor ns d c)) as [-> ->].
  unfold scanAnchor.
  destruct (isNamed ns "head" c); simpl.
  - destruct (scanWith_fields ns (kidsOf ns c) (set_headNode (Some c) d)) as (-> & -> & _).
    auto.
  - destruct (isNamed ns "body" c); simpl; [|auto].
    destruct (scanWith_fields ns (kidsOf ns c) (set_bodyNode (Some c) d)) as (-> & -> & _).
    auto.
Qed.

Lemma scanHtml_markers ns top : forall d,
  scriptInjectCommentNode (fold_left (scanHtml ns) top d)
  = lastSuch (isMarker "SCRIPT" ns)
      (flat_map (fun c => if (isNamed ns "head" c || isNamed ns "body" c)%bool
                          then kidsOf ns c else [])
                (flat_map (fun h => if isNamed ns "html" h then kidsOf ns h else []) top))
      (scriptInjectCommentNode d) /\
  styleInjectCommentNode (fold_left (scanHtml ns) top d)
  = lastSuch (isMarker "STYLE" ns)
      (flat_map (fun c => if (isNamed ns "head" c || isNamed ns "body" c)%bool
                          then kidsOf ns c else [])
                (flat_map (fun h => if isNamed ns "html" h then kidsOf ns h else []) top))
      (styleInjectCommentNode d).
Proof.
  induction top as [|h top IH]; intros d; [simpl; auto|].
  simpl. rewrite flat_map_app, !lastSuch_app.
  destruct (IH (scanHtml ns d h)) as [-> ->].
  unfold scanHtml. destruct (isNamed ns "html" h); simpl; [|auto].
  destruct (scanAnchors_markers ns (kidsOf ns h) d) as [-> ->]. auto.
Qed.

(** C9: on a tree that it can walk, [_findOutAll] returns, and a marker
    comment of either kind that no marker of its kind follows in the scan
    order is the injection point that the document records for that kind,
    however many markers of the kind come before it. *)
Theorem last_marker_wins d s root :
  document d = Some root ->
  scannable (nodes s) root = true ->
  exists d1,
    _findOutAll d s = (Ok d1, s) /\
    (forall pre m post,
        scanned (nodes s) root = pre ++ m :: post ->
        isMarker "SCRIPT" (nodes s) m = true ->
        Forall (fun c => isMarker "SCRIPT" (nodes s) c = false) post ->
        scriptInjectCommentNode d1 = Some m) /\
    (forall pre m post,
        scanned (nodes s) root = pre ++ m :: post ->
        isMarker "STYLE" (nodes s) m = true ->
        Forall (fun c => isMarker "STYLE" (nodes s) c = false) post ->
        styleInjectCommentNode d1 = Some m).
Proof.
  intros Hdoc Hok. eexists. split; [exact (_findOutAll_run d s root Hdoc Hok)|].
  destruct (scanHtml_markers (nodes s) (kidsOf (nodes s) root) d) as [Hs Ht].
  fold (htmlKids (nodes s) root) in Hs, Ht. fold (scanned (nodes s) root) in Hs, Ht.
  split; intros pre m post Hscan Hm Hpost.
  - rewrite Hs, Hscan. now apply lastSuch_last.
  - rewrite Ht, Hscan. now apply lastSuch_last.
Qed.

(** ** The anchors *)

Lemma isNamed_head_body ns c : isNamed ns "head" c = true -> isNamed ns "body" c = false.
Proof.
  unfold isNamed. destruct (ns !! c) as [n|]; [|discriminate].
  intros H. apply String.eqb_eq in H. now rewrite H.
Qed.

Lemma scanAnchors_anchors ns cs : forall d,
  headNode (fold_left (scanAnchor ns) cs d) = lastSuch (isNamed ns "head") cs (headNode d) /\
  bodyNode (fold_left (scanAnchor ns) cs d) = lastSuch (isNamed ns "body") cs (bodyNode d).
Proof.
  induction cs as [|c cs IH]; intros d; [simpl; auto|].
  simpl. destruct (IH (scanAnchor ns d c)) as [-> ->]. unfold scanAnchor.
  destruct (isNamed ns "head" c) eqn:Hh.
  - rewrite (isNamed_head_body _ _ Hh).
    destruct (scanWith_fields ns (kidsOf ns c) (set_headNode (Some c) d)) as (_ & _ & -> & ->).
    auto.
  - destruct (isNamed ns "body" c); [|auto].
    destruct (scanWith_fields ns (kidsOf ns c) (set_bodyNode (Some c) d)) as (_ & _ & -> & ->).
    auto.
Qed.

Lemma scanHtml_anchors ns top : forall d,
  headNode (fold_left (scanHtml ns) top d)
  = lastSuch (isNamed ns "head")
      (flat_map (fun h => if isNamed ns "html" h then kidsOf ns h else []) top) (headNode d) /\
  bodyNode (fold_left (scanHtml ns) top d)
  = lastSuch (isNamed ns "body")
      (flat_map (fun h => if isNamed ns "html" h then kidsOf ns h else []) top) (bodyNode d).
Proof.
  induction top as [|h top IH]; intros d; [simpl; auto|].
  simpl. rewrite !lastSuch_app. destruct (IH (scanHtml ns d h)) as [-> ->].
  unfold scanHtml. destruct (isNamed ns "html" h); simpl; [|auto].
  destruct (scanAnchors_anchors ns (kidsOf ns h) d) as [-> ->]. auto.
Qed.

Lemma lastSuch_Some {A} (p : A -> bool) l x :
  lastSuch p l None = Some x -> x ∈ l /\ p x = true.
Proof.
  induction l as [|y l IH] using rev_ind; [discriminate|].
  rewrite lastSuch_app. simpl. destruct (p y) eqn:Hy.
  - intros [= <-]. split; [|exact Hy]. apply elem_of_app. right. apply list_elem_of_singleton.
    reflexivity.
  - intros H. destruct (IH H) as [Hin Hp]. split; [|exact Hp]. apply elem_of_app. now left.
Qed.

(** A pass without marker and without fallback anchor that has names left
    over throws. *)
Lemma pass_null_anchor lit res r s R :
  arrays s !! r = Some R ->
  leftover (map Resource.chunkName res) R <> [] ->
  fst (ensurePass lit res None None r s) = Throw TypeError.
Proof.
  intros HR HL. rewrite (pass_prefix _ _ _ _ _ _ _ HR). cbv zeta.
  rewrite (length_pos_ltb _ HL).
  now rewrite (bind_run _ _ _ _ _ (mapM_newNode_run _ _ _)).
Qed.

(** C6, as the code has it: when the walked tree has no [body] below
    [html], the body anchor stays [null]; [clone], which the constructor
    calls, then throws a TypeError, and so does [ensureRequires] when it has
    scripts left over and no script marker. *)
Theorem null_body_throws G d s root :
  document d = Some root -> headNode d = None -> bodyNode d = None ->
  scannable (nodes s) root = true ->
  Forall (fun c => isNamed (nodes s) "body" c = false) (htmlKids (nodes s) root) ->
  exists d1,
    _findOutAll d s = (Ok d1, s) /\
    bodyNode d1 = None /\
    fst (clone d1 s) = Throw TypeError /\
    (forall r R,
        arrays s !! r = Some R ->
        scriptInjectCommentNode d1 = None ->
        leftover (map Resource.chunkName (scriptResources d1)) R <> [] ->
        fst (ensureRequires G d1 r s) = Throw TypeError).
Proof.
  intros Hdoc Hhead Hbody Hok Hnobody.
  eexists. split; [exact (_findOutAll_run d s root Hdoc Hok)|].
  destruct (scanHtml_anchors (nodes s) (kidsOf (nodes s) root) d) as [Hh Hb].
  fold (htmlKids (nodes s) root) in Hh, Hb.
  set (d1 := fold_left (scanHtml (nodes s)) (kidsOf (nodes s) root) d) in *.
  assert (Hb1 : bodyNode d1 = None).
  { rewrite Hb, Hbody. now apply lastSuch_none. }
  split; [exact Hb1|]. split.
  - unfold clone. destruct (headNode d1) as [h|] eqn:Hh1; [|reflexivity].
    rewrite Hhead in Hh. symmetry in Hh. apply lastSuch_Some in Hh as [Hin Hnamed].
    unfold scannable in Hok. apply andb_true_iff in Hok as [_ Hanchors].
    rewrite forallb_forall in Hanchors.
    apply list_elem_of_In in Hin. specialize (Hanchors _ Hin).
    rewrite Hnamed in Hanchors. simpl in Hanchors.
    apply resolvedKids_inv in Hanchors as (hn & Hhn & Hkids & _).
    unfold notNull at 1. unfold ret at 1. unfold bind at 1.
    rewrite (bind_run _ _ _ _ _ (childrenOf_run _ _ _ _ Hhn Hkids)).
    rewrite (bind_run _ _ _ _ _ (setChildNodes_run _ _ _ _ Hhn)).
    rewrite Hb1. reflexivity.
  - intros r R HR Hmarker HL.
    assert (Hr : r < length (arrays s)) by (eapply lookup_lt_Some; eassumption).
    unfold ensureRequires.
    rewrite (bind_run _ _ _ _ _ (copyArray_run _ _ _ HR)).
    rewrite _ensureRequireScripts_pass, Hmarker, Hb1.
    assert (HRa : arrays (withArrays (arrays s ++ [R]) s) !! length (arrays s) = Some R).
    { simpl. rewrite lookup_app_r by lia. now rewrite Nat.sub_diag. }
    pose proof (pass_null_anchor util.scriptNode (scriptResources d1) _ _ R HRa HL) as HT.
    unfold bind at 1. destruct (ensurePass _ _ _ _ _ _) as [[x|e] s1]; simpl in HT.
    + discriminate.
    + simpl. now injection HT as ->.
Qed.

(** * Concrete runs *)

Ltac by_decide :=
  match goal with
  | |- ?P => apply (bool_decide_eq_true_1 P); vm_compute; reflexivity
  end.

(** The constructor makes [defaultDoc] of the default template. *)
Example constructor_default :
  fst (constructor defaultEnv None (stateWith ["app"])) = Ok defaultDoc
  /\ nodes (snd (constructor defaultEnv None (stateWith ["app"]))) = defaultTree 0.
Proof. split; vm_compute; reflexivity. Qed.

(** [_findOutAll] makes [markersDoc] of [markersTree]. *)
Example _findOutAll_markers :
  fst (_findOutAll (blankDoc 0) (markersState [])) = Ok markersDoc.
Proof. vm_compute. reflexivity. Qed.

(** The example of the spec: the scan finds the [vendor] script and both
    markers; reconciliation with [vendor] and [app], styles not extracted,
    leaves the [vendor] script, puts one new script for [app] where the
    script marker was, and leaves [head] as it was. *)
Example spec_example :
  fst (_findOutAll (blankDoc 0) (vendorState ["vendor"; "app"])) = Ok vendorDoc
  /\ (let s1 := snd (ensureRequires productionG vendorDoc 0 (vendorState ["vendor"; "app"])) in
      childrenIn s1 (Some 3) = Some [5; 7]
      /\ nodes s1 !! 7 = Some (util.scriptNode "app" (Some 3))
      /\ childrenIn s1 (Some 2) = Some [4]
      /\ nodes s1 !! 5 = vendorTree !! 5).
Proof. vm_compute. repeat split. Qed.

(** A pass splices the array that it is given; [ensureRequires], which
    gives it a copy, leaves the array of its caller alone. *)
Example pass_splices_its_array :
  arrays (snd (_ensureRequireScripts vendorDoc 0 (vendorState ["vendor"; "app"]))) !! 0
  = Some ["app"]
  /\ arrays (snd (ensureRequires productionG vendorDoc 0 (vendorState ["vendor"; "app"]))) !! 0
     = Some ["vendor"; "app"].
Proof. vm_compute. split; reflexivity. Qed.

(** A marker that an earlier call has consumed is still the recorded
    injection point: the next call with a new name finds it at index [-1],
    drops the last child of [body] and puts the new script before the one
    that has become the last. *)
Example consumed_marker :
  let s1 := snd (ensureRequires productionG defaultDoc 0 (defaultState ["a"])) in
  let d1 := match fst (ensureRequires productionG defaultDoc 0 (defaultState ["a"])) with
            | Ok d => d
            | Throw _ => defaultDoc
            end in
  let s2 := snd (ensureRequires productionG d1 0 (mkState (nodes s1) [["b"]] ∅)) in
  childrenIn s1 (Some 8) = Some [9; 12; 11]
  /\ scriptInjectCommentNode d1 = Some 10
  /\ childrenIn s2 (Some 8) = Some [9; 13; 12]
  /\ nodes s2 !! 13 = Some (util.scriptNode "b" (Some 8)).
Proof. vm_compute. repeat split. Qed.

Lemma ensureRequires_idempotent_witness :
  exists s2,
    ensureRequires extractG onceDoc 0 onceState = (Ok onceDoc, s2) /\ nodes s2 = nodes onceState.
Proof.
  apply (ensureRequires_idempotent extractG defaultDoc 0 (defaultState ["vendor"; "app"])
           ["vendor"; "app"] onceDoc onceState).
  - reflexivity.
  - repeat constructor.
  - vm_compute. reflexivity.
Defined.

(** C2 as stated fails for a chunk name with a dot: the scan of the node
    injected for ["a.b"] gives the chunk name ["a"], so the second call on
    the default document injects ["a.b"] again, and as the marker is gone it
    does so before the last child of [body], which it removes: no second
    call leaves the nodes as the first left them. *)
Lemma ensureRequires_twice_dotted_name :
  ~ (forall G d r s R d1 s1,
        arrays s !! r = Some R ->
        ensureRequires G d r s = (Ok d1, s1) ->
        exists d2 s2, ensureRequires G d1 r s1 = (Ok d2, s2) /\ nodes s2 = nodes s1).
Proof.
  intros H.
  destruct (ensureRequires productionG defaultDoc 0 (defaultState ["a.b"]))
    as [[d1|e] s1] eqn:E; [|vm_compute in E; discriminate].
  destruct (H productionG defaultDoc 0 (defaultState ["a.b"]) ["a.b"] d1 s1 eq_refl E)
    as (d2 & s2 & E2 & Hn).
  vm_compute in E. injection E as <- <-.
  vm_compute in E2. injection E2 as _ <-.
  vm_compute in Hn. discriminate.
Qed.

(** C3 as stated fails for a chunk name with a dot, on a document whose
    markers stand in the tree as the scan leaves them and whose scripts are
    injected below a [body] that the scan reads: after the call on the
    default document the script that was injected for ["a.b"] has the chunk
    name ["a"], so ["a.b"] is the chunk name of no script resource of the
    document and of no script in the tree. *)
Lemma ensureRequires_dotted_name_missing :
  ~ (forall G d r s R root p d1 s1,
        arrays s !! r = Some R ->
        document d = Some root ->
        scriptPoint d (nodes s) = true ->
        (_isExtractStyle G = true -> stylePoint d (nodes s) = true) ->
        injectionParent (scriptInjectCommentNode d) (bodyNode d) (nodes s) = Some p ->
        anchored (nodes s) root p = true ->
        (forall n, n ∈ R -> Some n ∈ map Resource.chunkName (scriptResources d) ->
                   scriptScanned (nodes s) root n = true) ->
        ensureRequires G d r s = (Ok d1, s1) ->
        forall n, n ∈ R ->
          Some n ∈ map Resource.chunkName (scriptResources d1) \/
          scriptInTree (nodes s1) n = true).
Proof.
  intros H.
  destruct (ensureRequires productionG defaultDoc 0 (defaultState ["a.b"]))
    as [[d1|e] s1] eqn:E; [|vm_compute in E; discriminate].
  assert (Hin : "a.b" ∈ ["a.b"]) by (apply list_elem_of_singleton; reflexivity).
  assert (Hstyle : _isExtractStyle productionG = true ->
                   stylePoint defaultDoc (nodes (defaultState ["a.b"])) = true)
    by discriminate.
  assert (Htree : forall n, n ∈ ["a.b"] ->
                    Some n ∈ map Resource.chunkName (scriptResources defaultDoc) ->
                    scriptScanned (nodes (defaultState ["a.b"])) 0 n = true).
  { intros n _ Hn. now apply elem_of_nil in Hn. }
  pose proof (H productionG defaultDoc 0 (defaultState ["a.b"]) ["a.b"] 0 8 d1 s1
                eq_refl eq_refl eq_refl Hstyle eq_refl eq_refl Htree E "a.b" Hin) as Hn.
  vm_compute in E. injection E as <- <-. destruct Hn as [Hn|Hn].
  - simpl in Hn. apply list_elem_of_singleton in Hn. discriminate.
  - vm_compute in Hn. discriminate.
Qed.

(** C4 as stated fails when a style pass follows: in
    [<body><!--STYLE--><!--SCRIPT--></body>] with two names left over and
    styles extracted, the script marker stood at index 1 of the children of
    [body]; after the call the node at index 1 is the second stylesheet
    link, and the scripts stand at the indices 2 and 3. *)
Lemma marker_index_shifted_by_style_pass :
  let run := ensureRequires extractG markersDoc 0 (markersState ["a"; "b"]) in
  scriptInjectCommentNode markersDoc = Some 5
  /\ childrenIn (markersState ["a"; "b"]) (Some 3) = Some ([4] ++ 5 :: [])
  /\ leftover (map Resource.chunkName (scriptResources markersDoc)) ["a"; "b"] = ["a"; "b"]
  /\ (exists d1, fst run = Ok d1)
  /\ childrenIn (snd run) (Some 3) = Some [8; 9; 6; 7]
  /\ nodes (snd run) !! 9 = Some (util.styleNode "b" (Some 3))
  /\ nodes (snd run) !! 6 = Some (util.scriptNode "a" (Some 3))
  /\ nodes (snd run) !! 7 = Some (util.scriptNode "b" (Some 3)).
Proof.
  vm_compute. repeat split. eexists. reflexivity.
Qed.

Lemma serialize_compact_witness :
  exists s1,
    serialize (fun _ _ => EmptyString) productionG defaultDoc (defaultState [])
    = (Ok EmptyString, s1) /\
    childrenIn s1 (Some 3) = Some [5] /\
    childrenIn s1 (Some 8) = Some [].
Proof.
  destruct (serialize_compact (fun _ _ => EmptyString) productionG defaultDoc (defaultState [])
              3 8 (element "head" [] (Some 2) [4; 5; 6]) (element "body" [] (Some 2) [9; 10; 11])
              [4; 5; 6] [9; 10; 11]) as (s1 & H1 & H2 & H3 & _).
  - reflexivity.
  - reflexivity.
  - reflexivity.
  - reflexivity.
  - reflexivity.
  - reflexivity.
  - reflexivity.
  - by_decide.
  - by_decide.
  - exists s1. split; [exact H1|]. split; [exact H2 | exact H3].
Defined.

(** C5 as stated fails below the first level: in
    [<body><div><!-- note -->   </div></body>] production serialization
    leaves the comment and the blank text as children of the [div], the
    text untrimmed. *)
Lemma compact_mode_keeps_nested_comment :
  let run := serialize (fun _ _ => EmptyString) productionG nestedDoc
                       (mkState nestedTree [] ∅) in
  fst run = Ok EmptyString
  /\ childrenIn (snd run) (Some 3) = Some [4]
  /\ childrenIn (snd run) (Some 4) = Some [5; 6]
  /\ nodes (snd run) !! 5 = Some (commentNode " note " (Some 4))
  /\ startsWith "[if " " note " = false
  /\ nodes (snd run) !! 6 = Some (text "   " (Some 4))
  /\ trim "   " = EmptyString.
Proof. vm_compute. repeat split. Qed.

Lemma null_body_throws_witness :
  exists d1,
    _findOutAll (blankDoc 0) (mkState (framesetTree 0) [["app"]] ∅)
    = (Ok d1, mkState (framesetTree 0) [["app"]] ∅) /\
    bodyNode d1 = None /\
    fst (clone d1 (mkState (framesetTree 0) [["app"]] ∅)) = Throw TypeError /\
    fst (ensureRequires productionG d1 0 (mkState (framesetTree 0) [["app"]] ∅))
    = Throw TypeError.
Proof.
  destruct (null_body_throws productionG (blankDoc 0)
              (mkState (framesetTree 0) [["app"]] ∅) 0) as (d1 & H1 & H2 & H3 & H4).
  - reflexivity.
  - reflexivity.
  - reflexivity.
  - reflexivity.
  - by_decide.
  - exists d1. split; [exact H1|]. split; [exact H2|]. split; [exact H3|].
    apply (H4 0 ["app"]); [reflexivity | |].
    + vm_compute in H1. injection H1 as <-. reflexivity.
    + vm_compute in H1. injection H1 as <-. discriminate.
Defined.

(** C6 as stated fails: for a frameset page, whose tree has no [body], the
    constructor itself throws a TypeError, in the [clone] that fills the
    cache; and on the document that the scan leaves, with its body anchor
    [null], [ensureRequires] with a name left over and no script marker
    throws a TypeError. *)
Lemma null_body_not_tolerated :
  fst (constructor framesetEnv (Some "frames.html") emptyState) = Throw TypeError
  /\ fst (_findOutAll (blankDoc 0) (mkState (framesetTree 0) [["app"]] ∅))
     = Ok (mkDoc (Some 0) (Some 2) None [] [] None None None)
  /\ fst (ensureRequires productionG (mkDoc (Some 0) (Some 2) None [] [] None None None) 0
                         (mkState (framesetTree 0) [["app"]] ∅))
     = Throw TypeError.
Proof. vm_compute. repeat split. Qed.

Lemma last_marker_wins_witness :
  exists d1,
    _findOutAll (blankDoc 0) (mkState duplicatesTree [] ∅)
    = (Ok d1, mkState duplicatesTree [] ∅) /\
    scriptInjectCommentNode d1 = Some 6.
Proof.
  destruct (last_marker_wins (blankDoc 0) (mkState duplicatesTree [] ∅) 0)
    as (d1 & H1 & H2 & _).
  - reflexivity.
  - reflexivity.
  - exists d1. split; [exact H1|].
    apply (H2 [4; 5] 6 []); [reflexivity | reflexivity | constructor].
Defined.

(** ** Clones *)

(** [clone] hands out the very [head] and [body] nodes of the document it
    copies, and writes to the store nothing but their own child arrays. *)
Lemma clone_shares_anchors d s d1 s1 :
  clone d s = (Ok d1, s1) ->
  headNode d1 = headNode d /\ bodyNode d1 = bodyNode d /\ nodes s1 = nodes s.
Proof.
  unfold clone. intros H.
  inv_bind H as h sh H0. apply notNull_inv in H0 as [-> Hh].
  inv_bind H as hcs sh H0. apply childrenOf_inv in H0 as [-> (hn & Hhn & Hhcs)].
  inv_bind H as u sh H0. rewrite (setChildNodes_run _ _ _ _ Hhn) in H0.
  injection H0 as _ <-.
  inv_bind H as b sb H0. apply notNull_inv in H0 as [-> Hb].
  inv_bind H as bcs sb H0. apply childrenOf_inv in H0 as [-> (bn & Hbn & Hbcs)].
  inv_bind H as u' sb H0. rewrite (setChildNodes_run _ _ _ _ Hbn) in H0.
  injection H0 as _ <-.
  injection H as <- <-. simpl in *.
  rewrite (set_childNodes_same _ _ Hhcs), (list_insert_id _ _ _ Hhn) in *.
  rewrite (set_childNodes_same _ _ Hbcs), (list_insert_id _ _ _ Hbn). auto.
Qed.

(** C1 fails on the code: of three documents made of the template
    [/index.html], the last two being clones of the cached prototype, only
    the second is reconciled, with [app]; the third, which has no script
    resource, has the same [body] node, and the child array of that node,
    which is also the one of the cached prototype, holds the injected
    script. *)
Theorem clones_share_child_lists :
  exists d1 d2 s,
    threeDocuments (stateWith ["app"]) = (Ok (d1, d2), s) /\
    scriptResources d2 = [] /\
    bodyNode d1 = Some 8 /\ bodyNode d2 = Some 8 /\
    childrenIn s (bodyNode d2) = Some [9; 12; 11] /\
    nodes s !! 12 = Some (util.scriptNode "app" (Some 8)) /\
    childrenIn s (proto ← HTMLDocumentCacheMap s !! "/index.html"; bodyNode proto)
    = Some [9; 12; 11].
Proof.
  destruct (threeDocuments (stateWith ["app"])) as [[[d1 d2]|e] s] eqn:E;
    vm_compute in E; [|discriminate].
  injection E as <- <- <-. eexists _, _, _. split; [reflexivity|].
  vm_compute. repeat split.
Qed.

(** ** The orchestrator *)

Lemma applyPage_eq H o use c page :
  AutoWebPlugin.applyPage H o use c page
  = match sharedRequires o use with
    | Ok shared =>
        AutoWebPlugin.plug H (htmlRequest o shared page)
          (AutoWebPlugin.mkCompiler
             (assignEntry (fst page) (pageEntryArray o page) (AutoWebPlugin.entry c))
             (AutoWebPlugin.registered c))
    | Throw e => Throw e
    end.
Proof.
  unfold AutoWebPlugin.applyPage, sharedRequires, pageEntryArray, htmlRequest.
  destruct use; [destruct (AutoWebPlugin.commonsChunk_name _); [|reflexivity]|];
    destruct (AutoWebPlugin.preEntrys o), (AutoWebPlugin.postEntrys o); simpl;
    rewrite <- ?app_assoc, ?app_nil_r; reflexivity.
Qed.

(** The pages are applied one after the other until a [WebPlugin] throws. *)
Lemma applyPages_Ok H o use shared pages : forall c c1,
  sharedRequires o use = Ok shared ->
  AutoWebPlugin.applyPages H o use pages c = Ok c1 <->
  Forall (fun page => AutoWebPlugin.refuses H (htmlRequest o shared page) = None) pages /\
  c1 = AutoWebPlugin.mkCompiler
         (entriesAfter o pages (AutoWebPlugin.entry c))
         (AutoWebPlugin.registered c ++ map (htmlRequest o shared) pages).
Proof.
  intros c c1 Hs. revert c. induction pages as [|page pages IH]; intros c.
  - simpl. rewrite app_nil_r. split.
    + intros [= <-]. split; [constructor | now destruct c].
    + intros [_ ->]. now destruct c.
  - change (AutoWebPlugin.applyPages H o use (page :: pages) c)
      with (match AutoWebPlugin.applyPage H o use c page with
            | Ok c' => AutoWebPlugin.applyPages H o use pages c'
            | Throw e => Throw e
            end).
    rewrite applyPage_eq, Hs. unfold AutoWebPlugin.plug.
    destruct (AutoWebPlugin.refuses H (htmlRequest o shared page)) as [e|] eqn:E.
    + split; [discriminate|]. intros [Hall _]. apply Forall_cons in Hall as [Hp _]. congruence.
    + rewrite IH. simpl. unfold entriesAfter. simpl. rewrite <- app_assoc. simpl.
      split; intros [Hall ->]; (split; [|reflexivity]).
      * now constructor.
      * now apply Forall_cons in Hall as [_ Hall].
Qed.

Lemma applyGlobals_throws h e : AutoWebPlugin.applyGlobals h = Throw e -> e = TypeError.
Proof.
  unfold AutoWebPlugin.applyGlobals, util.isProduction.
  destruct (bool_decide _); [discriminate|].
  destruct (util.plugins h); [discriminate|]. now intros [= <-].
Qed.

(** Without the option, [apply] registers no shared-chunk pass. *)
Lemma apply_absent H this c G :
  AutoWebPlugin.commonsChunk (AutoWebPlugin.this_options this) = AutoWebPlugin.Absent ->
  AutoWebPlugin.applyGlobals (AutoWebPlugin.tests H) = Ok G ->
  Forall (fun page => AutoWebPlugin.refuses H (htmlRequest (AutoWebPlugin.this_options this) [] page)
                      = None) (AutoWebPlugin.entryMap this) ->
  AutoWebPlugin.apply H this c
  = Ok (G, AutoWebPlugin.mkCompiler
          (entriesAfter (AutoWebPlugin.this_options this) (AutoWebPlugin.entryMap this)
                        (AutoWebPlugin.entry c))
          (AutoWebPlugin.registered c
           ++ map (htmlRequest (AutoWebPlugin.this_options this) []) (AutoWebPlugin.entryMap this)
           ++ [AutoWebPlugin.EmitHook
                 (AutoWebPlugin.outputPagemap (AutoWebPlugin.this_options this))])).
Proof.
  intros Ho HG Hall. unfold AutoWebPlugin.apply. rewrite HG, Ho. simpl.
  assert (Hs : sharedRequires (AutoWebPlugin.this_options this) false = Ok []) by reflexivity.
  rewrite (proj2 (applyPages_Ok H _ false [] _ c _ Hs) (conj Hall eq_refl)).
  simpl. now rewrite <- app_assoc.
Qed.

(** With an object as the option, [apply] registers one shared-chunk pass,
    whose options are the page names as [chunks] with the properties of
    the option assigned over them. *)
Lemma apply_configured H this props c G :
  AutoWebPlugin.commonsChunk (AutoWebPlugin.this_options this) = AutoWebPlugin.Obj props ->
  AutoWebPlugin.applyGlobals (AutoWebPlugin.tests H) = Ok G ->
  Forall (fun page => AutoWebPlugin.refuses H
                        (htmlRequest (AutoWebPlugin.this_options this)
                                     [AutoWebPlugin.getProp "name" props] page) = None)
         (AutoWebPlugin.entryMap this) ->
  AutoWebPlugin.refuses H
    (AutoWebPlugin.CommonsChunkPluginApplied
       (AutoWebPlugin.Object_assign
          [("chunks", AutoWebPlugin.JStrings (map fst (AutoWebPlugin.entryMap this)))]
          (AutoWebPlugin.Obj props))) = None ->
  AutoWebPlugin.apply H this c
  = Ok (G, AutoWebPlugin.mkCompiler
          (entriesAfter (AutoWebPlugin.this_options this) (AutoWebPlugin.entryMap this)
                        (AutoWebPlugin.entry c))
          (AutoWebPlugin.registered c
           ++ map (htmlRequest (AutoWebPlugin.this_options this)
                               [AutoWebPlugin.getProp "name" props])
                  (AutoWebPlugin.entryMap this)
           ++ [AutoWebPlugin.CommonsChunkPluginApplied
                 (AutoWebPlugin.Object_assign
                    [("chunks", AutoWebPlugin.JStrings (map fst (AutoWebPlugin.entryMap this)))]
                    (AutoWebPlugin.Obj props));
               AutoWebPlugin.EmitHook
                 (AutoWebPlugin.outputPagemap (AutoWebPlugin.this_options this))])).
Proof.
  intros Ho HG Hall Hshared. unfold AutoWebPlugin.apply. rewrite HG, Ho. simpl.
  assert (Hs : sharedRequires (AutoWebPlugin.this_options this) true
               = Ok [AutoWebPlugin.getProp "name" props])
    by (unfold sharedRequires; now rewrite Ho).
  rewrite (proj2 (applyPages_Ok H _ true _ _ c _ Hs) (conj Hall eq_refl)).
  unfold AutoWebPlugin.plug. simpl in Hshared |- *. rewrite Hshared. simpl.
  now rewrite <- !app_assoc.
Qed.

(** With [null] as the option and a page to apply, [apply] throws a
    TypeError, whatever the host. *)
Lemma apply_null H this c page pages :
  AutoWebPlugin.commonsChunk (AutoWebPlugin.this_options this) = AutoWebPlugin.Null ->
  AutoWebPlugin.entryMap this = page :: pages ->
  AutoWebPlugin.apply H this c = Throw TypeError.
Proof.
  intros Ho Hp. unfold AutoWebPlugin.apply.
  destruct (AutoWebPlugin.applyGlobals (AutoWebPlugin.tests H)) as [G|e] eqn:HG.
  - rewrite Ho, Hp. simpl. unfold AutoWebPlugin.applyPage. rewrite Ho. reflexivity.
  - now rewrite (applyGlobals_throws _ _ HG).
Qed.

(** C8 fails on the code for the option [commonsChunk: null], which the
    documentation of the constructor gives as the way to ask for no shared
    chunk: [typeof null === 'object'] makes [useCommonsChunk] true, and
    [apply] throws a TypeError at [commonsChunk.name] for the first page,
    whatever the host; with the option left out the same plugin, in a host
    without plugins whose classes take their options, registers the page
    with its own chunk only and no shared-chunk pass. *)
Theorem apply_null_commonsChunk_throws :
  (forall H, AutoWebPlugin.apply H (homePlugin AutoWebPlugin.Null) freshCompiler
             = Throw TypeError)
  /\ AutoWebPlugin.apply plainHost (homePlugin AutoWebPlugin.Absent) freshCompiler
     = Ok (developmentG,
           AutoWebPlugin.mkCompiler
             {["home" := [AutoWebPlugin.JString "/pages/home"]]}
             [AutoWebPlugin.WebPluginApplied (AutoWebPlugin.JString "template.html")
                "home.html" [AutoWebPlugin.JString "home"] AutoWebPlugin.JUndefined;
              AutoWebPlugin.EmitHook false]).
Proof.
  split.
  - intros H. now apply (apply_null H _ _ homePage []).
  - rewrite (apply_absent plainHost _ _ developmentG); [reflexivity .. |].
    repeat constructor.
Qed.

(** * Further properties of the document model *)

(** ** What the passes remove from the required names *)

Lemma removeFirst_nil c : removeFirst c [] = [].
Proof. reflexivity. Qed.

Lemma removeFirst_occurrences c n l :
  occurrences n (removeFirst c l)
  = if decide (c = Some n) then pred (occurrences n l) else occurrences n l.
Proof.
  induction l as [|x l IH].
  - rewrite removeFirst_nil. simpl. now destruct (decide (c = Some n)).
  - rewrite removeFirst_cons. case_bool_decide as E.
    + simpl. destruct (decide (c = Some n)) as [->|Hc].
      * injection E as ->. now rewrite decide_True.
      * rewrite decide_False; [reflexivity|]. intros ->. now apply Hc.
    + simpl. rewrite IH. destruct (decide (c = Some n)) as [->|Hc]; [|reflexivity].
      rewrite decide_False by congruence. reflexivity.
Qed.

Lemma leftover_occurrences S R n :
  occurrences n (leftover S R) = occurrences n R - occurrences (Some n) S.
Proof.
  revert R. induction S as [|c S IH]; intros R.
  - simpl. lia.
  - rewrite leftover_cons, IH, removeFirst_occurrences. simpl.
    destruct (decide (c = Some n)); lia.
Qed.

Lemma occurrences_none {A} `{EqDecision A} (l : list A) :
  (forall x, occurrences x l = 0) -> l = [].
Proof.
  destruct l as [|x l]; [reflexivity|]. intros H. specialize (H x). simpl in H.
  rewrite decide_True in H by reflexivity. discriminate.
Qed.

(** X1: the first loop of both passes takes from the array one occurrence
    of a name for every resource that carries it as its chunk name, and
    nothing else: what it leaves is a sublist of what it found, and a name
    is left as often as it was required beyond the resources that carry
    it.  The nodes are not touched. *)
Theorem removePresent_counts res r s R :
  arrays s !! r = Some R ->
  exists L,
    removePresent res r s = (Ok tt, withArrays (<[r := L]> (arrays s)) s) /\
    (L `sublist_of` R) /\
    (forall n, occurrences n L
               = occurrences n R - occurrences (Some n) (map Resource.chunkName res)).
Proof.
  intros HR. exists (leftover (map Resource.chunkName res) R).
  split; [now apply removePresent_run|].
  split; [apply leftover_sublist | intros n; apply leftover_occurrences].
Qed.

Lemma covered_leftover present R :
  (forall n, occurrences n R <= occurrences (Some n) present) -> leftover present R = [].
Proof.
  intros H. apply occurrences_none. intros n. rewrite leftover_occurrences.
  specialize (H n). lia.
Qed.

(** X2: when every required name is carried by as many script resources as
    it is required times (and, when styles are extracted, by as many style
    resources), [ensureRequires] returns the document object as it was and
    leaves every node and the caller's array alone.  Nothing is asked of the
    anchors: the call returns also for a document whose [head] or [body] is
    [null]. *)
Theorem ensureRequires_nothing_left G d r s R :
  arrays s !! r = Some R ->
  (forall n, occurrences n R
             <= occurrences (Some n) (map Resource.chunkName (scriptResources d))) ->
  (_isExtractStyle G = true ->
   forall n, occurrences n R
             <= occurrences (Some n) (map Resource.chunkName (stylesResources d))) ->
  exists s1,
    ensureRequires G d r s = (Ok d, s1) /\
    nodes s1 = nodes s /\ arrays s1 !! r = Some R /\
    HTMLDocumentCacheMap s1 = HTMLDocumentCacheMap s.
Proof.
  intros HR Hs Ht. apply covered_leftover in Hs.
  assert (Hr : r < length (arrays s)) by (eapply lookup_lt_Some; eassumption).
  unfold ensureRequires.
  rewrite (bind_run _ _ _ _ _ (copyArray_run _ _ _ HR)).
  set (sa := withArrays (arrays s ++ [R]) s).
  assert (HRa : arrays sa !! length (arrays s) = Some R).
  { simpl. rewrite lookup_app_r by lia. now rewrite Nat.sub_diag. }
  rewrite _ensureRequireScripts_pass.
  rewrite (bind_run _ _ _ _ _ (ensurePass_nothing _ _ _ _ _ _ _ HRa Hs)).
  set (sb := withArrays (<[length (arrays s) := []]> (arrays sa)) sa).
  assert (HRb : arrays sb !! r = Some R).
  { simpl. rewrite list_lookup_insert_ne by lia. now apply lookup_app_l_Some. }
  destruct (_isExtractStyle G).
  - specialize (Ht eq_refl). apply covered_leftover in Ht.
    rewrite bind_assoc, (bind_run _ _ _ _ _ (copyArray_run _ _ _ HRb)).
    set (sc := withArrays (arrays sb ++ [R]) sb).
    assert (HRc : arrays sc !! length (arrays sb) = Some R).
    { simpl. rewrite lookup_app_r by lia. now rewrite Nat.sub_diag. }
    rewrite _ensureRequireStyles_pass.
    rewrite (bind_run _ _ _ _ _ (ensurePass_nothing _ _ _ _ _ _ _ HRc Ht)).
    eexists. split; [reflexivity|]. simpl. split; [reflexivity|]. split; [|reflexivity].
    rewrite length_insert, length_app. simpl.
    rewrite list_lookup_insert_ne by lia.
    rewrite lookup_app_l by (rewrite length_insert, length_app; simpl; lia).
    rewrite list_lookup_insert_ne by lia. now apply lookup_app_l_Some.
  - eexists. split; [reflexivity|]. simpl. auto.
Qed.

(** ** What [replaceNodesWithNodes] writes *)

#[local] Instance onlyChildrenOf_preorder p : PreOrder (onlyChildrenOf p).
Proof.
  split.
  - intros s. repeat split; auto. intros i n Hi. exists n. split; [exact Hi | apply reshaped_refl].
  - intros s1 s2 s3 (L1 & A1 & C1 & K1 & O1) (L2 & A2 & C2 & K2 & O2).
    repeat split; try congruence.
    + intros i n Hi. destruct (K1 _ _ Hi) as (n1 & Hi1 & R1).
      destruct (K2 _ _ Hi1) as (n2 & Hi2 & R2).
      exists n2. split; [exact Hi2 | eapply reshaped_trans; eassumption].
    + intros i Hi. rewrite O2, O1; auto.
Qed.

Lemma setChildNodes_onlyChildrenOf p cs : keeps (onlyChildrenOf (Some p)) (setChildNodes p cs).
Proof.
  intros s. unfold setChildNodes, bind, getNode.
  destruct (nodes s !! p) as [n|] eqn:Hp; [|reflexivity].
  simpl. repeat split.
  - apply length_insert.
  - intros i m Hi. destruct (decide (i = p)) as [->|Hne].
    + rewrite Hp in Hi. injection Hi as <-.
      exists (set_childNodes cs n). split.
      * apply list_lookup_insert_eq. eapply lookup_lt_Some; eassumption.
      * repeat split. intros _. now exists cs.
    + exists m. split; [|apply reshaped_refl].
      simpl. now rewrite list_lookup_insert_ne by congruence.
  - intros i Hi. simpl. apply list_lookup_insert_ne. congruence.
Qed.

Lemma replaceNodes_tail_keeps p oldNodes newNodes :
  keeps (onlyChildrenOf (Some p))
    (_ <- util.childrenOf p ;;
     index <- foldM (fun (_ : Z) oldNode =>
                       cs <- util.childrenOf p ;;
                       let index := findIndex (Nat.eqb oldNode) cs in
                       setChildNodes p (splice index 1 [] cs) ;;;
                       ret index)
                    oldNodes 0%Z ;;
     cs <- util.childrenOf p ;;
     setChildNodes p (splice index 0 newNodes cs)).
Proof.
  pose (Rp := onlyChildrenOf (Some p)).
  assert (HR : PreOrder Rp) by apply _.
  apply (keeps_bind Rp); [apply keeps_childrenOf; exact HR|intros ?].
  apply (keeps_bind Rp).
  - apply (keeps_foldM Rp). intros ? ?.
    apply (keeps_bind Rp); [apply keeps_childrenOf; exact HR|intros ?].
    apply (keeps_bind Rp); [apply setChildNodes_onlyChildrenOf|intros ?].
    apply keeps_ret; exact HR.
  - intros ?. apply (keeps_bind Rp); [apply keeps_childrenOf; exact HR|intros ?].
    apply setChildNodes_onlyChildrenOf.
Qed.

(** X3: [replaceNodesWithNodes] writes one thing, the child array of the
    parent of the first old node.  Whatever the old and the new nodes are,
    and whether it returns or throws, it creates no node, it leaves every
    field but [childNodes] of every node as it was -- so the old nodes keep
    their [parentNode] and the new nodes are not given one -- and it leaves
    the child array of every node but that parent as it was. *)
Theorem replaceNodesWithNodes_writes_one_child_list oldNodes newNodes s :
  onlyChildrenOf (firstParent oldNodes (nodes s)) s
                 (snd (util.replaceNodesWithNodes oldNodes newNodes s)).
Proof.
  unfold util.replaceNodesWithNodes, firstParent.
  destruct (head oldNodes) as [o0|]; [|reflexivity].
  cbn [mbind option_bind].
  unfold notNull at 1. unfold ret at 1. unfold bind at 1.
  unfold bind at 1. unfold getNode at 1.
  destruct (nodes s !! o0) as [n0|]; [|reflexivity].
  cbn [mbind option_bind].
  destruct (parentNode n0) as [p|]; [|reflexivity].
  unfold notNull at 1. unfold ret at 1. unfold bind at 1.
  exact (replaceNodes_tail_keeps p oldNodes newNodes s).
Qed.

(** ** A marker that is no child of its parent *)

Lemma splice_last_delete {A} (pre : list A) y :
  splice (-1) 1 [] (pre ++ [y]) = pre.
Proof.
  unfold splice, splice_start. rewrite length_app. simpl length.
  replace (Z.to_nat _) with (length pre) by (simpl; lia).
  rewrite take_app_length. simpl.
  rewrite drop_ge by (rewrite length_app; simpl; lia). apply app_nil_r.
Qed.

Lemma splice_before_last {A} (pre items : list A) x :
  splice (-1) 0 items (pre ++ [x]) = pre ++ items ++ [x].
Proof.
  unfold splice, splice_start. rewrite length_app. simpl length.
  replace (Z.to_nat _) with (length pre) by (simpl; lia).
  rewrite take_app_length, Nat.add_0_r, drop_app_length. reflexivity.
Qed.

Lemma injectedChildren_stale m ids pre x y :
  m ∉ pre ++ [x; y] -> injectedChildren (Some m) ids (pre ++ [x; y]) = pre ++ ids ++ [x].
Proof.
  intros Hm. unfold injectedChildren.
  rewrite findIndex_none.
  - change (pre ++ [x; y]) with (pre ++ [x] ++ [y]). rewrite app_assoc.
    now rewrite splice_last_delete, splice_before_last.
  - apply Forall_forall. intros c Hc. apply Nat.eqb_neq. intros <-. contradiction.
Qed.

(** X4: the script pass with a marker that is no longer a child of its
    parent, as the marker is once an earlier call has replaced it: the
    marker is looked up in the child array of the parent that it still
    names, [findIndex] answers [-1], and [splice] counts from the end.  The
    last child of that parent is dropped from the array, and the new
    scripts are put before the child that was the last but one. *)
Theorem stale_marker_drops_last_child d c s R m mn p pn pre x y :
  arrays s !! c = Some R ->
  leftover (map Resource.chunkName (scriptResources d)) R <> [] ->
  scriptInjectCommentNode d = Some m ->
  nodes s !! m = Some mn -> parentNode mn = Some p ->
  nodes s !! p = Some pn -> childNodes pn = Some (pre ++ [x; y]) ->
  m ∉ pre ++ [x; y] ->
  let ids := scriptIds d R s in
  exists s1,
    _ensureRequireScripts d c s = (Ok ids, s1) /\
    childrenIn s1 (Some p) = Some (pre ++ ids ++ [x]) /\
    Forall2 (fun id name => nodes s1 !! id = Some (util.scriptNode name (Some p)))
            ids (leftover (map Resource.chunkName (scriptResources d)) R).
Proof.
  intros HR HL Hmarker Hm Hpar Hp Hcs Hout ids.
  assert (Hip : injectionParent (scriptInjectCommentNode d) (bodyNode d) (nodes s) = Some p).
  { rewrite Hmarker. simpl. rewrite Hm. exact Hpar. }
  eexists. split.
  - rewrite _ensureRequireScripts_pass.
    exact (ensurePass_run _ _ _ _ _ _ _ _ _ _ HR HL Hip Hp Hcs).
  - rewrite Hmarker. split.
    + rewrite injected_children by exact Hp. now rewrite injectedChildren_stale.
    + now apply injected_new.
Qed.

(** ** Clones and the cache *)

Lemma setChildNodes_same s p pn cs :
  nodes s !! p = Some pn -> childNodes pn = Some cs -> setChildNodes p cs s = (Ok tt, s).
Proof.
  intros Hp Hcs. rewrite (setChildNodes_run _ _ _ _ Hp).
  rewrite (set_childNodes_same _ _ Hcs), (list_insert_id _ _ _ Hp). now destruct s.
Qed.

Lemma clone_run d s h b hn bn hcs bcs :
  headNode d = Some h -> nodes s !! h = Some hn -> childNodes hn = Some hcs ->
  bodyNode d = Some b -> nodes s !! b = Some bn -> childNodes bn = Some bcs ->
  clone d s = (Ok (cloneOf d), s).
Proof.
  intros Hh Hhn Hhcs Hb Hbn Hbcs. unfold clone. rewrite Hh, Hb.
  unfold notNull at 1. unfold ret at 1. unfold bind at 1.
  rewrite (bind_run _ _ _ _ _ (childrenOf_run _ _ _ _ Hhn Hhcs)).
  rewrite (bind_run _ _ _ _ _ (setChildNodes_same _ _ _ _ Hhn Hhcs)).
  unfold notNull at 1. unfold ret at 1. unfold bind at 1.
  rewrite (bind_run _ _ _ _ _ (childrenOf_run _ _ _ _ Hbn Hbcs)).
  rewrite (bind_run _ _ _ _ _ (setChildNodes_same _ _ _ _ Hbn Hbcs)).
  unfold cloneOf. rewrite Hh, Hb. reflexivity.
Qed.

Lemma clone_inv d s d1 s1 :
  clone d s = (Ok d1, s1) ->
  d1 = cloneOf d /\ s1 = s /\
  exists h b hn bn hcs bcs,
    headNode d = Some h /\ nodes s !! h = Some hn /\ childNodes hn = Some hcs /\
    bodyNode d = Some b /\ nodes s !! b = Some bn /\ childNodes bn = Some bcs.
Proof.
  intros H. pose proof H as H'. unfold clone in H'.
  inv_bind H' as h sh H0. apply notNull_inv in H0 as [-> Hh].
  inv_bind H' as hcs sh H0. apply childrenOf_inv in H0 as [-> (hn & Hhn & Hhcs)].
  inv_bind H' as u sh H0. rewrite (setChildNodes_same _ _ _ _ Hhn Hhcs) in H0.
  injection H0 as _ <-.
  inv_bind H' as b sb H0. apply notNull_inv in H0 as [-> Hb].
  inv_bind H' as bcs sb H0. apply childrenOf_inv in H0 as [-> (bn & Hbn & Hbcs)].
  clear H'.
  rewrite (clone_run d s h b hn bn hcs bcs Hh Hhn Hhcs Hb Hbn Hbcs) in H.
  injection H as <- <-. split; [reflexivity|]. split; [reflexivity|].
  exists h, b, hn, bn, hcs, bcs. auto 10.
Qed.

(** X5: [clone] on a document whose [head] and [body] have child arrays
    returns and leaves the store exactly as it was: the copies that it makes
    of the two child arrays are written into the nodes they were read from,
    no node is created, and the document that it returns has the
    [#document], the [head], the [body] and the two markers of the document
    it was called on. *)
Theorem clone_leaves_store d s h b hn bn hcs bcs :
  headNode d = Some h -> nodes s !! h = Some hn -> childNodes hn = Some hcs ->
  bodyNode d = Some b -> nodes s !! b = Some bn -> childNodes bn = Some bcs ->
  exists d1,
    clone d s = (Ok d1, s) /\
    document d1 = document d /\ headNode d1 = Some h /\ bodyNode d1 = Some b /\
    scriptInjectCommentNode d1 = scriptInjectCommentNode d /\
    styleInjectCommentNode d1 = styleInjectCommentNode d /\
    htmlTemplateFilePath d1 = htmlTemplateFilePath d.
Proof.
  intros Hh Hhn Hhcs Hb Hbn Hbcs. exists (cloneOf d).
  split; [now apply (clone_run d s h b hn bn hcs bcs)|].
  unfold cloneOf. simpl. auto 10.
Qed.

Lemma foldM_preserves {A S} (P : S -> Prop) (f : S -> A -> M S) l :
  (forall a x s b s1, P a -> f a x s = (Ok b, s1) -> P b) ->
  forall acc s b s1, P acc -> foldM f l acc s = (Ok b, s1) -> P b.
Proof.
  intros Hf. induction l as [|x l IH]; intros acc s b s1 Hacc H; simpl in H.
  - injection H as <- _. exact Hacc.
  - inv_bind H as a sa H0. eapply IH; [|exact H]. eapply Hf; eassumption.
Qed.

Lemma record_resource_document d r :
  document (record_resource d r) = document d /\
  htmlTemplateFilePath (record_resource d r) = htmlTemplateFilePath d.
Proof.
  unfold record_resource. destruct (Resource.type r); simpl; auto.
  destruct (String.eqb (Resource.data r) "SCRIPT"); simpl; auto.
  destruct (String.eqb (Resource.data r) "STYLE"); simpl; auto.
Qed.

Lemma scan_document (P : HTMLDocument -> Prop) d ocs s d1 s1 :
  (forall d r, P d -> P (record_resource d r)) ->
  P d -> _findScriptStyleTagComment d ocs s = (Ok d1, s1) -> P d1.
Proof.
  intros HP Hd H. unfold _findScriptStyleTagComment in H.
  inv_bind H as cs s0 H0.
  eapply (foldM_preserves P); [|exact Hd|exact H].
  intros a x sa b sb Ha Hx. inv_bind Hx as n sn Hn. injection Hx as <- _. now apply HP.
Qed.

Lemma keeps_findOutAll R `{!PreOrder R} d : keeps R (_findOutAll d).
Proof.
  unfold _findOutAll.
  apply keeps_bind; [exact _ | now apply keeps_notNull | intros root].
  apply keeps_bind; [exact _ | now apply keeps_childrenOf | intros top].
  apply keeps_foldM; [exact _|]. intros d0 h.
  apply keeps_bind; [exact _ | now apply keeps_getNode | intros n].
  destruct (String.eqb (nodeName n) "html"); [|now apply keeps_ret].
  apply keeps_bind; [exact _ | now apply keeps_notNull | intros cs].
  apply keeps_foldM; [exact _|]. intros d1 c.
  apply keeps_bind; [exact _ | now apply keeps_getNode | intros cn].
  destruct (String.eqb (nodeName cn) "head"); [now apply keeps_scan|].
  destruct (String.eqb (nodeName cn) "body"); [now apply keeps_scan | now apply keeps_ret].
Qed.

(** The scan reads the store and keeps the [#document] and the path of the
    document object. *)
Lemma _findOutAll_inv d s d1 s1 :
  _findOutAll d s = (Ok d1, s1) ->
  s1 = s /\ document d1 = document d /\ htmlTemplateFilePath d1 = htmlTemplateFilePath d /\
  exists root rn top,
    document d = Some root /\ nodes s !! root = Some rn /\ childNodes rn = Some top.
Proof.
  intros H. split.
  { pose proof (keeps_findOutAll eq d s) as Hk. rewrite H in Hk. now symmetry. }
  pose (P := fun d' : HTMLDocument =>
               document d' = document d /\ htmlTemplateFilePath d' = htmlTemplateFilePath d).
  assert (HP : forall d' r, P d' -> P (record_resource d' r)).
  { intros d' r [H1 H2]. destruct (record_resource_document d' r) as [E1 E2].
    split; congruence. }
  unfold _findOutAll in H.
  inv_bind H as root s0 H0. apply notNull_inv in H0 as [-> Hroot].
  inv_bind H as top s0 H0. apply childrenOf_inv in H0 as [-> (rn & Hrn & Htop)].
  assert (Hd1 : P d1).
  { eapply (foldM_preserves P); [|split; reflexivity|exact H].
    intros a h sa b sb Ha Hh. inv_bind Hh as n sn Hn.
    destruct (String.eqb (nodeName n) "html"); [|injection Hh as <- _; exact Ha].
    inv_bind Hh as cs sc Hc.
    eapply (foldM_preserves P); [|exact Ha|exact Hh].
    intros a' c sa' b' sb' Ha' Hc'. inv_bind Hc' as cn scn Hcn.
    destruct (String.eqb (nodeName cn) "head").
    { eapply (scan_document P); [exact HP| |exact Hc']. exact Ha'. }
    destruct (String.eqb (nodeName cn) "body").
    { eapply (scan_document P); [exact HP| |exact Hc']. exact Ha'. }
    injection Hc' as <- _. exact Ha'. }
  destruct Hd1 as [E1 E2]. split; [exact E1|]. split; [exact E2|].
  exists root, rn, top. auto.
Qed.

Lemma constructor_miss_inv E p s d s1 :
  HTMLDocumentCacheMap s !! cacheKey p = None ->
  constructor E p s = (Ok d, s1) ->
  exists text,
    let s0 := withNodes (nodes s ++ parse5_parse E text (length (nodes s))) s in
    match p with
    | Some q => readFileSync E (path_resolve E q) = Some text
    | None => text = DefaultHtmlTemplate
    end /\
    _findOutAll (mkDoc (Some (length (nodes s))) None None [] [] None None (path_resolve E <$> p))
                s0 = (Ok d, s0) /\
    clone d s0 = (Ok (cloneOf d), s0) /\
    s1 = mkState (nodes s0) (arrays s0)
                 (<[cacheKey (path_resolve E <$> p) := cloneOf d]> (HTMLDocumentCacheMap s)).
Proof.
  intros Hmiss H. unfold constructor in H.
  unfold getCache at 1 in H. unfold bind at 1 in H. rewrite Hmiss in H.
  inv_bind H as source s0 Hsrc.
  assert (Hsource : s0 = s /\ fst source = (path_resolve E <$> p) /\
                    match p with
                    | Some q => readFileSync E (path_resolve E q) = Some (snd source)
                    | None => snd source = DefaultHtmlTemplate
                    end).
  { destruct p as [q|]; simpl in Hsrc |- *.
    - destruct (readFileSync E (path_resolve E q)) as [text|]; [|discriminate].
      injection Hsrc as <- <-. auto.
    - injection Hsrc as <- <-. auto. }
  destruct Hsource as (-> & Hpath & Htext). clear Hsrc.
  exists (snd source). cbv zeta.
  inv_bind H as root sp Hparse. unfold parse in Hparse. injection Hparse as <- <-.
  fold (withNodes (nodes s ++ parse5_parse E (snd source) (length (nodes s))) s) in H.
  inv_bind H as this st Hscan. rewrite Hpath in Hscan.
  destruct (_findOutAll_inv _ _ _ _ Hscan) as (-> & _ & Hp1 & _).
  inv_bind H as proto sc Hclone.
  destruct (clone_inv _ _ _ _ Hclone) as (-> & -> & _).
  inv_bind H as u su Hset. unfold setCache in Hset. injection Hset as _ <-.
  injection H as <- <-.
  split; [exact Htext|]. split; [exact Hscan|]. split; [exact Hclone|].
  rewrite Hpath. reflexivity.
Qed.

(** X6: a template path that the cache holds is served from the cache.
    The constructor then reads no file and parses nothing, whatever the
    file system holds by now; it leaves the store as it was; and the
    document that it returns has the [#document], the [head], the [body]
    and the markers of the cached prototype, and the prototype's path --
    not the path it was called with. *)
Theorem constructor_from_cache E p s proto d s1 :
  HTMLDocumentCacheMap s !! cacheKey p = Some proto ->
  constructor E p s = (Ok d, s1) ->
  s1 = s /\
  (forall E', constructor E' p s = (Ok d, s)) /\
  document d = document proto /\ headNode d = headNode proto /\
  bodyNode d = bodyNode proto /\
  scriptInjectCommentNode d = scriptInjectCommentNode proto /\
  styleInjectCommentNode d = styleInjectCommentNode proto /\
  htmlTemplateFilePath d = htmlTemplateFilePath proto.
Proof.
  intros Hhit H.
  assert (Hc : forall E', constructor E' p s = clone proto s).
  { intros E'. unfold constructor. unfold getCache at 1. unfold bind at 1. now rewrite Hhit. }
  rewrite Hc in H. destruct (clone_inv _ _ _ _ H) as (-> & -> & _).
  split; [reflexivity|]. split; [intros E'; now rewrite Hc|].
  unfold cloneOf. simpl. auto 10.
Qed.

(** X7: the cache works for the default template and for a path that
    [path.resolve] leaves as it is.  When a first construction has had to
    parse and has returned, a second construction for the same path returns
    without reading or parsing, whatever the file system holds by now, and
    leaves the store as the first left it; its document has the
    [#document], the [head], the [body] and the markers of the first. *)
Theorem constructor_twice E p s d s1 :
  (forall q, p = Some q -> path_resolve E q = q) ->
  HTMLDocumentCacheMap s !! cacheKey p = None ->
  constructor E p s = (Ok d, s1) ->
  exists d2,
    (forall E', constructor E' p s1 = (Ok d2, s1)) /\
    document d2 = document d /\ headNode d2 = headNode d /\ bodyNode d2 = bodyNode d /\
    scriptInjectCommentNode d2 = scriptInjectCommentNode d /\
    styleInjectCommentNode d2 = styleInjectCommentNode d.
Proof.
  intros Habs Hmiss H.
  destruct (constructor_miss_inv _ _ _ _ _ Hmiss H) as (text & _ & _ & Hclone & ->).
  cbv zeta in Hclone.
  set (s0 := withNodes (nodes s ++ parse5_parse E text (length (nodes s))) s) in *.
  destruct (clone_inv _ _ _ _ Hclone)
    as (_ & _ & h & b & hn & bn & hcs & bcs & Hh & Hhn & Hhcs & Hb & Hbn & Hbcs).
  assert (Hkey : cacheKey (path_resolve E <$> p) = cacheKey p).
  { destruct p as [q|]; [|reflexivity]. simpl. now apply Habs. }
  exists (cloneOf (cloneOf d)). split; [|unfold cloneOf; simpl; auto 10].
  intros E'. unfold constructor. unfold getCache at 1. unfold bind at 1.
  cbn [HTMLDocumentCacheMap]. rewrite Hkey, lookup_insert_eq.
  now apply (clone_run (cloneOf d) _ h b hn bn hcs bcs).
Qed.

(** X8: the cache is asked for the path as given and filled under the
    resolved path, so for a path that [path.resolve] changes -- a relative
    path -- it never answers.  After a construction that has returned for
    such a path, the cache holds the prototype under the resolved path and
    still nothing under the path as given, and every later construction for
    that path that returns has built a tree of its own, its [#document] a
    node that did not exist before. *)
Theorem constructor_relative_path_misses E q s d s1 :
  path_resolve E q <> q ->
  HTMLDocumentCacheMap s !! q = None ->
  constructor E (Some q) s = (Ok d, s1) ->
  HTMLDocumentCacheMap s1 !! q = None /\
  (exists proto, HTMLDocumentCacheMap s1 !! path_resolve E q = Some proto /\
                 document proto = document d) /\
  forall E' d2 s2,
    constructor E' (Some q) s1 = (Ok d2, s2) ->
    document d2 = Some (length (nodes s1)) /\ document d2 <> document d /\
    length (nodes s1) < length (nodes s2).
Proof.
  intros Hrel Hmiss H.
  destruct (constructor_miss_inv _ (Some q) _ _ _ Hmiss H) as (text & _ & Hscan & _ & ->).
  cbv zeta in Hscan.
  set (s0 := withNodes (nodes s ++ parse5_parse E text (length (nodes s))) s) in *.
  destruct (_findOutAll_inv _ _ _ _ Hscan) as (_ & Hdoc & _ & root & rn & top & Hroot & Hrn & _).
  simpl in Hdoc, Hroot. injection Hroot as <-.
  assert (Hlt : length (nodes s) < length (nodes s0)) by (eapply lookup_lt_Some; eassumption).
  set (s1 := mkState _ _ _).
  assert (Hmiss1 : HTMLDocumentCacheMap s1 !! cacheKey (Some q) = None).
  { simpl. rewrite lookup_insert_ne by exact Hrel. exact Hmiss. }
  split; [exact Hmiss1|]. split.
  { exists (cloneOf d). simpl. rewrite lookup_insert_eq. auto. }
  intros E' d2 s2 H2.
  destruct (constructor_miss_inv _ (Some q) _ _ _ Hmiss1 H2) as (text2 & _ & Hscan2 & _ & ->).
  cbv zeta in Hscan2.
  destruct (_findOutAll_inv _ _ _ _ Hscan2)
    as (_ & Hdoc2 & _ & root2 & rn2 & top2 & Hroot2 & Hrn2 & _).
  simpl in Hdoc2, Hroot2. injection Hroot2 as <-.
  split; [exact Hdoc2|]. split.
  - rewrite Hdoc, Hdoc2. simpl. intros [= Heq]. simpl in Hlt. lia.
  - simpl. simpl in Hrn2. eapply lookup_lt_Some; eassumption.
Qed.

(** ** Serializing twice, compact mode *)

Lemma trimEnd_idem s : trimEnd (trimEnd s) = trimEnd s.
Proof.
  induction s as [|a s IH]; [reflexivity|].
  simpl. destruct (trimEnd s) as [|b t] eqn:E.
  - destruct (is_white a) eqn:Ha; [reflexivity|]. simpl. now rewrite Ha.
  - simpl in IH |- *. rewrite IH. reflexivity.
Qed.

Lemma trimStart_clean s : startsClean (trimStart s).
Proof.
  induction s as [|a s IH]; [exact I|].
  simpl. destruct (is_white a) eqn:Ha; [exact IH | exact Ha].
Qed.

Lemma trimStart_of_clean s : startsClean s -> trimStart s = s.
Proof. destruct s as [|a s]; [reflexivity|]. simpl. now intros ->. Qed.

Lemma trimEnd_clean s : startsClean s -> startsClean (trimEnd s).
Proof.
  destruct s as [|a s]; [intros _; exact I|].
  simpl. intros Ha. destruct (trimEnd s); [rewrite Ha|]; exact Ha.
Qed.

Lemma trim_idem s : trim (trim s) = trim s.
Proof.
  unfold trim.
  rewrite (trimStart_of_clean (trimEnd (trimStart s))).
  - apply trimEnd_idem.
  - apply trimEnd_clean, trimStart_clean.
Qed.

Lemma miniNode_idem n : miniNode (miniNode n) = miniNode n.
Proof.
  unfold miniNode.
  destruct (String.eqb (nodeName n) "#comment" && negb (startsWith "[if " (data n)))%bool eqn:E1.
  - now rewrite E1.
  - destruct (String.eqb (nodeName n) "#text") eqn:E2.
    + simpl. rewrite E1, E2. unfold set_value. simpl. now rewrite trim_idem.
    + now rewrite E1, E2.
Qed.

Lemma miniKeeps_miniNode (ns ns1 : list Node) c :
  ns1 !! c = miniNode <$> ns !! c -> miniKeeps ns c = true -> miniKeeps ns1 c = true.
Proof.
  unfold miniKeeps. intros ->. destruct (ns !! c) as [n|]; [|reflexivity]. simpl.
  unfold miniNode.
  destruct (String.eqb (nodeName n) "#comment" && negb (startsWith "[if " (data n)))%bool eqn:E1;
    [discriminate|].
  destruct (String.eqb (nodeName n) "#text") eqn:E2.
  - simpl. rewrite E1, E2, trim_idem. auto.
  - now rewrite E1, E2.
Qed.

Lemma filter_sublist {A} (f : A -> bool) (l : list A) : List.filter f l `sublist_of` l.
Proof.
  induction l as [|x l IH]; [reflexivity|].
  simpl. destruct (f x); [now apply sublist_skip | now apply sublist_cons].
Qed.

Lemma filter_all {A} (f : A -> bool) (l : list A) :
  (forall x, x ∈ l -> f x = true) -> List.filter f l = l.
Proof.
  induction l as [|x l IH]; intros H; [reflexivity|].
  simpl. rewrite H by (apply elem_of_cons; now left).
  rewrite IH; [reflexivity|]. intros y Hy. apply H, elem_of_cons. now right.
Qed.

Lemma elem_of_filter_keep {A} (f : A -> bool) (l : list A) x :
  x ∈ List.filter f l -> x ∈ l /\ f x = true.
Proof.
  intros H. apply list_elem_of_In, List.filter_In in H as [H1 H2].
  split; [now apply list_elem_of_In | exact H2].
Qed.

(** What [serialize] does in production mode to the store, in full. *)
Lemma serialize_mini_run ps G d s h b hn bn hcs bcs :
  _isProduction G = true ->
  headNode d = Some h -> bodyNode d = Some b ->
  nodes s !! h = Some hn -> childNodes hn = Some hcs ->
  nodes s !! b = Some bn -> childNodes bn = Some bcs ->
  NoDup (h :: b :: hcs ++ bcs) ->
  Forall (fun c => is_Some (nodes s !! c)) (hcs ++ bcs) ->
  exists s1,
    serialize ps G d s = (Ok (ps (nodes s1) (document d)), s1) /\
    nodes s1 !! h = Some (set_childNodes (List.filter (miniKeeps (nodes s)) hcs) hn) /\
    nodes s1 !! b = Some (set_childNodes (List.filter (miniKeeps (nodes s)) bcs) bn) /\
    (forall c, c ∈ hcs ++ bcs -> nodes s1 !! c = miniNode <$> nodes s !! c) /\
    (forall i, i ∉ h :: b :: hcs ++ bcs -> nodes s1 !! i = nodes s !! i) /\
    arrays s1 = arrays s /\ HTMLDocumentCacheMap s1 = HTMLDocumentCacheMap s.
Proof.
  intros HG Hh Hb Hhn Hhcs Hbn Hbcs Hnd Hres.
  apply NoDup_cons in Hnd as [Hh_out Hnd]. apply NoDup_cons in Hnd as [Hb_out Hnd].
  apply NoDup_app in Hnd as (Hndh & Hdisj & Hndb).
  apply not_elem_of_cons in Hh_out as [Hhb Hh_out].
  apply not_elem_of_app in Hh_out as [Hh_hcs Hh_bcs].
  apply not_elem_of_app in Hb_out as [Hb_hcs Hb_bcs].
  apply Forall_app in Hres as [Hresh Hresb].
  destruct (mini_run h s hn hcs Hhn Hhcs Hndh Hh_hcs Hresh)
    as (s1 & Hrun1 & Hh1 & Hin1 & Hoth1 & Ha1 & Hc1).
  assert (Hbn1 : nodes s1 !! b = Some bn) by (rewrite Hoth1; auto).
  assert (Hresb1 : Forall (fun c => is_Some (nodes s1 !! c)) bcs).
  { apply Forall_forall. intros c Hc. rewrite Hoth1.
    - eapply Forall_forall in Hresb; eassumption.
    - intros ->. contradiction.
    - intros Hc'. exact (Hdisj _ Hc' Hc). }
  destruct (mini_run b s1 bn bcs Hbn1 Hbcs Hndb Hb_bcs Hresb1)
    as (s2 & Hrun2 & Hb2 & Hin2 & Hoth2 & Ha2 & Hc2).
  exists s2. split; [|split; [|split; [|split; [|split; [|split; congruence]]]]].
  - unfold serialize. rewrite HG, Hh, Hb.
    unfold notNull at 1. unfold ret at 1. unfold bind at 1.
    rewrite (bind_run _ _ _ _ _ Hrun1).
    unfold notNull at 1. unfold ret at 1. unfold bind at 1.
    now rewrite (bind_run _ _ _ _ _ Hrun2).
  - rewrite Hoth2, Hh1 by auto. reflexivity.
  - rewrite Hb2. do 2 f_equal.
    apply List.filter_ext_in. intros c Hc. apply list_elem_of_In in Hc.
    apply miniKeeps_ext, Hoth1.
    + intros ->. contradiction.
    + intros Hc'. exact (Hdisj _ Hc' Hc).
  - intros c Hc. apply elem_of_app in Hc as [Hc|Hc].
    + rewrite Hoth2; [now apply Hin1| |].
      * intros ->. contradiction.
      * exact (Hdisj _ Hc).
    + rewrite (Hin2 _ Hc). f_equal. apply Hoth1.
      * intros ->. contradiction.
      * intros Hc'. exact (Hdisj _ Hc' Hc).
  - intros i Hi. apply not_elem_of_cons in Hi as [Hih Hi].
    apply not_elem_of_cons in Hi as [Hib Hi].
    apply not_elem_of_app in Hi as [Hi_h Hi_b].
    rewrite Hoth2 by assumption. now apply Hoth1.
Qed.

Lemma state_eq (s s1 : state) :
  nodes s1 = nodes s -> arrays s1 = arrays s ->
  HTMLDocumentCacheMap s1 = HTMLDocumentCacheMap s -> s1 = s.
Proof. destruct s, s1. simpl. now intros -> -> ->. Qed.

(** X9: in production mode a second [serialize] finds nothing left to do.
    On a document whose [head] and [body] have child arrays without
    repetition, the first call returns; a second call right after it
    returns the same string and leaves the store exactly as the first left
    it: what the first call has kept it keeps, and a text that is trimmed
    stays as it is. *)
Theorem serialize_compact_twice ps G d s h b hn bn hcs bcs :
  _isProduction G = true ->
  headNode d = Some h -> bodyNode d = Some b ->
  nodes s !! h = Some hn -> childNodes hn = Some hcs ->
  nodes s !! b = Some bn -> childNodes bn = Some bcs ->
  NoDup (h :: b :: hcs ++ bcs) ->
  Forall (fun c => is_Some (nodes s !! c)) (hcs ++ bcs) ->
  exists out s1,
    serialize ps G d s = (Ok out, s1) /\ serialize ps G d s1 = (Ok out, s1).
Proof.
  intros HG Hh Hb Hhn Hhcs Hbn Hbcs Hnd Hres.
  destruct (serialize_mini_run ps G d s h b hn bn hcs bcs HG Hh Hb Hhn Hhcs Hbn Hbcs Hnd Hres)
    as (s1 & Hrun1 & Hh1 & Hb1 & Hin1 & Hoth1 & Ha1 & Hc1).
  set (K := miniKeeps (nodes s)) in *.
  set (hcs1 := List.filter K hcs) in *. set (bcs1 := List.filter K bcs) in *.
  assert (Hsub : (h :: b :: hcs1 ++ bcs1) `sublist_of` (h :: b :: hcs ++ bcs)).
  { do 2 apply sublist_skip. apply sublist_app; apply filter_sublist. }
  assert (Hnd1 : NoDup (h :: b :: hcs1 ++ bcs1)) by (eapply sublist_NoDup; eassumption).
  assert (Hkept : forall c, c ∈ hcs1 ++ bcs1 -> c ∈ hcs ++ bcs /\ K c = true).
  { intros c Hc. apply elem_of_app in Hc as [Hc|Hc];
      apply elem_of_filter_keep in Hc as [Hc HK]; (split; [|exact HK]);
      apply elem_of_app; [now left | now right]. }
  assert (Hres1 : Forall (fun c => is_Some (nodes s1 !! c)) (hcs1 ++ bcs1)).
  { apply Forall_forall. intros c Hc. destruct (Hkept c Hc) as [Hc0 _].
    rewrite (Hin1 c Hc0). eapply Forall_forall in Hres; [|exact Hc0].
    destruct Hres as [n ->]. now eexists. }
  destruct (serialize_mini_run ps G d s1 h b _ _ hcs1 bcs1 HG Hh Hb Hh1 eq_refl Hb1 eq_refl
              Hnd1 Hres1)
    as (s2 & Hrun2 & Hh2 & Hb2 & Hin2 & Hoth2 & Ha2 & Hc2).
  assert (Hstay : forall cs0, (forall c, c ∈ cs0 -> c ∈ hcs1 ++ bcs1) ->
                              List.filter (miniKeeps (nodes s1)) cs0 = cs0).
  { intros cs0 Hcs0. apply filter_all. intros c Hc. destruct (Hkept c (Hcs0 c Hc)) as [Hc0 HK].
    eapply miniKeeps_miniNode; [apply Hin1; exact Hc0 | exact HK]. }
  rewrite Hstay in Hh2 by (intros c Hc; apply elem_of_app; now left).
  rewrite Hstay in Hb2 by (intros c Hc; apply elem_of_app; now right).
  assert (Hsame : s2 = s1).
  { apply state_eq; [|assumption|assumption].
    apply list_eq. intros i.
    destruct (decide (i = h)) as [->|Hih]; [now rewrite Hh2, Hh1|].
    destruct (decide (i = b)) as [->|Hib]; [now rewrite Hb2, Hb1|].
    destruct (decide (i ∈ hcs1 ++ bcs1)) as [Hi|Hi].
    - rewrite (Hin2 i Hi). destruct (Hkept i Hi) as [Hi0 _].
      rewrite (Hin1 i Hi0). destruct (nodes s !! i) as [n|]; [|reflexivity].
      simpl. now rewrite miniNode_idem.
    - apply Hoth2. intros Hin. apply elem_of_cons in Hin as [->|Hin]; [congruence|].
      apply elem_of_cons in Hin as [->|Hin]; [congruence|contradiction]. }
  subst s2. eexists _, s1. split; [exact Hrun1 | exact Hrun2].
Qed.

(** ** Pretty serialization *)

Lemma isNamed_ext (ns ns1 : list Node) name c :
  ns1 !! c = ns !! c -> isNamed ns1 name c = isNamed ns name c.
Proof. unfold isNamed. now intros ->. Qed.

Lemma breaksLine_ext (ns ns1 : list Node) c :
  ns1 !! c = ns !! c -> breaksLine ns1 c = breaksLine ns c.
Proof. unfold breaksLine. now intros ->. Qed.

Lemma prettyRev_ext (ns ns1 : list Node) rs :
  (forall c, c ∈ rs -> ns1 !! c = ns !! c) ->
  forall f, prettyRev ns1 f rs = prettyRev ns f rs.
Proof.
  induction rs as [|c rs IH]; intros H f; [reflexivity|].
  assert (Hc : ns1 !! c = ns !! c) by (apply H, elem_of_cons; now left).
  assert (Hrs : forall x, x ∈ rs -> ns1 !! x = ns !! x)
    by (intros x Hx; apply H, elem_of_cons; now right).
  simpl. rewrite (isNamed_ext _ _ _ _ Hc), !(IH Hrs).
  destruct rs as [|pre rs']; [reflexivity|].
  rewrite (breaksLine_ext ns ns1 pre) by (apply Hrs, elem_of_cons; now left).
  reflexivity.
Qed.

Lemma prettyNew_ext (ns ns1 : list Node) rs :
  (forall c, c ∈ rs -> ns1 !! c = ns !! c) -> prettyNew ns1 rs = prettyNew ns rs.
Proof.
  induction rs as [|c rs IH]; intros H; [reflexivity|].
  assert (Hc : ns1 !! c = ns !! c) by (apply H, elem_of_cons; now left).
  assert (Hrs : forall x, x ∈ rs -> ns1 !! x = ns !! x)
    by (intros x Hx; apply H, elem_of_cons; now right).
  simpl. rewrite (isNamed_ext _ _ _ _ Hc), (IH Hrs).
  destruct rs as [|pre rs']; [reflexivity|].
  rewrite (breaksLine_ext ns ns1 pre) by (apply Hrs, elem_of_cons; now left).
  reflexivity.
Qed.

Lemma snoc_case {A} (l : list A) : l = [] \/ exists l0 x, l = l0 ++ [x].
Proof. induction l as [|x l0 _] using rev_ind; eauto. Qed.

(** One round of the loop of [pretty], at the last index [length front] of
    the part [front ++ [c]] that is still to visit. *)
Lemma pretty_round p c front back s pn n :
  nodes s !! p = Some pn -> childNodes pn = Some (front ++ c :: back) ->
  nodes s !! c = Some n -> c ∉ front ->
  Forall (fun x => is_Some (nodes s !! x)) front ->
  (String.eqb (nodeName n) "#text" = false -> parentNode n = Some p) ->
  pretty_loop p (S (length front)) s =
    if String.eqb (nodeName n) "#text" then pretty_loop p (length front) s
    else if match reverse front with
            | preNode :: _ => breaksLine (nodes s) preNode
            | [] => false
            end
    then (Ok tt, s)
    else pretty_loop p (length front)
           (withNodes (<[p := set_childNodes (front ++ length (nodes s) :: c :: back) pn]>
                         (nodes s ++ [lineBreak p])) s).
Proof.
  intros Hp Hcs Hc Hout Hres Hpar.
  simpl pretty_loop.
  rewrite (bind_run _ _ _ _ _ (childrenOf_run _ _ _ _ Hp Hcs)).
  rewrite list_lookup_middle by reflexivity.
  unfold notNull at 1. unfold ret at 1. unfold bind at 1.
  rewrite (bind_run _ _ _ _ _ (getNode_run _ _ _ Hc)).
  destruct (String.eqb (nodeName n) "#text") eqn:Et; cbn [negb]; [reflexivity|].
  specialize (Hpar eq_refl).
  assert (Hlt : p < length (nodes s)) by (eapply lookup_lt_Some; eassumption).
  assert (Hgo : (t <- newNode (mkNode "#text" EmptyString [] EmptyString newline
                                     (parentNode n) None) ;;
                 util.replaceNodesWithNodes [c] [t; c] ;;; pretty_loop p (length front)) s
                = pretty_loop p (length front)
                    (withNodes (<[p := set_childNodes (front ++ length (nodes s) :: c :: back) pn]>
                                  (nodes s ++ [lineBreak p])) s)).
  { unfold newNode at 1. unfold bind at 1. rewrite Hpar. fold (lineBreak p).
    erewrite bind_run; [reflexivity|].
    erewrite replaceNodesWithNodes_run;
      [| simpl; apply lookup_app_l_Some; exact Hc | exact Hpar
       | simpl; apply lookup_app_l_Some; exact Hp | exact Hcs].
    rewrite injectedChildren_at by exact Hout. reflexivity. }
  destruct (snoc_case front) as [->|(front0 & pre & ->)].
  - simpl. unfold ret at 1. unfold bind at 1. exact Hgo.
  - rewrite reverse_snoc.
    apply Forall_app in Hres as [_ Hpre]. apply Forall_singleton in Hpre as [pn0 Hpre].
    revert Hgo. rewrite length_app, Nat.add_1_r. intros Hgo.
    rewrite <- app_assoc. cbn [app].
    rewrite list_lookup_middle by reflexivity.
    rewrite bind_assoc, (bind_run _ _ _ _ _ (getNode_run _ _ _ Hpre)).
    unfold ret at 1. unfold bind at 1.
    unfold breaksLine. rewrite Hpre.
    destruct (String.eqb (nodeName pn0) "#text" && includes_char (ascii_of_nat 10) (value pn0))%bool;
      [reflexivity|].
    exact Hgo.
Qed.

(** The store that [pretty] leaves when the node [p], which is [pn], has the
    child array [cs]. *)
Lemma pretty_loop_spec p front :
  forall back s pn,
    nodes s !! p = Some pn -> childNodes pn = Some (front ++ back) ->
    NoDup front -> p ∉ front -> Forall (childOf (nodes s) p) front ->
    pretty_loop p (length front) s =
      (Ok tt,
       withNodes (<[p := set_childNodes
                           (reverse (prettyRev (nodes s) (length (nodes s)) (reverse front))
                            ++ back) pn]>
                    (nodes s ++ replicate (prettyNew (nodes s) (reverse front)) (lineBreak p))) s).
Proof.
  induction front as [|c front IH] using rev_ind; intros back s pn Hp Hcs Hnd Hpf Hch.
  - simpl. unfold ret, withNodes. rewrite app_nil_r.
    simpl in Hcs. rewrite (set_childNodes_same _ _ Hcs), (list_insert_id _ _ _ Hp).
    now destruct s.
  - apply NoDup_app in Hnd as (Hnd & Hdisj & _).
    assert (Hcf : c ∉ front).
    { intros Hin. apply (Hdisj _ Hin). apply list_elem_of_singleton. reflexivity. }
    apply not_elem_of_app in Hpf as [Hpf Hpc].
    assert (Hne : c <> p) by (intros ->; apply Hpc, list_elem_of_singleton; reflexivity).
    apply Forall_app in Hch as [Hch Hc]. apply Forall_singleton in Hc as (n & Hc & Hpar).
    assert (Hres : Forall (fun x => is_Some (nodes s !! x)) front).
    { eapply Forall_impl; [exact Hch|]. intros x (nx & Hx & _). now exists nx. }
    rewrite <- app_assoc in Hcs. simpl in Hcs.
    rewrite length_app, Nat.add_1_r.
    rewrite (pretty_round p c front back s pn n Hp Hcs Hc Hcf Hres Hpar).
    rewrite reverse_snoc. simpl prettyRev. simpl prettyNew.
    assert (Hname : isNamed (nodes s) "#text" c = String.eqb (nodeName n) "#text")
      by (unfold isNamed; now rewrite Hc).
    rewrite !Hname.
    assert (Hlt : p < length (nodes s)) by (eapply lookup_lt_Some; eassumption).
    destruct (String.eqb (nodeName n) "#text").
    + rewrite (IH (c :: back) s pn Hp Hcs Hnd Hpf Hch).
      rewrite reverse_cons, <- app_assoc. reflexivity.
    + destruct (match reverse front with
                | preNode :: _ => breaksLine (nodes s) preNode
                | [] => false
                end).
      * rewrite reverse_cons, reverse_involutive, <- app_assoc. simpl.
        unfold withNodes. rewrite app_nil_r.
        rewrite (set_childNodes_same _ _ Hcs), (list_insert_id _ _ _ Hp). now destruct s.
      * set (s2 := withNodes (<[p := set_childNodes (front ++ length (nodes s) :: c :: back) pn]>
                                (nodes s ++ [lineBreak p])) s).
        assert (Hp2 : nodes s2 !! p
                      = Some (set_childNodes (front ++ length (nodes s) :: c :: back) pn)).
        { simpl. apply list_lookup_insert_eq. rewrite length_app. lia. }
        assert (Hsame : forall x, x ∈ front -> nodes s2 !! x = nodes s !! x).
        { intros x Hx. simpl. rewrite list_lookup_insert_ne by (intros <-; contradiction).
          eapply Forall_forall in Hres; [|exact Hx]. destruct Hres as [nx Hnx].
          rewrite Hnx. now apply lookup_app_l_Some. }
        assert (Hch2 : Forall (childOf (nodes s2) p) front).
        { apply Forall_forall. intros x Hx. unfold childOf. rewrite (Hsame x Hx).
          eapply Forall_forall in Hch; eassumption. }
        rewrite (IH (length (nodes s) :: c :: back) s2 _ Hp2 eq_refl Hnd Hpf Hch2).
        assert (Hrev : forall x, x ∈ reverse front -> nodes s2 !! x = nodes s !! x).
        { intros x Hx. apply Hsame. now apply elem_of_reverse. }
        rewrite (prettyRev_ext _ _ _ Hrev), (prettyNew_ext _ _ _ Hrev).
        f_equal. unfold withNodes, s2. simpl.
        rewrite length_insert, length_app, Nat.add_1_r. simpl length.
        rewrite insert_app_l by (rewrite length_insert, length_app; lia).
        rewrite list_insert_insert_eq, set_childNodes_twice.
        rewrite <- insert_app_l by (rewrite length_app; lia).
        rewrite <- app_assoc. simpl app.
        rewrite !reverse_cons, <- !app_assoc. reflexivity.
Qed.

Lemma pretty_run p s pn cs :
  nodes s !! p = Some pn -> childNodes pn = Some cs ->
  NoDup cs -> p ∉ cs -> Forall (childOf (nodes s) p) cs ->
  pretty p s =
    (Ok tt,
     withNodes (<[p := set_childNodes
                         (reverse (prettyRev (nodes s) (length (nodes s)) (reverse cs))) pn]>
                  (nodes s ++ replicate (prettyNew (nodes s) (reverse cs)) (lineBreak p))) s).
Proof.
  intros Hp Hcs Hnd Hpc Hch.
  assert (Hcs' : childNodes pn = Some (cs ++ [])) by now rewrite app_nil_r.
  unfold pretty. rewrite (bind_run _ _ _ _ _ (childrenOf_run _ _ _ _ Hp Hcs)).
  rewrite (pretty_loop_spec p cs [] s pn Hp Hcs' Hnd Hpc Hch). now rewrite app_nil_r.
Qed.

(** X10: what [pretty] does to the child array of a node whose children
    are distinct and name it as their parent.  It returns; it removes and
    reorders nothing; working from the last child to the first it passes
    over the text nodes and puts a new text node holding one line feed
    before every other child, until it meets such a child that stands
    behind a text node with a line feed in it: there it stops, and the
    children before that one get no line break.  The new nodes are the only
    ones created, and no other node is written to. *)
Theorem pretty_puts_line_breaks p s pn cs :
  nodes s !! p = Some pn -> childNodes pn = Some cs ->
  NoDup cs -> p ∉ cs -> Forall (childOf (nodes s) p) cs ->
  exists s1,
    pretty p s = (Ok tt, s1) /\
    childrenIn s1 (Some p)
    = Some (reverse (prettyRev (nodes s) (length (nodes s)) (reverse cs))) /\
    length (nodes s1) = length (nodes s) + prettyNew (nodes s) (reverse cs) /\
    (forall i, length (nodes s) <= i < length (nodes s1) ->
               nodes s1 !! i = Some (lineBreak p)) /\
    (forall i, i < length (nodes s) -> i <> p -> nodes s1 !! i = nodes s !! i) /\
    arrays s1 = arrays s /\ HTMLDocumentCacheMap s1 = HTMLDocumentCacheMap s.
Proof.
  intros Hp Hcs Hnd Hpc Hch. eexists. split; [now apply (pretty_run p s pn cs)|].
  assert (Hlt : p < length (nodes s)) by (eapply lookup_lt_Some; eassumption).
  unfold childrenIn. simpl.
  split; [rewrite list_lookup_insert_eq by (rewrite length_app; lia); reflexivity|].
  split; [now rewrite length_insert, length_app, length_replicate|].
  split; [|split; [|split; reflexivity]].
  - intros i. rewrite length_insert, length_app, length_replicate. intros Hi.
    rewrite list_lookup_insert_ne by lia. rewrite lookup_app_r by lia.
    apply lookup_replicate_2. lia.
  - intros i Hi Hne. rewrite list_lookup_insert_ne by congruence. now apply lookup_app_l.
Qed.

(** ** Serializing twice, pretty mode *)

Lemma lineBreak_breaksLine ns j p : ns !! j = Some (lineBreak p) -> breaksLine ns j = true.
Proof. unfold breaksLine. now intros ->. Qed.

Lemma lineBreak_childOf ns j p : ns !! j = Some (lineBreak p) -> childOf ns p j.
Proof. intros H. exists (lineBreak p). split; [exact H|]. discriminate. Qed.

(** What [pretty] has made of a child array it leaves alone: on a store
    that holds the old nodes as they were and the new text nodes, it stops
    at the first node that is no text node. *)
Lemma prettyRev_settled ns ns1 p rs :
  forall f f1,
    (forall c, c ∈ rs -> ns1 !! c = ns !! c) ->
    (forall j, f <= j < f + prettyNew ns rs -> ns1 !! j = Some (lineBreak p)) ->
    prettyRev ns1 f1 (prettyRev ns f rs) = prettyRev ns f rs /\
    prettyNew ns1 (prettyRev ns f rs) = 0.
Proof.
  induction rs as [|c rs IH]; intros f f1 H1 H2; [split; reflexivity|].
  assert (Hc : ns1 !! c = ns !! c) by (apply H1, elem_of_cons; now left).
  assert (Hrs : forall x, x ∈ rs -> ns1 !! x = ns !! x)
    by (intros x Hx; apply H1, elem_of_cons; now right).
  simpl in H2 |- *.
  destruct (isNamed ns "#text" c) eqn:Hname.
  - simpl. rewrite (isNamed_ext _ _ _ _ Hc), Hname.
    destruct (IH f f1 Hrs H2) as [-> ->]. split; reflexivity.
  - destruct (match rs with
              | preNode :: _ => breaksLine ns preNode
              | [] => false
              end) eqn:Hstop.
    + destruct rs as [|pre rs']; [discriminate|].
      simpl. rewrite (isNamed_ext _ _ _ _ Hc), Hname.
      rewrite (breaksLine_ext ns ns1 pre) by (apply Hrs, elem_of_cons; now left).
      rewrite Hstop. split; reflexivity.
    + simpl. rewrite (isNamed_ext _ _ _ _ Hc), Hname.
      rewrite (lineBreak_breaksLine ns1 f p) by (apply H2; lia).
      split; reflexivity.
Qed.

Lemma prettyRev_elems ns rs :
  forall f x, x ∈ prettyRev ns f rs -> x ∈ rs \/ f <= x < f + prettyNew ns rs.
Proof.
  induction rs as [|c rs IH]; intros f x Hx; [now left|].
  simpl in Hx |- *. destruct (isNamed ns "#text" c).
  - apply elem_of_cons in Hx as [->|Hx]; [left; apply elem_of_cons; now left|].
    destruct (IH _ _ Hx) as [H|H]; [left; apply elem_of_cons; now right | now right].
  - destruct (match rs with
              | preNode :: _ => breaksLine ns preNode
              | [] => false
              end); [now left|].
    apply elem_of_cons in Hx as [->|Hx]; [left; apply elem_of_cons; now left|].
    apply elem_of_cons in Hx as [->|Hx]; [right; lia|].
    destruct (IH _ _ Hx) as [H|H]; [left; apply elem_of_cons; now right | right; lia].
Qed.

Lemma prettyRev_NoDup ns rs :
  forall f, NoDup rs -> (forall c, c ∈ rs -> c < f) -> NoDup (prettyRev ns f rs).
Proof.
  induction rs as [|c rs IH]; intros f Hnd Hlt; [constructor|].
  pose proof Hnd as Hnd0.
  apply NoDup_cons in Hnd as [Hc Hnd].
  assert (Hcf : c < f) by (apply Hlt, elem_of_cons; now left).
  assert (Hrs : forall x, x ∈ rs -> x < f) by (intros x Hx; apply Hlt, elem_of_cons; now right).
  simpl. destruct (isNamed ns "#text" c).
  - apply NoDup_cons. split; [|now apply IH].
    intros Hin. destruct (prettyRev_elems _ _ _ _ Hin) as [H|H]; [contradiction|lia].
  - destruct (match rs with
              | preNode :: _ => breaksLine ns preNode
              | [] => false
              end); [exact Hnd0|].
    assert (Hrs' : forall x, x ∈ rs -> x < S f) by (intros x Hx; specialize (Hrs x Hx); lia).
    apply NoDup_cons. split; [|apply NoDup_cons; split; [|now apply IH]].
    + intros Hin. apply elem_of_cons in Hin as [->|Hin]; [lia|].
      destruct (prettyRev_elems _ _ _ _ Hin) as [H|H]; [contradiction|lia].
    + intros Hin. destruct (prettyRev_elems _ _ _ _ Hin) as [H|H]; [|lia].
      specialize (Hrs _ H). lia.
Qed.

Lemma NoDup_reversed {A} (l : list A) : NoDup l -> NoDup (reverse l).
Proof. now rewrite reverse_Permutation. Qed.

(** [pretty] on the array that an earlier [pretty] has left changes
    nothing. *)
Lemma pretty_again p ns f cs s1 pn1 :
  NoDup cs -> p ∉ cs -> (forall c, c ∈ cs -> c < f) -> p < f ->
  Forall (childOf ns p) cs ->
  nodes s1 !! p = Some pn1 ->
  childNodes pn1 = Some (reverse (prettyRev ns f (reverse cs))) ->
  (forall c, c ∈ cs -> nodes s1 !! c = ns !! c) ->
  (forall j, f <= j < f + prettyNew ns (reverse cs) -> nodes s1 !! j = Some (lineBreak p)) ->
  pretty p s1 = (Ok tt, s1).
Proof.
  intros Hnd Hpc Hlt Hpf Hch Hp Hcs Hold Hnew.
  assert (Hrev : forall c, c ∈ reverse cs -> nodes s1 !! c = ns !! c)
    by (intros c Hc; apply Hold; now apply elem_of_reverse).
  assert (Helem : forall x, x ∈ reverse (prettyRev ns f (reverse cs)) ->
                            x ∈ cs \/ f <= x < f + prettyNew ns (reverse cs)).
  { intros x Hx. apply (proj1 (elem_of_reverse _ _)) in Hx.
    destruct (prettyRev_elems _ _ _ _ Hx) as [H|H]; [left; now apply elem_of_reverse | now right]. }
  rewrite (pretty_run p s1 pn1 _ Hp Hcs).
  - rewrite reverse_involutive.
    destruct (prettyRev_settled ns (nodes s1) p (reverse cs) f (length (nodes s1)) Hrev Hnew)
      as [-> ->].
    unfold withNodes. simpl. rewrite app_nil_r.
    rewrite (set_childNodes_same _ _ Hcs), (list_insert_id _ _ _ Hp). now destruct s1.
  - apply NoDup_reversed, prettyRev_NoDup; [now apply NoDup_reversed|].
    intros c Hc. apply Hlt. now apply elem_of_reverse.
  - intros Hin. destruct (Helem _ Hin) as [H|H]; [contradiction|lia].
  - apply Forall_forall. intros x Hx. destruct (Helem _ Hx) as [H|H].
    + unfold childOf. rewrite (Hold x H). eapply Forall_forall in Hch; eassumption.
    + apply lineBreak_childOf. now apply Hnew.
Qed.

(** X11: in development mode a second [serialize] finds nothing left to
    do.  On a document whose [head] and [body] have child arrays without
    repetition, the children naming them as their parents, the first call
    returns; a second call right after it returns the same string, creates
    no node and leaves the store exactly as the first left it: the last
    child that is no text node now stands behind a line break, and that is
    where the loop stops. *)
Theorem serialize_pretty_twice ps G d s h b hn bn hcs bcs :
  _isProduction G = false ->
  headNode d = Some h -> bodyNode d = Some b ->
  nodes s !! h = Some hn -> childNodes hn = Some hcs ->
  nodes s !! b = Some bn -> childNodes bn = Some bcs ->
  NoDup (h :: b :: hcs ++ bcs) ->
  Forall (childOf (nodes s) h) hcs -> Forall (childOf (nodes s) b) bcs ->
  exists out s1,
    serialize ps G d s = (Ok out, s1) /\ serialize ps G d s1 = (Ok out, s1).
Proof.
  intros HG Hh Hb Hhn Hhcs Hbn Hbcs Hnd Hchh Hchb.
  apply NoDup_cons in Hnd as [Hh_out Hnd]. apply NoDup_cons in Hnd as [Hb_out Hnd].
  apply NoDup_app in Hnd as (Hndh & Hdisj & Hndb).
  apply not_elem_of_cons in Hh_out as [Hhb Hh_out].
  apply not_elem_of_app in Hh_out as [Hh_hcs Hh_bcs].
  apply not_elem_of_app in Hb_out as [Hb_hcs Hb_bcs].
  set (ns := nodes s) in *. set (f := length ns).
  assert (Hhf : h < f) by (eapply lookup_lt_Some; eassumption).
  assert (Hbf : b < f) by (eapply lookup_lt_Some; eassumption).
  assert (Hhcsf : forall c, c ∈ hcs -> c < f).
  { intros c Hc. eapply Forall_forall in Hchh; [|exact Hc].
    destruct Hchh as (n & Hn & _). eapply lookup_lt_Some; eassumption. }
  assert (Hbcsf : forall c, c ∈ bcs -> c < f).
  { intros c Hc. eapply Forall_forall in Hchb; [|exact Hc].
    destruct Hchb as (n & Hn & _). eapply lookup_lt_Some; eassumption. }
  pose proof (pretty_run h s hn hcs Hhn Hhcs Hndh Hh_hcs Hchh) as Hrun1.
  fold ns f in Hrun1.
  set (L1 := reverse (prettyRev ns f (reverse hcs))) in *.
  set (k1 := prettyNew ns (reverse hcs)) in *.
  set (s1 := withNodes (<[h := set_childNodes L1 hn]> (ns ++ replicate k1 (lineBreak h))) s) in *.
  assert (Hlen1 : length (nodes s1) = f + k1).
  { simpl. now rewrite length_insert, length_app, length_replicate. }
  assert (Hold1 : forall x, x < f -> x <> h -> nodes s1 !! x = ns !! x).
  { intros x Hx Hne. simpl. rewrite list_lookup_insert_ne by congruence. now apply lookup_app_l. }
  assert (Hh1 : nodes s1 !! h = Some (set_childNodes L1 hn)).
  { simpl. apply list_lookup_insert_eq. rewrite length_app. fold f. lia. }
  assert (Hnew1 : forall j, f <= j < f + k1 -> nodes s1 !! j = Some (lineBreak h)).
  { intros j Hj. simpl. rewrite list_lookup_insert_ne by lia.
    rewrite lookup_app_r by (fold f; lia). apply lookup_replicate_2. fold f. lia. }
  assert (Hbn1 : nodes s1 !! b = Some bn) by (rewrite Hold1 by congruence; exact Hbn).
  assert (Hchb1 : Forall (childOf (nodes s1) b) bcs).
  { apply Forall_forall. intros c Hc. unfold childOf. rewrite Hold1.
    - eapply Forall_forall in Hchb; eassumption.
    - now apply Hbcsf.
    - intros ->. contradiction. }
  pose proof (pretty_run b s1 bn bcs Hbn1 Hbcs Hndb Hb_bcs Hchb1) as Hrun2.
  set (L2 := reverse (prettyRev (nodes s1) (length (nodes s1)) (reverse bcs))) in *.
  set (k2 := prettyNew (nodes s1) (reverse bcs)) in *.
  set (s2 := withNodes (<[b := set_childNodes L2 bn]> (nodes s1 ++ replicate k2 (lineBreak b))) s1)
    in *.
  assert (Hn2 : nodes s2
                = <[b := set_childNodes L2 bn]> (nodes s1 ++ replicate k2 (lineBreak b)))
    by reflexivity.
  assert (Hold2 : forall x, x < length (nodes s1) -> x <> b -> nodes s2 !! x = nodes s1 !! x).
  { intros x Hx Hne. rewrite Hn2, list_lookup_insert_ne by congruence. now apply lookup_app_l. }
  assert (Hb2 : nodes s2 !! b = Some (set_childNodes L2 bn)).
  { rewrite Hn2. apply list_lookup_insert_eq. rewrite length_app. lia. }
  assert (Hnew2 : forall j, length (nodes s1) <= j < length (nodes s1) + k2 ->
                            nodes s2 !! j = Some (lineBreak b)).
  { intros j Hj. rewrite Hn2, list_lookup_insert_ne by lia.
    rewrite lookup_app_r by lia. apply lookup_replicate_2. lia. }
  assert (Hagain1 : pretty h s2 = (Ok tt, s2)).
  { apply (pretty_again h ns f hcs s2 (set_childNodes L1 hn)); try assumption.
    - rewrite Hold2 by lia. exact Hh1.
    - reflexivity.
    - intros c Hc. specialize (Hhcsf c Hc).
      rewrite Hold2 by (try lia; intros ->; contradiction).
      apply Hold1; [exact Hhcsf | intros ->; contradiction].
    - intros j Hj. rewrite Hold2 by lia. now apply Hnew1. }
  assert (Hagain2 : pretty b s2 = (Ok tt, s2)).
  { apply (pretty_again b (nodes s1) (length (nodes s1)) bcs s2 (set_childNodes L2 bn));
      try assumption.
    - intros c Hc. specialize (Hbcsf c Hc). lia.
    - lia.
    - reflexivity.
    - intros c Hc. specialize (Hbcsf c Hc).
      apply Hold2; [lia | intros ->; contradiction]. }
  assert (Hser : forall s0, pretty h s0 = (Ok tt, s2) ->
                            serialize ps G d s0 = (Ok (ps (nodes s2) (document d)), s2)).
  { intros s0 H0. unfold serialize. rewrite HG, Hh, Hb.
    unfold notNull at 1. unfold ret at 1. unfold bind at 1.
    rewrite (bind_run _ _ _ _ _ H0).
    unfold notNull at 1. unfold ret at 1. unfold bind at 1.
    now rewrite (bind_run _ _ _ _ _ Hagain2). }
  exists (ps (nodes s2) (document d)), s2. split; [|now apply Hser].
  unfold serialize. rewrite HG, Hh, Hb.
  unfold notNull at 1. unfold ret at 1. unfold bind at 1.
  rewrite (bind_run _ _ _ _ _ Hrun1).
  unfold notNull at 1. unfold ret at 1. unfold bind at 1.
  now rewrite (bind_run _ _ _ _ _ Hrun2).
Qed.

(** * Properties of the utilities *)

(** ** The two tests on the plugins of the compiler *)

Lemma definesProduction_true q :
  util.definesProduction q = Ok true <-> exists p, q = Some p /\ definesProductionPlugin p.
Proof.
  unfold util.definesProduction, definesProductionPlugin. split.
  - destruct q as [p|]; [|discriminate].
    destruct (util.proto_constructor p) as [c|] eqn:Hpc; [|discriminate].
    case_bool_decide as Hc; [|discriminate]. subst c.
    destruct (util.definitions p) as [defs|] eqn:Hd; [|discriminate].
    intros [= H]. apply bool_decide_eq_true_1 in H. eauto 10.
  - intros (p & -> & Hc & defs & Hd & Hv). rewrite Hc, Hd.
    rewrite bool_decide_eq_true_2 by reflexivity.
    now rewrite bool_decide_eq_true_2 by exact Hv.
Qed.

Lemma isProduction_loop_true ps :
  util.isProduction_loop ps = true <-> exists p, Some p ∈ ps /\ definesProductionPlugin p.
Proof.
  induction ps as [|q ps IH].
  - simpl. split; [discriminate|]. intros (p & Hp & _). now apply elem_of_nil in Hp.
  - simpl. destruct (util.definesProduction q) as [[|]|e] eqn:E.
    + split; [|reflexivity]. intros _.
      apply definesProduction_true in E as (p & -> & Hp).
      exists p. split; [apply elem_of_cons; now left | exact Hp].
    + rewrite IH. split.
      * intros (p & Hin & Hp). exists p. split; [apply elem_of_cons; now right | exact Hp].
      * intros (p & Hin & Hp). apply elem_of_cons in Hin as [<-|Hin]; [|eauto].
        assert (util.definesProduction (Some p) = Ok true)
          by (apply definesProduction_true; eauto).
        congruence.
    + rewrite IH. split.
      * intros (p & Hin & Hp). exists p. split; [apply elem_of_cons; now right | exact Hp].
      * intros (p & Hin & Hp). apply elem_of_cons in Hin as [<-|Hin]; [|eauto].
        assert (util.definesProduction (Some p) = Ok true)
          by (apply definesProduction_true; eauto).
        congruence.
Qed.

(** X12: [isProduction] answers [true] exactly when [NODE_ENV] is
    [production] or some plugin, wherever it stands in the list, is a
    [DefinePlugin] that defines [process.env.NODE_ENV] as ["production"]
    with its quotes: a plugin that cannot be inspected -- [null], without
    prototype, a [DefinePlugin] without definitions -- is passed over and
    hides nothing behind it.  The one way to make it throw is a compiler
    without [plugins] when [NODE_ENV] is not [production]. *)
Theorem isProduction_spec c :
  (util.isProduction c = Ok true <->
   util.NODE_ENV c = Some "production" \/
   exists ps p, util.plugins c = Some ps /\ Some p ∈ ps /\ definesProductionPlugin p) /\
  ((exists e, util.isProduction c = Throw e) <->
   util.NODE_ENV c <> Some "production" /\ util.plugins c = None).
Proof.
  unfold util.isProduction. case_bool_decide as Henv.
  - split; split.
    + auto.
    + reflexivity.
    + intros [e He]. discriminate.
    + intros [Hne _]. contradiction.
  - destruct (util.plugins c) as [ps|] eqn:Hps.
    + split; split.
      * intros [= H]. right. apply isProduction_loop_true in H as (p & Hin & Hp). eauto.
      * intros [H|(ps' & p & [= <-] & Hin & Hp)]; [contradiction|].
        f_equal. apply isProduction_loop_true. eauto.
      * intros [e He]. discriminate.
      * intros [_ H]. discriminate.
    + split; split.
      * discriminate.
      * intros [H|(ps' & p & H & _)]; [contradiction|discriminate].
      * auto.
      * intros _. eauto.
Qed.

Lemma extractsCss_true q :
  util.extractsCss q = Ok true <-> exists p, q = Some p /\ cssExtractor p.
Proof.
  unfold util.extractsCss, cssExtractor. split.
  - destruct q as [p|]; [|discriminate].
    destruct (util.proto_constructor p) as [c|] eqn:Hpc; [|discriminate].
    case_bool_decide as Hc; [|discriminate]. subst c.
    destruct (util.plugin_filename p) as [f|] eqn:Hf; [|discriminate].
    intros [= H]. eauto 10.
  - intros (p & -> & Hc & f & Hf & Hv). rewrite Hc, Hf.
    rewrite bool_decide_eq_true_2 by reflexivity. now rewrite Hv.
Qed.

Lemma extractsCss_false q : util.extractsCss q = Ok false <-> passedOver q.
Proof.
  unfold util.extractsCss, passedOver. split.
  - destruct q as [p|]; [|discriminate].
    destruct (util.proto_constructor p) as [c|] eqn:Hc; [|discriminate].
    case_bool_decide as Hcl.
    + destruct (util.plugin_filename p) as [f|] eqn:Hf; [|discriminate].
      intros [= H]. exists p, c. split; [reflexivity|]. split; [exact Hc|]. eauto.
    + intros _. exists p, c. split; [reflexivity|]. split; [exact Hc|]. contradiction.
  - intros (p & c & -> & Hc & H). rewrite Hc. case_bool_decide as Hcl; [|reflexivity].
    destruct (H Hcl) as (f & -> & ->). reflexivity.
Qed.

Lemma extractsCss_throws q : (exists e, util.extractsCss q = Throw e) <-> uninspectable q.
Proof.
  unfold util.extractsCss, uninspectable. destruct q as [p|]; [|split; eauto].
  destruct (util.proto_constructor p) as [c|]; [|split; eauto].
  case_bool_decide as Hcl.
  - subst c. destruct (util.plugin_filename p) as [f|].
    + split; [intros [e He]; discriminate|]. intros [H|[_ H]]; discriminate.
    + split; eauto.
  - split; [intros [e He]; discriminate|]. intros [H|[H _]]; [discriminate|congruence].
Qed.

Lemma isExtractStyle_loop_true ps :
  util.isExtractStyle_loop ps = Ok true <->
  exists pre p post, ps = pre ++ Some p :: post /\ Forall passedOver pre /\ cssExtractor p.
Proof.
  induction ps as [|q ps IH].
  - simpl. split; [discriminate|]. intros (pre & p & post & H & _). now destruct pre.
  - simpl. destruct (util.extractsCss q) as [[|]|e] eqn:E.
    + split; [|reflexivity]. intros _.
      apply extractsCss_true in E as (p & -> & Hp). exists [], p, ps. auto.
    + rewrite IH. apply extractsCss_false in E. split.
      * intros (pre & p & post & -> & Hpre & Hp). exists (q :: pre), p, post. auto.
      * intros (pre & p & post & H & Hpre & Hp). destruct pre as [|q' pre].
        -- injection H as -> ->. apply extractsCss_false in E.
           assert (util.extractsCss (Some p) = Ok true) by (apply extractsCss_true; eauto).
           congruence.
        -- injection H as -> ->. apply Forall_cons in Hpre as [_ Hpre]. eauto 10.
    + split; [discriminate|].
      intros (pre & p & post & H & Hpre & Hp). destruct pre as [|q' pre].
      * injection H as -> ->.
        assert (util.extractsCss (Some p) = Ok true) by (apply extractsCss_true; eauto).
        congruence.
      * injection H as -> ->. apply Forall_cons in Hpre as [Hq _].
        apply extractsCss_false in Hq. congruence.
Qed.

(** X13: [isExtractStyle] never throws, and it answers [true] exactly when
    the extract-text module can be required and the list of plugins holds an
    [ExtractTextPlugin] with a [filename] that ends with [.css] such that
    every plugin before it could be inspected and was passed over. *)
Theorem isExtractStyle_spec c :
  util.isExtractStyle c = true <->
  util.extractTextInstalled c = true /\
  exists pre p post,
    util.plugins c = Some (pre ++ Some p :: post) /\ Forall passedOver pre /\ cssExtractor p.
Proof.
  unfold util.isExtractStyle. destruct (util.extractTextInstalled c).
  - destruct (util.plugins c) as [ps|].
    + destruct (util.isExtractStyle_loop ps) as [b|e] eqn:E.
      * split.
        -- intros ->. split; [reflexivity|].
           apply isExtractStyle_loop_true in E as (pre & p & post & -> & H). eauto 10.
        -- intros (_ & pre & p & post & [= ->] & H).
           assert (util.isExtractStyle_loop (pre ++ Some p :: post) = Ok true)
             by (apply isExtractStyle_loop_true; eauto 10).
           congruence.
      * split; [discriminate|].
        intros (_ & pre & p & post & [= ->] & H).
        assert (util.isExtractStyle_loop (pre ++ Some p :: post) = Ok true)
          by (apply isExtractStyle_loop_true; eauto 10).
        congruence.
    + split; [discriminate|]. intros (_ & pre & p & post & H & _). discriminate.
  - split; [discriminate|]. intros [H _]. discriminate.
Qed.

Lemma isExtractStyle_loop_stops pre q post :
  Forall passedOver pre -> uninspectable q ->
  exists e, util.isExtractStyle_loop (pre ++ q :: post) = Throw e.
Proof.
  intros Hpre Hq. induction Hpre as [|x pre Hx _ IH]; simpl.
  - apply extractsCss_throws in Hq as [e ->]. eauto.
  - apply extractsCss_false in Hx. rewrite Hx. exact IH.
Qed.

(** X14: unlike [isProduction], [isExtractStyle] has its [try] around the
    whole loop, so the first plugin that cannot be inspected ends the
    search: when such a plugin stands in the list and the plugins before it
    were passed over, the answer is [false] whatever comes behind it, an
    [ExtractTextPlugin] for [.css] files included. *)
Theorem isExtractStyle_hidden c pre q post :
  util.plugins c = Some (pre ++ q :: post) ->
  Forall passedOver pre -> uninspectable q ->
  util.isExtractStyle c = false.
Proof.
  intros Hps Hpre Hq. unfold util.isExtractStyle. rewrite Hps.
  destruct (isExtractStyle_loop_stops pre q post Hpre Hq) as [e ->].
  now destruct (util.extractTextInstalled c).
Qed.

(** ** Hot updates *)

Lemma append_assoc (a b c : string) : ((a ++ b) ++ c = a ++ (b ++ c))%string.
Proof.
  induction a as [|x a IH]; [reflexivity|].
  change (String x ((a ++ b) ++ c) = String x (a ++ (b ++ c)))%string. now rewrite IH.
Qed.

Lemma matchesToEnd_literal w : forall s, matchesToEnd (literal w) s = true <-> s = w.
Proof.
  induction w as [|a w IH]; intros s.
  - simpl. destruct s; split; congruence.
  - change (literal (String a w)) with (One (Char a) :: literal w). simpl.
    destruct s as [|b s]; [split; discriminate|].
    rewrite andb_true_iff, IH, Ascii.eqb_eq. split.
    + now intros [-> ->].
    + intros [= -> ->]. auto.
Qed.

Lemma oneOrMore_unfold c rest a s :
  matchesToEnd (OneOrMore c :: rest) (String a s)
  = (inClass c a && (matchesToEnd rest s || matchesToEnd (OneOrMore c :: rest) s))%bool.
Proof. reflexivity. Qed.

Lemma oneOrMore_inv c rest : forall s,
  matchesToEnd (OneOrMore c :: rest) s = true ->
  exists u a v, s = (u ++ String a v)%string /\ inClass c a = true /\ matchesToEnd rest v = true.
Proof.
  induction s as [|a s IH]; [discriminate|].
  rewrite oneOrMore_unfold. intros H.
  apply andb_true_iff in H as [Ha H]. apply orb_true_iff in H as [H|H].
  - exists EmptyString, a, s. auto.
  - destruct (IH H) as (u & b & v & -> & Hb & Hv). exists (String a u), b, v. auto.
Qed.

Lemma test_unfold items s :
  test items s
  = (matchesToEnd items s
     || match s with String _ s' => test items s' | EmptyString => false end)%bool.
Proof. destruct s; reflexivity. Qed.

Lemma test_intro items v : forall pre,
  matchesToEnd items v = true -> test items (pre ++ v)%string = true.
Proof.
  induction pre as [|a pre IH]; intros H.
  - change (EmptyString ++ v)%string with v. rewrite test_unfold, H. reflexivity.
  - change (String a pre ++ v)%string with (String a (pre ++ v)%string).
    rewrite test_unfold, (IH H). apply orb_true_r.
Qed.

Lemma test_inv items : forall s,
  test items s = true -> exists pre v, s = (pre ++ v)%string /\ matchesToEnd items v = true.
Proof.
  induction s as [|a s IH]; rewrite test_unfold; intros H.
  - rewrite orb_false_r in H. exists EmptyString, EmptyString. auto.
  - apply orb_true_iff in H as [H|H].
    + exists EmptyString, (String a s). auto.
    + destruct (IH H) as (pre & v & -> & Hv). exists (String a pre), v. auto.
Qed.

Lemma test_hotUpdatePattern name : test util.hotUpdatePattern name = true <-> hotUpdateName name.
Proof.
  unfold util.hotUpdatePattern, hotUpdateName. split.
  - intros H. apply test_inv in H as (pre & v & -> & H).
    apply oneOrMore_inv in H as (u & a & w & -> & Ha & Hw).
    apply matchesToEnd_literal in Hw as ->.
    exists (pre ++ u)%string, a. split; [now rewrite append_assoc|].
    simpl in Ha. now apply negb_true_iff in Ha.
  - intros (pre & a & -> & Ha). apply test_intro.
    rewrite oneOrMore_unfold. apply andb_true_iff. split.
    + simpl. now rewrite Ha.
    + apply orb_true_iff. left. now apply matchesToEnd_literal.
Qed.

(** X15: [isHotUpdateCompilation] answers [true] exactly when one of the
    asset names ends with [.hot-update.js] and has a character that is no
    line terminator right before it; the name [.hot-update.js] itself does
    not count, nor does a name that only holds [.hot-update.js] somewhere
    before its end. *)
Theorem isHotUpdateCompilation_spec files :
  util.isHotUpdateCompilation files = true <-> exists name, name ∈ files /\ hotUpdateName name.
Proof.
  induction files as [|name files IH].
  - simpl. split; [discriminate|]. intros (n & Hn & _). now apply elem_of_nil in Hn.
  - simpl. destruct (test util.hotUpdatePattern name) eqn:E.
    + split; [|reflexivity]. intros _. exists name.
      split; [apply elem_of_cons; now left | now apply test_hotUpdatePattern].
    + rewrite IH. split.
      * intros (n & Hn & H). exists n. split; [apply elem_of_cons; now right | exact H].
      * intros (n & Hn & H). apply elem_of_cons in Hn as [->|Hn]; [|eauto].
        apply test_hotUpdatePattern in H. congruence.
Qed.

(** * Properties of the page orchestrator *)

(** ** The pages of a directory *)

Lemma findIndex_negative {A} (p : A -> bool) l : (findIndex p l <? 0)%Z = negb (existsb p l).
Proof.
  induction l as [|x l IH]; [reflexivity|].
  rewrite findIndex_cons. simpl. destruct (p x); [reflexivity|]. simpl.
  pose proof (findIndex_ge p l) as Hge.
  destruct (findIndex p l =? -1)%Z eqn:E.
  - apply Z.eqb_eq in E. rewrite E in IH. rewrite <- IH. reflexivity.
  - apply Z.eqb_neq in E. rewrite <- IH.
    transitivity false; [apply Z.ltb_ge; lia | symmetry; apply Z.ltb_ge; lia].
Qed.

Lemma not_ignored_iff (ignorePages : list string) fileName :
  (findIndex (fun em => String.eqb em fileName) ignorePages <? 0)%Z = true
  <-> fileName ∉ ignorePages.
Proof.
  rewrite findIndex_negative, negb_true_iff, <- not_true_iff_false, existsb_exists.
  split.
  - intros H Hin. apply H. exists fileName.
    split; [now apply list_elem_of_In | apply String.eqb_refl].
  - intros H (x & Hx & E). apply (proj1 (String.eqb_eq _ _)) in E. subst x.
    apply H. now apply list_elem_of_In.
Qed.

Lemma getDirsInDir_loop_spec F dir ignorePages files : forall ret l,
  AutoWebPlugin.getDirsInDir_loop F dir ignorePages files ret = Ok l <->
  (forall f, f ∈ files -> f ∉ ignorePages ->
             is_Some (AutoWebPlugin.lstat_isDirectory F (AutoWebPlugin.resolve F [dir; f]))) /\
  l = ret ++ filter (isPage F dir ignorePages) files.
Proof.
  induction files as [|f files IH]; intros ret l.
  - simpl. rewrite app_nil_r. split.
    + intros [= <-]. split; [|reflexivity]. intros f Hf. now apply elem_of_nil in Hf.
    + intros [_ ->]. reflexivity.
  - simpl. rewrite filter_cons.
    destruct (findIndex _ ignorePages <? 0)%Z eqn:Hig.
    + apply not_ignored_iff in Hig.
      destruct (AutoWebPlugin.lstat_isDirectory F (AutoWebPlugin.resolve F [dir; f]))
        as [[|]|] eqn:Hst.
      * rewrite decide_True by (split; assumption). rewrite IH, <- app_assoc. simpl.
        split; intros [H ->]; (split; [|reflexivity]).
        -- intros g Hg Hgi. apply elem_of_cons in Hg as [->|Hg]; [rewrite Hst; eauto | auto].
        -- intros g Hg. apply H, elem_of_cons. now right.
      * rewrite decide_False by (intros [_ H]; congruence). rewrite IH.
        split; intros [H ->]; (split; [|reflexivity]).
        -- intros g Hg Hgi. apply elem_of_cons in Hg as [->|Hg]; [rewrite Hst; eauto | auto].
        -- intros g Hg. apply H, elem_of_cons. now right.
      * split; [discriminate|]. intros [H _].
        destruct (H f) as [b Hb]; [apply elem_of_cons; now left | exact Hig | congruence].
    + assert (Hin : ~ (f ∉ ignorePages)).
      { intros H. apply not_ignored_iff in H. congruence. }
      rewrite decide_False by (intros [H _]; contradiction). rewrite IH.
      split; intros [H ->]; (split; [|reflexivity]).
      * intros g Hg Hgi. apply elem_of_cons in Hg as [->|Hg]; [contradiction | auto].
      * intros g Hg. apply H, elem_of_cons. now right.
Qed.

(** X16: [getDirsInDir] returns exactly when the directory can be listed
    and every entry that is not ignored can be examined, and what it
    returns are the entries that are not ignored and are directories, in
    the order of the listing.  An ignored entry is never examined: whether
    [lstatSync] would throw for it does not matter. *)
Theorem getDirsInDir_spec F dir ignorePages l :
  AutoWebPlugin.getDirsInDir F dir ignorePages = Ok l <->
  exists files,
    AutoWebPlugin.readdirSync F dir = Some files /\
    (forall f, f ∈ files -> f ∉ default [] ignorePages ->
               is_Some (AutoWebPlugin.lstat_isDirectory F (AutoWebPlugin.resolve F [dir; f]))) /\
    l = filter (isPage F dir (default [] ignorePages)) files.
Proof.
  unfold AutoWebPlugin.getDirsInDir.
  destruct (AutoWebPlugin.readdirSync F dir) as [files|].
  - rewrite getDirsInDir_loop_spec. simpl. split.
    + intros [H ->]. eauto.
    + intros (files' & [= <-] & H & ->). auto.
  - split; [discriminate|]. intros (files & H & _). discriminate.
Qed.

(** ** The entries of the pages *)

Lemma setProperty_fresh {A} k (v : A) o :
  k ∉ map fst o -> setProperty k v o = o ++ [(k, v)].
Proof.
  induction o as [|[k' v'] o IH]; intros Hk; [reflexivity|].
  simpl in Hk |- *. apply not_elem_of_cons in Hk as [Hne Hk].
  destruct (String.eqb_spec k' k) as [->|_]; [congruence|]. now rewrite IH.
Qed.

Lemma fold_setProperty {A} (g : string -> A) pages : forall acc,
  NoDup pages -> (forall n, n ∈ pages -> n ∉ map fst acc) ->
  fold_left (fun m n => setProperty n (g n) m) pages acc
  = acc ++ map (fun n => (n, g n)) pages.
Proof.
  induction pages as [|n pages IH]; intros acc Hnd Hfresh; simpl.
  - now rewrite app_nil_r.
  - apply NoDup_cons in Hnd as [Hn Hnd].
    rewrite setProperty_fresh by (apply Hfresh, elem_of_cons; now left).
    rewrite IH, <- app_assoc; [reflexivity | exact Hnd |].
    intros m Hm. rewrite map_app. simpl. intros Hin.
    apply elem_of_app in Hin as [Hin|Hin].
    + revert Hin. apply Hfresh, elem_of_cons. now right.
    + apply list_elem_of_singleton in Hin as ->. contradiction.
Qed.

Lemma fold_assignProperty {A} (g : string -> A) pages : forall acc,
  fold_left (fun m n => assignProperty n (g n) m) pages acc
  = fold_left (fun m n => setProperty n (g n) m) (filter ownKey pages) acc.
Proof.
  induction pages as [|n pages IH]; intros acc; [reflexivity|].
  simpl. rewrite IH, filter_cons. unfold assignProperty, ownKey.
  destruct (String.eqb_spec n "__proto__") as [->|Hne].
  - rewrite decide_False by (intros H; now apply H). reflexivity.
  - rewrite decide_True by exact Hne. reflexivity.
Qed.

Lemma filter_split {A} (P : A -> Prop) `{forall x, Decision (P x)}
    (Q : A -> Prop) `{forall x, Decision (Q x)} (l : list A) :
  (forall x, P x <-> ~ Q x) -> filter P l ++ filter Q l ≡ₚ l.
Proof.
  intros HPQ. induction l as [|x l IH]; [reflexivity|].
  rewrite !filter_cons. destruct (decide (P x)) as [HP|HP].
  - rewrite decide_False by (now apply HPQ). simpl. now rewrite IH.
  - rewrite decide_True by (destruct (decide (Q x)); [assumption | exfalso; now apply HP, HPQ]).
    rewrite <- Permutation_middle. now rewrite IH.
Qed.

Lemma ownProperties_Permutation {A} (o : list (string * A)) : ownProperties o ≡ₚ o.
Proof.
  unfold ownProperties. rewrite merge_sort_Permutation.
  apply filter_split. intros [k v]. simpl.
  destruct (arrayIndex k); split.
  - intros _ H. discriminate.
  - intros _. now eexists.
  - intros [x Hx]. discriminate.
  - intros H. now contradiction H.
Qed.

Lemma ownProperties_named {A} (o : list (string * A)) :
  Forall (fun kv => arrayIndex (fst kv) = None) o -> ownProperties o = o.
Proof.
  intros H. unfold ownProperties.
  assert (E1 : filter (fun kv : string * A => is_Some (arrayIndex (fst kv))) o = []).
  { induction H as [|kv o Hkv _ IH]; [reflexivity|].
    rewrite filter_cons, decide_False; [exact IH|]. rewrite Hkv. now intros [x Hx]. }
  assert (E2 : filter (fun kv : string * A => arrayIndex (fst kv) = None) o = o).
  { clear E1. induction H as [|kv o Hkv _ IH]; [reflexivity|].
    rewrite filter_cons, decide_True by exact Hkv. now rewrite IH. }
  rewrite E1, E2. reflexivity.
Qed.

#[local] Instance indexLe_total {A} : Total (@indexLe A).
Proof. intros x y. unfold indexLe. lia. Qed.

(** X17: for a listing without repetition whose entries can be examined,
    the constructor returns, and its [entryMap] has one entry for each
    page but a page named [__proto__], which gets none; an entry is made
    of the options and the page name alone.  [Object.keys] lists the
    entries in the order of the listing, but for the pages whose name is
    an array index: these come first, by ascending value. *)
Theorem constructor_entryMap F dir o files :
  AutoWebPlugin.readdirSync F dir = Some files -> NoDup files ->
  (forall f, f ∈ files -> f ∉ default [] (AutoWebPlugin.opt_ignorePages o) ->
             is_Some (AutoWebPlugin.lstat_isDirectory F (AutoWebPlugin.resolve F [dir; f]))) ->
  let pages :=
    filter ownKey (filter (isPage F dir (default [] (AutoWebPlugin.opt_ignorePages o))) files) in
  let entries := map (fun n => (n, AutoWebPlugin.pageEntryOf F dir o n)) pages in
  exists this,
    AutoWebPlugin.constructor F dir o = Ok this /\
    AutoWebPlugin.this_options this = AutoWebPlugin.opt_apply o /\
    AutoWebPlugin.entryMap this ≡ₚ entries /\
    ("__proto__" ∉ map fst (AutoWebPlugin.entryMap this)) /\
    (Forall (fun n => arrayIndex n = None) pages -> AutoWebPlugin.entryMap this = entries) /\
    exists numbered,
      AutoWebPlugin.entryMap this
      = numbered ++ filter (fun page => arrayIndex (fst page) = None) entries /\
      Forall (fun page => is_Some (arrayIndex (fst page))) numbered /\
      Sorted indexLe numbered.
Proof.
  intros Hdir Hnd Hstat pages entries.
  set (dirs := filter (isPage F dir (default [] (AutoWebPlugin.opt_ignorePages o))) files) in *.
  assert (Hget : AutoWebPlugin.getDirsInDir F dir (AutoWebPlugin.opt_ignorePages o) = Ok dirs).
  { unfold AutoWebPlugin.getDirsInDir. rewrite Hdir.
    apply getDirsInDir_loop_spec. split; [exact Hstat | reflexivity]. }
  unfold AutoWebPlugin.constructor. rewrite Hget. cbv zeta.
  rewrite fold_assignProperty. fold pages.
  rewrite (fold_setProperty (AutoWebPlugin.pageEntryOf F dir o) pages []).
  - simpl app. fold entries. eexists. split; [reflexivity|]. simpl.
    split; [reflexivity|]. split; [apply ownProperties_Permutation|]. split.
    { rewrite ownProperties_Permutation. unfold entries. rewrite map_map. simpl.
      rewrite map_id. intros Hin. unfold pages in Hin.
      apply list_elem_of_filter in Hin as [Hown _]. now apply Hown. }
    split.
    + intros Hnamed. apply ownProperties_named.
      unfold entries. apply Forall_fmap. simpl. exact Hnamed.
    + eexists. split; [reflexivity|]. split; [|apply Sorted_merge_sort; apply _].
      apply Forall_forall. intros page Hpage.
      rewrite merge_sort_Permutation in Hpage.
      now apply list_elem_of_filter in Hpage as [H _].
  - unfold pages, dirs. now do 2 apply NoDup_filter.
  - intros n _ Hin. now apply elem_of_nil in Hin.
Qed.

(** ** From the directory to the compiler *)

Lemma setProperty_keys {A} k (v : A) o :
  map fst (setProperty k v o) = if bool_decide (k ∈ map fst o) then map fst o else map fst o ++ [k].
Proof.
  induction o as [|[k' v'] o IH]; [reflexivity|].
  simpl. destruct (String.eqb_spec k' k) as [->|Hne].
  - rewrite bool_decide_eq_true_2 by (apply elem_of_cons; now left). reflexivity.
  - simpl. rewrite IH. case_bool_decide as Hin.
    + rewrite bool_decide_eq_true_2 by (apply elem_of_cons; now right). reflexivity.
    + rewrite bool_decide_eq_false_2; [reflexivity|].
      intros H. apply elem_of_cons in H as [->|H]; [congruence|contradiction].
Qed.

Lemma setProperty_NoDup {A} k (v : A) o :
  NoDup (map fst o) -> NoDup (map fst (setProperty k v o)).
Proof.
  intros H. rewrite setProperty_keys. case_bool_decide as Hin; [exact H|].
  apply NoDup_app. split; [exact H|]. split; [|apply NoDup_singleton].
  intros x Hx Hk. apply list_elem_of_singleton in Hk as ->. contradiction.
Qed.

Lemma setProperty_Forall {A} (P : string * A -> Prop) k v o :
  P (k, v) -> Forall P o -> Forall P (setProperty k v o).
Proof.
  intros Hkv. induction 1 as [|[k' v'] o Hx Ho IH]; simpl.
  - now constructor.
  - destruct (String.eqb_spec k' k) as [E|_]; constructor; try assumption.
    rewrite E. exact Hkv.
Qed.

(** What the constructor has put into [entryMap], whatever the listing. *)
Lemma constructor_inv F dir o this :
  AutoWebPlugin.constructor F dir o = Ok this ->
  AutoWebPlugin.this_options this = AutoWebPlugin.opt_apply o /\
  NoDup (map fst (AutoWebPlugin.entryMap this)) /\
  Forall (fun page => snd page = AutoWebPlugin.pageEntryOf F dir o (fst page))
         (AutoWebPlugin.entryMap this) /\
  Forall (fun page => ownKey (fst page)) (AutoWebPlugin.entryMap this).
Proof.
  unfold AutoWebPlugin.constructor.
  destruct (AutoWebPlugin.getDirsInDir F dir (AutoWebPlugin.opt_ignorePages o))
    as [pageNames|e]; [|discriminate].
  intros [= <-]. simpl. split; [reflexivity|].
  set (g := AutoWebPlugin.pageEntryOf F dir o).
  rewrite fold_assignProperty.
  assert (Hown : Forall ownKey (filter ownKey pageNames)).
  { apply Forall_forall. intros n Hn. now apply list_elem_of_filter in Hn as [Hn _]. }
  revert Hown. generalize (filter ownKey pageNames) as pageNames'.
  clear pageNames. intros pageNames Hown.
  assert (H : forall acc,
             NoDup (map fst acc) ->
             Forall (fun page => snd page = g (fst page) /\ ownKey (fst page)) acc ->
             NoDup (map fst (fold_left (fun m n => setProperty n (g n) m) pageNames acc)) /\
             Forall (fun page => snd page = g (fst page) /\ ownKey (fst page))
                    (fold_left (fun m n => setProperty n (g n) m) pageNames acc)).
  { induction Hown as [|n pageNames Hn _ IH]; intros acc Hnd Hall; [auto|].
    simpl. apply IH; [now apply setProperty_NoDup|].
    apply setProperty_Forall; [split; [reflexivity | exact Hn] | exact Hall]. }
  destruct (H [] (NoDup_nil_2) (Forall_nil_2 _)) as [Hnd Hall].
  split; [now rewrite ownProperties_Permutation|].
  rewrite <- (ownProperties_Permutation (fold_left _ pageNames [])) in Hall.
  split; (eapply Forall_impl; [exact Hall|]); now intros page [H1 H2].
Qed.

Lemma entriesAfter_other o pages : forall e k,
  k ∉ map fst pages -> entriesAfter o pages e !! k = e !! k.
Proof.
  induction pages as [|page pages IH]; intros e k Hk; [reflexivity|].
  simpl in Hk. apply not_elem_of_cons in Hk as [Hne Hk].
  unfold entriesAfter. simpl.
  fold (entriesAfter o pages (assignEntry (fst page) (pageEntryArray o page) e)).
  rewrite IH by exact Hk. unfold assignEntry.
  destruct (String.eqb (fst page) "__proto__"); [reflexivity | now apply lookup_insert_ne].
Qed.

Lemma entriesAfter_page o pages : forall e page,
  NoDup (map fst pages) -> page ∈ pages -> ownKey (fst page) ->
  entriesAfter o pages e !! fst page = Some (pageEntryArray o page).
Proof.
  induction pages as [|p pages IH]; intros e page Hnd Hin Hown; [now apply elem_of_nil in Hin|].
  simpl in Hnd. apply NoDup_cons in Hnd as [Hp Hnd].
  unfold entriesAfter. simpl.
  fold (entriesAfter o pages (assignEntry (fst p) (pageEntryArray o p) e)).
  apply elem_of_cons in Hin as [->|Hin].
  - rewrite entriesAfter_other by exact Hp. unfold assignEntry.
    destruct (String.eqb_spec (fst p) "__proto__") as [E|_]; [contradiction|].
    apply lookup_insert_eq.
  - now apply IH.
Qed.

(** What a returning [apply] has done for the pages. *)
Lemma apply_inv H this c G c1 :
  AutoWebPlugin.apply H this c = Ok (G, c1) ->
  AutoWebPlugin.applyGlobals (AutoWebPlugin.tests H) = Ok G /\
  AutoWebPlugin.entry c1
  = entriesAfter (AutoWebPlugin.this_options this) (AutoWebPlugin.entryMap this)
                 (AutoWebPlugin.entry c) /\
  exists shared rest,
    AutoWebPlugin.registered c1
    = AutoWebPlugin.registered c
      ++ map (htmlRequest (AutoWebPlugin.this_options this) shared) (AutoWebPlugin.entryMap this)
      ++ rest.
Proof.
  unfold AutoWebPlugin.apply.
  destruct (AutoWebPlugin.applyGlobals (AutoWebPlugin.tests H)) as [G0|e]; [|discriminate].
  set (o := AutoWebPlugin.this_options this).
  set (use := (AutoWebPlugin.looseNotNull (AutoWebPlugin.commonsChunk o)
               || AutoWebPlugin.typeofIsObject (AutoWebPlugin.commonsChunk o))%bool).
  destruct (AutoWebPlugin.applyPages H o use (AutoWebPlugin.entryMap this) c) as [cp|e] eqn:Hp;
    [|discriminate].
  assert (Hcp : exists shared,
             cp = AutoWebPlugin.mkCompiler
                    (entriesAfter o (AutoWebPlugin.entryMap this) (AutoWebPlugin.entry c))
                    (AutoWebPlugin.registered c
                     ++ map (htmlRequest o shared) (AutoWebPlugin.entryMap this))).
  { destruct (sharedRequires o use) as [shared|e] eqn:Hs.
    - exists shared. now apply (applyPages_Ok H o use shared _ c cp Hs).
    - destruct (AutoWebPlugin.entryMap this) as [|page pages].
      + exists []. simpl in Hp |- *. injection Hp as <-. rewrite app_nil_r. now destruct c.
      + exfalso. simpl in Hp. rewrite applyPage_eq, Hs in Hp. discriminate. }
  destruct Hcp as [shared ->].
  destruct use.
  - unfold AutoWebPlugin.plug. destruct (AutoWebPlugin.refuses H _); [discriminate|].
    intros [= <- <-]. simpl. split; [reflexivity|]. split; [reflexivity|].
    eexists shared, _. rewrite <- !app_assoc. reflexivity.
  - intros [= <- <-]. simpl. split; [reflexivity|]. split; [reflexivity|].
    eexists shared, _. rewrite <- !app_assoc. reflexivity.
Qed.

(** X18: a plugin made by the constructor and applied.  For every page,
    [options.entry] of the compiler holds under the page name the
    [preEntrys], then the entry path of the page -- the [entry] option when
    it is a string that is not empty, its value at the page name when it is
    a function, and otherwise the page directory resolved -- then the
    [postEntrys]; and the page's [WebPlugin] is given the page name with
    [.html] as its file name and the page's own chunk as the last of its
    requirements.  The [filename] option plays no part in either.  What
    [options.entry] held under a name that is no page it still holds. *)
Theorem constructed_pages_applied F dir o this H c G c1 :
  AutoWebPlugin.constructor F dir o = Ok this ->
  AutoWebPlugin.apply H this c = Ok (G, c1) ->
  (forall page, page ∈ AutoWebPlugin.entryMap this ->
     AutoWebPlugin.entry c1 !! fst page
     = Some (default [] (AutoWebPlugin.preEntrys (AutoWebPlugin.opt_apply o))
             ++ [AutoWebPlugin.pageEntryPath F dir (AutoWebPlugin.opt_entry o) (fst page)]
             ++ default [] (AutoWebPlugin.postEntrys (AutoWebPlugin.opt_apply o))) /\
     exists shared,
       AutoWebPlugin.WebPluginApplied
         (AutoWebPlugin.pageTemplate (AutoWebPlugin.opt_template o) (fst page))
         (fst page ++ ".html")
         (shared ++ [AutoWebPlugin.JString (fst page)])
         (AutoWebPlugin.stylePublicPath (AutoWebPlugin.opt_apply o))
       ∈ AutoWebPlugin.registered c1) /\
  (forall name, name ∉ map fst (AutoWebPlugin.entryMap this) ->
     AutoWebPlugin.entry c1 !! name = AutoWebPlugin.entry c !! name).
Proof.
  intros Hnew Happly.
  destruct (constructor_inv _ _ _ _ Hnew) as (Hopt & Hnd & Hall & Hown).
  destruct (apply_inv _ _ _ _ _ Happly) as (_ & Hentry & shared & rest & Hreg).
  rewrite Hopt in *. split.
  - intros page Hpage. eapply Forall_forall in Hall; [|exact Hpage].
    eapply Forall_forall in Hown; [|exact Hpage]. split.
    + rewrite Hentry, (entriesAfter_page _ _ _ _ Hnd Hpage Hown).
      unfold pageEntryArray. rewrite Hall. reflexivity.
    + exists shared. rewrite Hreg. apply elem_of_app. right. apply elem_of_app. left.
      apply list_elem_of_fmap. exists page. split; [|exact Hpage].
      unfold htmlRequest. rewrite Hall. reflexivity.
  - intros name Hname. rewrite Hentry. now apply entriesAfter_other.
Qed.

(** ** The options of the shared-chunk pass *)

Lemma getProp_putProp k k' v o :
  AutoWebPlugin.getProp k (AutoWebPlugin.putProp k' v o)
  = if String.eqb k' k then v else AutoWebPlugin.getProp k o.
Proof.
  induction o as [|[k0 v0] o IH]; simpl.
  - reflexivity.
  - destruct (String.eqb_spec k0 k') as [->|Hne]; simpl.
    + now destruct (String.eqb k' k).
    + rewrite IH. destruct (String.eqb_spec k0 k) as [->|_]; [|reflexivity].
      destruct (String.eqb_spec k' k) as [->|_]; [congruence | reflexivity].
Qed.

Lemma getProp_assigned k props : forall o,
  NoDup (map fst props) ->
  AutoWebPlugin.getProp k (fold_left (fun acc kv => AutoWebPlugin.putProp (fst kv) (snd kv) acc)
                                     props o)
  = if bool_decide (k ∈ map fst props) then AutoWebPlugin.getProp k props
    else AutoWebPlugin.getProp k o.
Proof.
  induction props as [|[k1 v1] props IH]; intros o Hnd; [reflexivity|].
  simpl in Hnd. apply NoDup_cons in Hnd as [Hk1 Hnd].
  simpl. rewrite (IH _ Hnd), getProp_putProp.
  destruct (String.eqb_spec k1 k) as [->|Hne].
  - rewrite bool_decide_eq_false_2 by exact Hk1.
    rewrite bool_decide_eq_true_2 by (apply elem_of_cons; now left). reflexivity.
  - case_bool_decide as Hin.
    + rewrite bool_decide_eq_true_2 by (apply elem_of_cons; now right). reflexivity.
    + rewrite bool_decide_eq_false_2; [reflexivity|].
      intros H. apply elem_of_cons in H as [->|H]; [congruence|contradiction].
Qed.

(** X19: with an object as the [commonsChunk] option, the options that
    [apply] makes for [new CommonsChunkPlugin] are the properties of that
    object, to which the names of the pages are added as [chunks] only when
    the object has no [chunks] of its own: a [chunks] property of the
    option replaces the list of the pages, and without one the options
    always have [chunks].  When the class throws for these options [apply]
    throws; when [apply] returns the class has taken them and the pass is
    registered with them. *)
Theorem commonsChunk_options_win H this c props :
  AutoWebPlugin.commonsChunk (AutoWebPlugin.this_options this) = AutoWebPlugin.Obj props ->
  NoDup (map fst props) ->
  exists opts,
    (forall k, AutoWebPlugin.getProp k opts
               = sharedOption (map fst (AutoWebPlugin.entryMap this)) props k) /\
    (forall e, AutoWebPlugin.refuses H (AutoWebPlugin.CommonsChunkPluginApplied opts) = Some e ->
               exists e', AutoWebPlugin.apply H this c = Throw e') /\
    (forall G c1, AutoWebPlugin.apply H this c = Ok (G, c1) ->
                  AutoWebPlugin.refuses H (AutoWebPlugin.CommonsChunkPluginApplied opts) = None /\
                  AutoWebPlugin.CommonsChunkPluginApplied opts ∈ AutoWebPlugin.registered c1).
Proof.
  intros Ho Hnd.
  exists (AutoWebPlugin.Object_assign
            [("chunks", AutoWebPlugin.JStrings (map fst (AutoWebPlugin.entryMap this)))]
            (AutoWebPlugin.Obj props)).
  split; [|split].
  - intros k. unfold AutoWebPlugin.Object_assign, sharedOption.
    rewrite (getProp_assigned _ _ _ Hnd). case_bool_decide; [reflexivity|].
    cbn [AutoWebPlugin.getProp]. now rewrite (String.eqb_sym k "chunks").
  - intros e He. unfold AutoWebPlugin.apply.
    destruct (AutoWebPlugin.applyGlobals (AutoWebPlugin.tests H)) as [G|e0]; [|eauto].
    rewrite Ho. simpl.
    destruct (AutoWebPlugin.applyPages H _ true _ c) as [cp|e0]; [|eauto].
    unfold AutoWebPlugin.plug. simpl in He. rewrite He. eauto.
  - intros G c1. unfold AutoWebPlugin.apply.
    destruct (AutoWebPlugin.applyGlobals (AutoWebPlugin.tests H)) as [G0|e0]; [|discriminate].
    rewrite Ho. simpl.
    destruct (AutoWebPlugin.applyPages H _ true _ c) as [cp|e0]; [|discriminate].
    unfold AutoWebPlugin.plug.
    destruct (AutoWebPlugin.refuses H _) as [e|]; [discriminate|].
    intros [= <- <-]. split; [reflexivity|]. simpl.
    apply elem_of_app. left. apply elem_of_app. right. apply list_elem_of_singleton. reflexivity.
Qed.

(** ** The globals that [apply] sets *)

(** X20: the first plugin that [isExtractStyle] cannot inspect turns the
    style pass off for every document.  When such a plugin stands among
    the plugins of the compiler with only passed-over plugins before it, the
    globals that [apply] sets make [ensureRequires] create script nodes
    only, whatever it is called on and however it ends -- also when an
    [ExtractTextPlugin] for [.css] files comes later in the list. *)
Theorem hidden_extractor_no_style_pass h pre q post G d r s :
  util.plugins h = Some (pre ++ q :: post) ->
  Forall passedOver pre -> uninspectable q ->
  AutoWebPlugin.applyGlobals h = Ok G ->
  adds "script" s (snd (ensureRequires G d r s)).
Proof.
  intros Hps Hpre Hq HG.
  assert (Hoff : _isExtractStyle G = false).
  { unfold AutoWebPlugin.applyGlobals in HG.
    destruct (util.isProduction h) as [production|e]; [|discriminate].
    injection HG as <-. simpl. unfold util.isExtractStyle. rewrite Hps.
    destruct (isExtractStyle_loop_stops pre q post Hpre Hq) as [e ->].
    now destruct (util.extractTextInstalled h). }
  now apply ensureRequires_no_link.
Qed.

(** * The reach of the scan *)

Lemma Resource_new_node c n path : Resource.node (Resource.new c n path) = c.
Proof.
  unfold Resource.new.
  destruct (String.eqb (nodeName n) "script"); [reflexivity|].
  destruct (String.eqb (nodeName n) "link").
  { destruct (getAttr "rel" (attrs n)) as [rel|]; [|reflexivity].
    destruct (String.eqb rel "stylesheet"); reflexivity. }
  destruct (String.eqb (nodeName n) "style"); [reflexivity|].
  destruct (String.eqb (nodeName n) "#comment"); reflexivity.
Qed.

Lemma record_resource_recorded d x r :
  recorded (record_resource d x) r -> recorded d r \/ r = x.
Proof.
  unfold recorded, record_resource.
  destruct (Resource.type x); simpl.
  - intros [H|H]; [|auto]. apply elem_of_app in H as [H|H]; [auto|].
    apply list_elem_of_singleton in H. auto.
  - intros [H|H]; [auto|]. apply elem_of_app in H as [H|H]; [auto|].
    apply list_elem_of_singleton in H. auto.
  - destruct (String.eqb (Resource.data x) "SCRIPT"); [simpl; auto|].
    destruct (String.eqb (Resource.data x) "STYLE"); simpl; auto.
  - auto.
Qed.

Lemma scanWith_recorded ns cs : forall d r,
  recorded (scanWith ns d cs) r -> recorded d r \/ Resource.node r ∈ cs.
Proof.
  induction cs as [|c cs IH]; intros d r H; [now left|].
  simpl in H. destruct (ns !! c) as [n|].
  - destruct (IH _ _ H) as [H1|H1]; [|right; apply elem_of_cons; now right].
    apply record_resource_recorded in H1 as [H1| ->]; [now left|].
    right. rewrite Resource_new_node. apply elem_of_cons. now left.
  - destruct (IH _ _ H) as [H1|H1]; [now left | right; apply elem_of_cons; now right].
Qed.

Lemma scanAnchors_recorded ns cs : forall d r,
  recorded (fold_left (scanAnchor ns) cs d) r ->
  recorded d r \/
  Resource.node r ∈ flat_map (fun c => if (isNamed ns "head" c || isNamed ns "body" c)%bool
                                       then kidsOf ns c else []) cs.
Proof.
  induction cs as [|c cs IH]; intros d r H; [now left|].
  simpl in H |- *. destruct (IH _ _ H) as [H1|H1];
    [|right; apply elem_of_app; now right].
  unfold scanAnchor in H1.
  destruct (isNamed ns "head" c); simpl.
  - apply scanWith_recorded in H1 as [H1|H1]; [now left|].
    right. apply elem_of_app. now left.
  - destruct (isNamed ns "body" c); simpl; [|now left].
    apply scanWith_recorded in H1 as [H1|H1]; [now left|].
    right. apply elem_of_app. now left.
Qed.

Lemma scanHtml_recorded ns top : forall d r,
  recorded (fold_left (scanHtml ns) top d) r ->
  recorded d r \/
  Resource.node r
  ∈ flat_map (fun c => if (isNamed ns "head" c || isNamed ns "body" c)%bool
                       then kidsOf ns c else [])
             (flat_map (fun h => if isNamed ns "html" h then kidsOf ns h else []) top).
Proof.
  induction top as [|h top IH]; intros d r H; [now left|].
  simpl in H |- *. rewrite flat_map_app.
  destruct (IH _ _ H) as [H1|H1]; [|right; apply elem_of_app; now right].
  unfold scanHtml in H1. destruct (isNamed ns "html" h); simpl; [|now left].
  apply scanAnchors_recorded in H1 as [H1|H1]; [now left|].
  right. apply elem_of_app. now left.
Qed.

(** X21: the scan is shallow.  On a tree that it can walk, [_findOutAll]
    returns, and every resource that the document records afterwards was
    recorded before or wraps a node that is itself a child of a [head] or a
    [body] below an [html] below the document: a script or a stylesheet
    that stands deeper in the tree is never recorded, so a chunk that only
    such a node loads counts as missing. *)
Theorem scan_is_shallow d s root :
  document d = Some root ->
  scannable (nodes s) root = true ->
  exists d1,
    _findOutAll d s = (Ok d1, s) /\
    forall r, recorded d1 r -> recorded d r \/ Resource.node r ∈ scanned (nodes s) root.
Proof.
  intros Hdoc Hok. eexists. split; [exact (_findOutAll_run d s root Hdoc Hok)|].
  intros r Hr. apply scanHtml_recorded in Hr. exact Hr.
Qed.

(** * Concrete runs of the further properties *)

Lemma removePresent_counts_witness :
  exists L,
    removePresent (scriptResources vendorDoc) 0 (vendorState ["vendor"; "app"; "vendor"])
    = (Ok tt, withArrays (<[0 := L]> (arrays (vendorState ["vendor"; "app"; "vendor"])))
                         (vendorState ["vendor"; "app"; "vendor"])) /\
    (L `sublist_of` ["vendor"; "app"; "vendor"]) /\
    (forall n, occurrences n L
               = occurrences n ["vendor"; "app"; "vendor"]
                 - occurrences (Some n) (map Resource.chunkName (scriptResources vendorDoc))).
Proof.
  apply (removePresent_counts (scriptResources vendorDoc) 0
           (vendorState ["vendor"; "app"; "vendor"]) ["vendor"; "app"; "vendor"]).
  reflexivity.
Defined.

Lemma ensureRequires_nothing_left_witness :
  fst (_findOutAll (blankDoc 0) (mkState carriedTree [["vendor"]] ∅)) = Ok carriedDoc /\
  exists s1,
    ensureRequires extractG carriedDoc 0 (mkState carriedTree [["vendor"]] ∅)
    = (Ok carriedDoc, s1) /\
    nodes s1 = carriedTree /\ arrays s1 !! 0 = Some ["vendor"] /\
    HTMLDocumentCacheMap s1 = ∅.
Proof.
  split; [reflexivity|].
  apply (ensureRequires_nothing_left extractG carriedDoc 0
           (mkState carriedTree [["vendor"]] ∅) ["vendor"]).
  - reflexivity.
  - intros n. simpl. destruct (decide ("vendor" = n)) as [<-|Hne].
    + rewrite decide_True by reflexivity. lia.
    + lia.
  - intros _ n. simpl. destruct (decide ("vendor" = n)) as [<-|Hne].
    + rewrite decide_True by reflexivity. lia.
    + lia.
Defined.

Lemma stale_marker_drops_last_child_witness :
  exists s1,
    _ensureRequireScripts onceDoc 0 staleState = (Ok [16], s1) /\
    childrenIn s1 (Some 8) = Some ([9; 12] ++ [16] ++ [13]) /\
    Forall2 (fun id name => nodes s1 !! id = Some (util.scriptNode name (Some 8)))
            [16] ["late"].
Proof.
  apply (stale_marker_drops_last_child onceDoc 0 staleState ["late"] 10
           (commentNode "SCRIPT" (Some 8)) 8 (element "body" [] (Some 2) [9; 12; 13; 11])
           [9; 12] 13 11).
  - reflexivity.
  - vm_compute. discriminate.
  - reflexivity.
  - vm_compute. reflexivity.
  - reflexivity.
  - vm_compute. reflexivity.
  - reflexivity.
  - by_decide.
Defined.

Lemma clone_leaves_store_witness :
  exists d1,
    clone defaultDoc (defaultState []) = (Ok d1, defaultState []) /\
    document d1 = Some 0 /\ headNode d1 = Some 3 /\ bodyNode d1 = Some 8 /\
    scriptInjectCommentNode d1 = Some 10 /\ styleInjectCommentNode d1 = None /\
    htmlTemplateFilePath d1 = None.
Proof.
  apply (clone_leaves_store defaultDoc (defaultState []) 3 8
           (element "head" [] (Some 2) [4; 5; 6]) (element "body" [] (Some 2) [9; 10; 11])
           [4; 5; 6] [9; 10; 11]); reflexivity.
Defined.

Lemma constructor_from_cache_witness :
  exists d,
    forall E', constructor E' (Some "/index.html") cachedState = (Ok d, cachedState).
Proof.
  destruct (HTMLDocumentCacheMap cachedState !! "/index.html") as [proto|] eqn:Hc;
    [|vm_compute in Hc; discriminate].
  destruct (constructor defaultEnv (Some "/index.html") cachedState) as [[d|e] s1] eqn:E;
    [|vm_compute in E; discriminate].
  destruct (constructor_from_cache defaultEnv (Some "/index.html") cachedState proto d s1 Hc E)
    as (_ & H & _).
  exists d. exact H.
Defined.

Lemma constructor_twice_witness :
  exists d2,
    (forall E', constructor E' (Some "/index.html") cachedState = (Ok d2, cachedState)) /\
    document d2 = Some 0 /\ headNode d2 = Some 3 /\ bodyNode d2 = Some 8.
Proof.
  destruct (constructor defaultEnv (Some "/index.html") emptyState) as [[d|e] s1] eqn:E;
    [|vm_compute in E; discriminate].
  destruct (constructor_twice defaultEnv (Some "/index.html") emptyState d s1)
    as (d2 & H1 & H2 & H3 & H4 & _).
  - intros q _. reflexivity.
  - reflexivity.
  - exact E.
  - assert (Hs : s1 = cachedState) by (unfold cachedState; now rewrite E).
    assert (Hd : (document d, headNode d, bodyNode d) = (Some 0, Some 3, Some 8))
      by (vm_compute in E; now injection E as <- _).
    subst s1. injection Hd as Hd1 Hd2 Hd3. exists d2. split; [exact H1|]. repeat split; congruence.
Defined.

Lemma constructor_relative_path_misses_witness :
  HTMLDocumentCacheMap (snd (constructor relativeEnv (Some "index.html") emptyState))
    !! "index.html" = None /\
  is_Some (HTMLDocumentCacheMap (snd (constructor relativeEnv (Some "index.html") emptyState))
             !! "/index.html").
Proof.
  destruct (constructor relativeEnv (Some "index.html") emptyState) as [[d|e] s1] eqn:E;
    [|vm_compute in E; discriminate].
  destruct (constructor_relative_path_misses relativeEnv "index.html" emptyState d s1)
    as (H1 & (proto & H2 & _) & _).
  - vm_compute. discriminate.
  - reflexivity.
  - exact E.
  - split; [exact H1|]. exists proto. exact H2.
Defined.

Lemma serialize_compact_twice_witness :
  exists out s1,
    serialize (fun _ _ => EmptyString) productionG defaultDoc (defaultState []) = (Ok out, s1) /\
    serialize (fun _ _ => EmptyString) productionG defaultDoc s1 = (Ok out, s1).
Proof.
  apply (serialize_compact_twice (fun _ _ => EmptyString) productionG defaultDoc (defaultState [])
           3 8 (element "head" [] (Some 2) [4; 5; 6]) (element "body" [] (Some 2) [9; 10; 11])
           [4; 5; 6] [9; 10; 11]).
  - reflexivity.
  - reflexivity.
  - reflexivity.
  - reflexivity.
  - reflexivity.
  - reflexivity.
  - reflexivity.
  - by_decide.
  - by_decide.
Defined.

Lemma pretty_puts_line_breaks_witness :
  exists s1,
    pretty 3 (mkState markersTree [] ∅) = (Ok tt, s1) /\
    childrenIn s1 (Some 3) = Some [7; 4; 6; 5] /\
    length (nodes s1) = 8.
Proof.
  destruct (pretty_puts_line_breaks 3 (mkState markersTree [] ∅)
              (element "body" [] (Some 1) [4; 5]) [4; 5])
    as (s1 & H1 & H2 & H3 & _).
  - reflexivity.
  - reflexivity.
  - by_decide.
  - by_decide.
  - repeat constructor; eexists; (split; [reflexivity | intros _; reflexivity]).
  - exists s1. split; [exact H1|]. split; [exact H2 | exact H3].
Defined.

Lemma serialize_pretty_twice_witness :
  exists out s1,
    serialize (fun _ _ => EmptyString) developmentG markersDoc (mkState markersTree [] ∅)
    = (Ok out, s1) /\
    serialize (fun _ _ => EmptyString) developmentG markersDoc s1 = (Ok out, s1).
Proof.
  apply (serialize_pretty_twice (fun _ _ => EmptyString) developmentG markersDoc
           (mkState markersTree [] ∅) 2 3
           (element "head" [] (Some 1) []) (element "body" [] (Some 1) [4; 5]) [] [4; 5]).
  - reflexivity.
  - reflexivity.
  - reflexivity.
  - reflexivity.
  - reflexivity.
  - reflexivity.
  - reflexivity.
  - by_decide.
  - constructor.
  - repeat constructor; eexists; (split; [reflexivity | intros _; reflexivity]).
Defined.

Lemma isExtractStyle_hidden_witness : util.isExtractStyle hiddenHost = false.
Proof.
  apply (isExtractStyle_hidden hiddenHost [] None [Some cssPlugin]).
  - reflexivity.
  - constructor.
  - exact I.
Defined.

Lemma constructor_entryMap_witness :
  exists this,
    AutoWebPlugin.constructor pagesFs "/pages" pagesOptions = Ok this /\
    AutoWebPlugin.entryMap this
    ≡ₚ map (fun n => (n, AutoWebPlugin.pageEntryOf pagesFs "/pages" pagesOptions n))
           ["home"; "10"; "9"] /\
    ("__proto__" ∉ map fst (AutoWebPlugin.entryMap this)).
Proof.
  destruct (constructor_entryMap pagesFs "/pages" pagesOptions
              ["home"; "10"; "readme.md"; "__proto__"; "9"; "drafts"])
    as (this & H1 & _ & H2 & H3 & _).
  - reflexivity.
  - by_decide.
  - intros f Hf Hn. rewrite !elem_of_cons in Hf.
    destruct Hf as [->|[->|[->|[->|[->|[->|Hf]]]]]].
    + eexists. reflexivity.
    + eexists. reflexivity.
    + eexists. reflexivity.
    + eexists. reflexivity.
    + eexists. reflexivity.
    + exfalso. apply Hn. simpl. left.
    + inversion Hf.
  - exists this. split; [exact H1 | split; [exact H2 | exact H3]].
Defined.

Lemma constructed_pages_applied_witness :
  exists this c1,
    AutoWebPlugin.constructor pagesFs "/pages" pagesOptions = Ok this /\
    AutoWebPlugin.apply plainHost this freshCompiler = Ok (developmentG, c1) /\
    AutoWebPlugin.entry c1 !! "home"
    = Some [AutoWebPlugin.pageEntryPath pagesFs "/pages"
              (AutoWebPlugin.opt_entry pagesOptions) "home"] /\
    AutoWebPlugin.entry c1 !! "drafts" = None.
Proof.
  destruct (AutoWebPlugin.constructor pagesFs "/pages" pagesOptions) as [this|e] eqn:E;
    [|vm_compute in E; discriminate].
  assert (Hthis : AutoWebPlugin.entryMap this
                  = map (fun n => (n, AutoWebPlugin.pageEntryOf pagesFs "/pages" pagesOptions n))
                        ["9"; "10"; "home"])
    by (vm_compute in E; injection E as <-; reflexivity).
  destruct (AutoWebPlugin.apply plainHost this freshCompiler) as [[G c1]|e] eqn:A.
  - destruct (constructed_pages_applied pagesFs "/pages" pagesOptions this plainHost
                freshCompiler G c1 E A) as [Hpages Hother].
    assert (HG : G = developmentG).
    { destruct (apply_inv _ _ _ _ _ A) as [HG _]. now injection HG as <-. }
    subst G. exists this, c1. split; [reflexivity|]. split; [exact A|]. split.
    + destruct (Hpages ("home", AutoWebPlugin.pageEntryOf pagesFs "/pages" pagesOptions "home"))
        as [Hentry _].
      * rewrite Hthis. cbn [map]. rewrite !elem_of_cons. right. right. left. reflexivity.
      * exact Hentry.
    + rewrite (Hother "drafts"); [reflexivity|].
      rewrite Hthis. by_decide.
  - exfalso. vm_compute in E. injection E as <-. vm_compute in A. discriminate.
Defined.

Lemma commonsChunk_options_win_witness :
  (exists e,
     AutoWebPlugin.apply strictHost
       (homePlugin (AutoWebPlugin.Obj [("name", AutoWebPlugin.JString "common");
                                       ("children", AutoWebPlugin.JBool true)]))
       freshCompiler = Throw e) /\
  (exists opts,
     AutoWebPlugin.refuses strictHost (AutoWebPlugin.CommonsChunkPluginApplied opts) = None /\
     AutoWebPlugin.getProp "chunks" opts = AutoWebPlugin.JStrings ["x"]).
Proof.
  split.
  - destruct (commonsChunk_options_win strictHost
                (homePlugin (AutoWebPlugin.Obj [("name", AutoWebPlugin.JString "common");
                                                ("children", AutoWebPlugin.JBool true)]))
                freshCompiler
                [("name", AutoWebPlugin.JString "common"); ("children", AutoWebPlugin.JBool true)])
      as (opts & Hopts & Hthrow & _).
    + reflexivity.
    + by_decide.
    + apply (Hthrow Error). simpl.
      rewrite (Hopts "children"), (Hopts "chunks"). reflexivity.
  - destruct (commonsChunk_options_win strictHost
                (homePlugin (AutoWebPlugin.Obj [("name", AutoWebPlugin.JString "common");
                                                ("chunks", AutoWebPlugin.JStrings ["x"])]))
                freshCompiler
                [("name", AutoWebPlugin.JString "common"); ("chunks", AutoWebPlugin.JStrings ["x"])])
      as (opts & Hopts & _ & Hok).
    + reflexivity.
    + by_decide.
    + destruct (AutoWebPlugin.apply strictHost
                  (homePlugin (AutoWebPlugin.Obj [("name", AutoWebPlugin.JString "common");
                                                  ("chunks", AutoWebPlugin.JStrings ["x"])]))
                  freshCompiler) as [[G c1]|e] eqn:A; [|vm_compute in A; discriminate].
      destruct (Hok G c1 eq_refl) as [Hacc _].
      exists opts. split; [exact Hacc | exact (Hopts "chunks")].
Defined.

Lemma hidden_extractor_no_style_pass_witness :
  adds "script" (defaultState ["app"])
       (snd (ensureRequires developmentG defaultDoc 0 (defaultState ["app"]))).
Proof.
  apply (hidden_extractor_no_style_pass hiddenHost [] None [Some cssPlugin]
           developmentG defaultDoc 0 (defaultState ["app"])).
  - reflexivity.
  - constructor.
  - exact I.
  - reflexivity.
Defined.

Lemma scan_is_shallow_witness :
  exists d1,
    _findOutAll (blankDoc 0) (mkState vendorTree [] ∅) = (Ok d1, mkState vendorTree [] ∅) /\
    forall r, recorded d1 r ->
              recorded (blankDoc 0) r \/ Resource.node r ∈ scanned vendorTree 0.
Proof.
  apply (scan_is_shallow (blankDoc 0) (mkState vendorTree [] ∅) 0); reflexivity.
Defined.

(** * Reconciliation on the tree as the scan leaves it *)

(** ** Counting the occurrences of a node *)

Lemma occurrences_app {A} `{EqDecision A} (x : A) l1 l2 :
  occurrences x (l1 ++ l2) = occurrences x l1 + occurrences x l2.
Proof. induction l1 as [|y l1 IH]; simpl; [reflexivity|]. rewrite IH. lia. Qed.

Lemma occurrences_absent {A} `{EqDecision A} (x : A) l : x ∉ l <-> occurrences x l = 0.
Proof.
  induction l as [|y l IH]; simpl.
  - split; [reflexivity|]. intros _ H. now apply elem_of_nil in H.
  - rewrite not_elem_of_cons, IH. destruct (decide (y = x)) as [->|Hne].
    + split; [intros [H _]; congruence | lia].
    + split; [intros [_ H]; lia | intros H; split; [congruence | lia]].
Qed.

Lemma occurrences_once {A} `{EqDecision A} (x : A) l :
  occurrences x l = 1 <-> exists pre post, l = pre ++ x :: post /\ (x ∉ pre) /\ (x ∉ post).
Proof.
  split.
  - induction l as [|y l IH]; simpl; [discriminate|].
    destruct (decide (y = x)) as [->|Hne]; intros H.
    + exists [], l. split; [reflexivity|]. split; [apply not_elem_of_nil|].
      apply occurrences_absent. lia.
    + destruct IH as (pre & post & -> & Hpre & Hpost); [lia|].
      exists (y :: pre), post. split; [reflexivity|]. split; [|exact Hpost].
      apply not_elem_of_cons. split; [congruence | exact Hpre].
  - intros (pre & post & -> & Hpre & Hpost). rewrite occurrences_app. simpl.
    rewrite decide_True by reflexivity.
    apply occurrences_absent in Hpre, Hpost. lia.
Qed.

(** A node that is neither the marker nor injected stands in the new child
    array as often as in the old one. *)
Lemma occurrences_injectedChildren x marker ids cs :
  marker <> Some x -> x ∉ ids ->
  match marker with Some m => occurrences m cs = 1 | None => True end ->
  occurrences x (injectedChildren marker ids cs) = occurrences x cs.
Proof.
  intros Hne Hids Hm. apply occurrences_absent in Hids.
  destruct marker as [m|]; simpl.
  - apply occurrences_once in Hm as (pre & post & -> & Hpre & _).
    change (occurrences x (injectedChildren (Some m) ids (pre ++ m :: post))
            = occurrences x (pre ++ m :: post)).
    rewrite injectedChildren_at by exact Hpre.
    rewrite !occurrences_app. simpl.
    rewrite decide_False by congruence. lia.
  - rewrite occurrences_app. lia.
Qed.

(** ** The place of a pass *)

Lemma kidsOf_lookup ns p pn cs : ns !! p = Some pn -> childNodes pn = Some cs -> kidsOf ns p = cs.
Proof. intros Hp Hcs. unfold kidsOf. rewrite Hp. simpl. now rewrite Hcs. Qed.

Lemma kidsOf_inv ns p c :
  c ∈ kidsOf ns p -> exists pn, ns !! p = Some pn /\ childNodes pn = Some (kidsOf ns p).
Proof.
  unfold kidsOf. destruct (ns !! p) as [pn|]; simpl; [|intros H; now apply elem_of_nil in H].
  destruct (childNodes pn) as [cs|] eqn:E; simpl; [|intros H; now apply elem_of_nil in H].
  eauto.
Qed.

Lemma markerInPlace_inv payload ns m :
  markerInPlace payload ns m = true ->
  isMarker payload ns m = true /\
  exists mn p pn cs,
    ns !! m = Some mn /\ parentNode mn = Some p /\ ns !! p = Some pn /\
    childNodes pn = Some cs /\ occurrences m cs = 1.
Proof.
  unfold markerInPlace. intros H. apply andb_true_iff in H as [Hmark H].
  split; [exact Hmark|].
  destruct (ns !! m) as [mn|] eqn:Hm; [|discriminate].
  destruct (parentNode mn) as [p|] eqn:Hpar; [|discriminate].
  apply Nat.eqb_eq in H.
  assert (Hin : m ∈ kidsOf ns p).
  { destruct (decide (m ∈ kidsOf ns p)) as [Hin|Hout]; [exact Hin|].
    apply occurrences_absent in Hout. lia. }
  destruct (kidsOf_inv _ _ _ Hin) as (pn & Hp & Hcs).
  exists mn, p, pn, (kidsOf ns p). auto.
Qed.

Lemma passPoint_inv payload marker fb ns :
  passPoint payload marker fb ns = true ->
  exists p pn cs,
    injectionParent marker fb ns = Some p /\ ns !! p = Some pn /\ childNodes pn = Some cs /\
    match marker with
    | Some m => occurrences m cs = 1 /\ isMarker payload ns m = true
    | None => True
    end.
Proof.
  unfold passPoint. destruct marker as [m|].
  - intros H. apply markerInPlace_inv in H as (Hmark & mn & p & pn & cs & Hm & Hpar & Hp & Hcs & H1).
    exists p, pn, cs. simpl. rewrite Hm. simpl. auto.
  - intros H. apply insertionPoint_inv in H as (p & pn & cs & Hpar & Hp & Hcs).
    exists p, pn, cs. auto.
Qed.

Lemma passPoint_insertionPoint payload marker fb ns :
  passPoint payload marker fb ns = true -> insertionPoint marker fb ns = true.
Proof.
  intros H. apply passPoint_inv in H as (p & pn & cs & Hpar & Hp & Hcs & _).
  unfold insertionPoint. rewrite Hpar, Hp. apply bool_decide_eq_true. rewrite Hcs. eauto.
Qed.

(** The two markers are different nodes. *)
Lemma isMarker_kinds ns m : isMarker "SCRIPT" ns m = true -> isMarker "STYLE" ns m = true -> False.
Proof.
  unfold isMarker. destruct (ns !! m) as [n|]; [|discriminate].
  intros H1 H2. apply andb_true_iff in H1 as [_ H1]. apply andb_true_iff in H2 as [_ H2].
  apply String.eqb_eq in H1, H2. rewrite H1 in H2. discriminate.
Qed.

(** ** One pass on such a tree *)

Lemma pass_step lit payload res marker fb r s R :
  arrays s !! r = Some R ->
  passPoint payload marker fb (nodes s) = true ->
  let L := leftover (map Resource.chunkName res) R in
  exists s1,
    ensurePass lit res marker fb r s = (Ok (seq (length (nodes s)) (length L)), s1) /\
    passStep lit marker fb L (nodes s) (nodes s1) /\
    length (arrays s1) = length (arrays s) /\
    (forall i, i <> r -> arrays s1 !! i = arrays s !! i).
Proof.
  intros HR Hpt. cbv zeta.
  destruct (passPoint_inv _ _ _ _ Hpt) as (p & pn & cs & Hpar & Hp & Hcs & Hm).
  destruct (decide (leftover (map Resource.chunkName res) R = [])) as [HL|HL].
  - rewrite (ensurePass_nothing _ _ _ _ _ _ _ HR HL), HL.
    eexists. split; [reflexivity|]. split; [left; auto|].
    simpl. split; [apply length_insert|]. intros i Hi. now apply list_lookup_insert_ne.
  - rewrite (ensurePass_run _ _ _ _ _ _ _ _ _ _ HR HL Hpar Hp Hcs).
    eexists. split; [reflexivity|]. split.
    + right. split; [exact HL|]. exists p, pn, cs. split; [exact Hpar|]. split; [exact Hp|].
      split; [exact Hcs|]. split; [|reflexivity].
      destruct marker; [apply Hm | exact I].
    + simpl. split; [apply length_insert|]. intros i Hi. now apply list_lookup_insert_ne.
Qed.

Lemma passStep_length lit marker fb L ns ns1 :
  passStep lit marker fb L ns ns1 -> length ns1 = length ns + length L.
Proof.
  intros [[-> ->]|(_ & p & pn & cs & _ & _ & _ & _ & ->)]; [simpl; lia|].
  now rewrite length_insert, length_app, length_map.
Qed.

(** The nodes that existed keep all but their child arrays; those without
    child array are not written to. *)
Lemma passStep_old lit marker fb L ns ns1 i n :
  passStep lit marker fb L ns ns1 -> ns !! i = Some n ->
  exists n1, ns1 !! i = Some n1 /\ reshaped n n1 /\ (childNodes n = None -> n1 = n).
Proof.
  intros [[_ ->]|(_ & p & pn & cs & _ & Hp & Hcs & _ & ->)] Hi.
  - exists n. split; [exact Hi|]. split; [apply reshaped_refl | reflexivity].
  - assert (Hlt : i < length (ns ++ map (fun c => lit c (Some p)) L)).
    { rewrite length_app. apply lookup_lt_Some in Hi. lia. }
    destruct (decide (p = i)) as [<-|Hne].
    + rewrite Hp in Hi. injection Hi as <-.
      eexists. split; [now apply list_lookup_insert_eq|]. split.
      * unfold reshaped. simpl. eauto 10.
      * rewrite Hcs. discriminate.
    + exists n. rewrite list_lookup_insert_ne by exact Hne.
      split; [now apply lookup_app_l_Some|]. split; [apply reshaped_refl | reflexivity].
Qed.

(** The child arrays after a pass: the one that it has injected into, and
    the others. *)
Lemma passStep_kids lit marker fb L ns ns1 q :
  passStep lit marker fb L ns ns1 -> q < length ns ->
  kidsOf ns1 q
  = if bool_decide (L <> [] /\ injectionParent marker fb ns = Some q)
    then injectedChildren marker (seq (length ns) (length L)) (kidsOf ns q)
    else kidsOf ns q.
Proof.
  intros [[HL ->]|(HL & p & pn & cs & Hpar & Hp & Hcs & _ & ->)] Hq.
  - rewrite bool_decide_eq_false_2 by (intros [H _]; contradiction). reflexivity.
  - assert (Hlt : p < length (ns ++ map (fun c => lit c (Some p)) L)).
    { rewrite length_app. apply lookup_lt_Some in Hp. lia. }
    destruct (decide (p = q)) as [<-|Hne].
    + rewrite bool_decide_eq_true_2 by auto.
      unfold kidsOf at 1. rewrite list_lookup_insert_eq by exact Hlt. simpl.
      now rewrite (kidsOf_lookup _ _ _ _ Hp Hcs).
    + rewrite bool_decide_eq_false_2 by (intros [_ H]; congruence).
      unfold kidsOf. rewrite list_lookup_insert_ne by exact Hne.
      now rewrite lookup_app_l by exact Hq.
Qed.

(** No child leaves the tree but the marker. *)
Lemma passStep_child lit marker fb L ns ns1 q c :
  passStep lit marker fb L ns ns1 ->
  c ∈ kidsOf ns q -> marker <> Some c -> c ∈ kidsOf ns1 q.
Proof.
  intros Hstep Hc Hne.
  assert (Hq : q < length ns).
  { destruct (kidsOf_inv _ _ _ Hc) as (qn & Hqn & _). eapply lookup_lt_Some; eassumption. }
  rewrite (passStep_kids _ _ _ _ _ _ _ Hstep Hq). case_bool_decide as Hcase; [|exact Hc].
  destruct Hcase as [HL Hpar].
  destruct Hstep as [[HL' _]|(_ & p & pn & cs & Hpar' & Hp & Hcs & Hm & _)]; [contradiction|].
  rewrite Hpar in Hpar'. injection Hpar' as <-.
  rewrite (kidsOf_lookup _ _ _ _ Hp Hcs) in *.
  destruct marker as [m|]; simpl.
  - apply occurrences_once in Hm as (pre & post & -> & Hpre & _).
    change (c ∈ injectedChildren (Some m) (seq (length ns) (length L)) (pre ++ m :: post)).
    rewrite injectedChildren_at by exact Hpre.
    apply elem_of_app in Hc as [Hc|Hc]; [apply elem_of_app; now left|].
    apply elem_of_cons in Hc as [->|Hc]; [congruence|].
    apply elem_of_app. right. apply elem_of_app. now right.
  - apply elem_of_app. now left.
Qed.

(** The nodes that a pass with names left over creates. *)
Lemma passStep_new lit marker fb L ns ns1 :
  passStep lit marker fb L ns ns1 -> L <> [] ->
  exists p,
    injectionParent marker fb ns = Some p /\ p < length ns /\
    Forall2 (fun id c => ns !! id = None /\ ns1 !! id = Some (lit c (Some p)) /\
                         id ∈ kidsOf ns1 p)
            (seq (length ns) (length L)) L.
Proof.
  intros Hstep HL.
  pose proof Hstep as [[HL' _]|(_ & p & pn & cs & Hpar & Hp & Hcs & Hm & E)]; [contradiction|].
  assert (Hlt : p < length ns) by (eapply lookup_lt_Some; eassumption).
  exists p. split; [exact Hpar|]. split; [exact Hlt|].
  apply Forall2_same_length_lookup. split; [apply length_seq|].
  intros i id c Hid Hc. apply lookup_seq in Hid as [-> Hi].
  split; [apply lookup_ge_None; lia|]. split.
  - rewrite E, list_lookup_insert_ne by lia.
    rewrite lookup_app_r by lia.
    replace (length ns + i - length ns) with i by lia.
    now rewrite list_lookup_fmap, Hc.
  - rewrite (passStep_kids _ _ _ _ _ _ _ Hstep Hlt).
    rewrite bool_decide_eq_true_2 by auto.
    apply injectedChildren_elem. apply elem_of_seq. lia.
Qed.

(** A pass leaves the other pass its place. *)
Lemma passStep_point lit marker fb L ns ns1 payload' marker' fb' :
  passStep lit marker fb L ns ns1 ->
  (forall m, marker = Some m -> marker' <> Some m) ->
  passPoint payload' marker' fb' ns = true ->
  passPoint payload' marker' fb' ns1 = true /\
  injectionParent marker' fb' ns1 = injectionParent marker' fb' ns.
Proof.
  intros Hstep Hdiff Hpt.
  assert (Hold : forall i n, ns !! i = Some n ->
                   exists n1, ns1 !! i = Some n1 /\ reshaped n n1).
  { intros i n Hi. destruct (passStep_old _ _ _ _ _ _ _ _ Hstep Hi) as (n1 & H1 & H2 & _). eauto. }
  destruct marker' as [m'|]; simpl in *.
  - apply markerInPlace_inv in Hpt
      as (Hmark & mn & p' & pn' & cs' & Hm' & Hpar' & Hp' & Hcs' & Honce).
    destruct (Hold _ _ Hm') as (mn1 & Hm1 & Rm).
    destruct Rm as (Rname & _ & _ & Rdata & _ & Rpar & _).
    split; [|rewrite Hm1, Hm'; simpl; congruence].
    unfold markerInPlace. apply andb_true_iff. split.
    + unfold isMarker in *. rewrite Hm1. rewrite Hm' in Hmark. now rewrite Rname, Rdata.
    + rewrite Hm1, Rpar, Hpar'. apply Nat.eqb_eq.
      assert (Hlt' : p' < length ns) by (eapply lookup_lt_Some; eassumption).
      rewrite (passStep_kids _ _ _ _ _ _ _ Hstep Hlt').
      rewrite (kidsOf_lookup _ _ _ _ Hp' Hcs').
      case_bool_decide as Hcase; [|exact Honce].
      destruct Hcase as [HL Hpar].
      destruct Hstep as [[HL' _]|(_ & p & pn & cs & Hpar0 & Hp & Hcs & Hm & _)]; [contradiction|].
      rewrite Hpar in Hpar0. injection Hpar0 as <-.
      rewrite Hp in Hp'. injection Hp' as <-. rewrite Hcs in Hcs'. injection Hcs' as <-.
      rewrite occurrences_injectedChildren; [exact Honce | | | exact Hm].
      * intros E. now apply (Hdiff m').
      * intros Hin. apply elem_of_seq in Hin. apply lookup_lt_Some in Hm'. lia.
  - apply insertionPoint_inv in Hpt as (p' & pn' & cs' & Hpar' & Hp' & Hcs').
    simpl in Hpar'. subst fb'. split; [|reflexivity].
    unfold insertionPoint. simpl.
    destruct (Hold _ _ Hp') as (pn1 & Hp1 & Rp). rewrite Hp1.
    apply bool_decide_eq_true. apply Rp. rewrite Hcs'. eauto.
Qed.


(** ** The two passes, one after the other *)

Lemma points_differ d ns :
  scriptPoint d ns = true -> stylePoint d ns = true ->
  forall m, scriptInjectCommentNode d = Some m -> styleInjectCommentNode d <> Some m.
Proof.
  unfold scriptPoint, stylePoint, passPoint. intros Hs Ht m Hm Hm'.
  rewrite Hm in Hs. rewrite Hm' in Ht.
  apply markerInPlace_inv in Hs as [Hs _]. apply markerInPlace_inv in Ht as [Ht _].
  exact (isMarker_kinds _ _ Hs Ht).
Qed.

(** On a document as the scan leaves it [ensureRequires] returns, and what
    it does to the nodes is the script pass followed by the style pass. *)
Lemma ensureRequires_steps G d r s R :
  arrays s !! r = Some R ->
  scriptPoint d (nodes s) = true ->
  (_isExtractStyle G = true -> stylePoint d (nodes s) = true) ->
  exists d1 s1 nb,
    ensureRequires G d r s = (Ok d1, s1) /\
    passStep util.scriptNode (scriptInjectCommentNode d) (bodyNode d)
             (leftover (map Resource.chunkName (scriptResources d)) R) (nodes s) nb /\
    passStep util.styleNode (styleInjectCommentNode d) (headNode d)
             (styleLeftover G d R) nb (nodes s1) /\
    (_isExtractStyle G = true ->
     stylePoint d nb = true /\
     injectionParent (styleInjectCommentNode d) (headNode d) nb
     = injectionParent (styleInjectCommentNode d) (headNode d) (nodes s)) /\
    (_isExtractStyle G = false -> nodes s1 = nb) /\
    d1 = pushStyles (zip_with styleResource (styleIds G d R s) (styleLeftover G d R))
           (pushScripts
              (zip_with scriptResource (scriptIds d R s)
                        (leftover (map Resource.chunkName (scriptResources d)) R)) d).
Proof.
  intros HR Hscript Hstyle.
  assert (Hr : r < length (arrays s)) by (eapply lookup_lt_Some; eassumption).
  destruct (ensureRequires_total G d r s R HR) as (d1 & s1 & H).
  { now apply (passPoint_insertionPoint "SCRIPT"). }
  { intros HG. now apply (passPoint_insertionPoint "STYLE"), Hstyle. }
  destruct (ensureRequires_inv _ _ _ _ _ _ _ HR H) as (sb & Hpass1 & HRb & _ & _ & _ & Hrest).
  destruct (ensureRequires_Ok _ _ _ _ _ _ _ HR H) as (Hd & _).
  set (sa := withArrays (arrays s ++ [R]) s) in *.
  assert (HRa : arrays sa !! length (arrays s) = Some R).
  { simpl. rewrite lookup_app_r by lia. now rewrite Nat.sub_diag. }
  destruct (pass_step util.scriptNode "SCRIPT" (scriptResources d) (scriptInjectCommentNode d)
              (bodyNode d) (length (arrays s)) sa R HRa Hscript) as (sb' & E1 & Hstep1 & _).
  rewrite Hpass1 in E1. injection E1 as <-.
  exists d1, s1, (nodes sb). split; [exact H|]. split; [exact Hstep1|].
  unfold styleLeftover in *. destruct (_isExtractStyle G) eqn:HG.
  - destruct Hrest as [Hpass2 _].
    destruct (passStep_point _ _ _ _ _ _ "STYLE" (styleInjectCommentNode d) (headNode d) Hstep1)
      as [Hpt Hpar].
    { intros m Hm. exact (points_differ d (nodes s) Hscript (Hstyle eq_refl) m Hm). }
    { exact (Hstyle eq_refl). }
    set (sc := withArrays (arrays sb ++ [R]) sb) in *.
    assert (HRc : arrays sc !! length (arrays sb) = Some R).
    { simpl. rewrite lookup_app_r by lia. now rewrite Nat.sub_diag. }
    destruct (pass_step util.styleNode "STYLE" (stylesResources d) (styleInjectCommentNode d)
                (headNode d) (length (arrays sb)) sc R HRc Hpt) as (s1' & E2 & Hstep2 & _).
    rewrite Hpass2 in E2. injection E2 as _ <-.
    split; [exact Hstep2|]. split; [auto|]. split; [discriminate | exact Hd].
  - subst s1. split; [left; auto|]. split; [discriminate|]. split; [auto | exact Hd].
Qed.

(** ** The style pass *)


(** ** The script marker *)

(** The style pass in the child array that holds the new scripts: the
    links replace the style marker on one side of the scripts or the other,
    or they are put behind everything. *)
Lemma injectedChildren_around marker links pre ids post :
  match marker with
  | Some m' => occurrences m' (pre ++ ids ++ post) = 1 /\ m' ∉ ids
  | None => True
  end ->
  exists pre1 post1,
    injectedChildren marker links (pre ++ ids ++ post) = pre1 ++ ids ++ post1 /\
    match marker with
    | Some m' =>
        (exists a b, pre = a ++ m' :: b /\ pre1 = a ++ links ++ b /\ post1 = post) \/
        (exists a b, post = a ++ m' :: b /\ pre1 = pre /\ post1 = a ++ links ++ b)
    | None => pre1 = pre /\ post1 = post ++ links
    end.
Proof.
  destruct marker as [m'|]; simpl.
  - intros [Honce Hids]. rewrite !occurrences_app in Honce.
    apply occurrences_absent in Hids.
    destruct (decide (m' ∈ pre)) as [Hin|Hout].
    + assert (H1 : occurrences m' pre = 1).
      { destruct (occurrences m' pre) as [|[|k]] eqn:E; [|reflexivity|lia].
        apply occurrences_absent in E. contradiction. }
      apply occurrences_once in H1 as (a & b & -> & Ha & Hb).
      exists (a ++ links ++ b), post. split.
      * change (injectedChildren (Some m') links ((a ++ m' :: b) ++ ids ++ post)
                = (a ++ links ++ b) ++ ids ++ post).
        rewrite <- (app_assoc a (m' :: b)).
        change ((m' :: b) ++ ids ++ post) with (m' :: (b ++ ids ++ post)).
        rewrite injectedChildren_at by exact Ha. now rewrite <- !app_assoc.
      * left. exists a, b. auto.
    + apply occurrences_absent in Hout.
      assert (H1 : occurrences m' post = 1) by lia.
      apply occurrences_once in H1 as (a & b & -> & Ha & Hb).
      exists pre, (a ++ links ++ b). split.
      * change (injectedChildren (Some m') links (pre ++ ids ++ a ++ m' :: b)
                = pre ++ ids ++ a ++ links ++ b).
        rewrite !app_assoc. rewrite injectedChildren_at; [now rewrite <- !app_assoc|].
        intros Hin. apply elem_of_app in Hin as [Hin|Hin]; [|contradiction].
        apply elem_of_app in Hin as [Hin|Hin].
        -- apply occurrences_absent in Hout. contradiction.
        -- apply occurrences_absent in Hids. contradiction.
      * right. exists a, b. auto.
  - intros _. exists pre, (post ++ links). split; [|auto].
    now rewrite <- !app_assoc.
Qed.

(** C4: when the script marker stands once among the children of its
    parent and names are left over, the script pass takes it out of the
    child array and puts the new script nodes where it stood, one per
    left-over name in the order of the names.  After the whole call, with
    the style marker standing in the tree as well when styles are
    extracted, the marker is gone and the new scripts stand together in
    that order, with the children that were before the marker before them
    and those that were behind it behind them; the style pass changes one
    thing, and only when it injects into the same child array: its links
    take the place of the style marker, on whichever side of the scripts
    that stood, or are put behind the last child when there is no style
    marker.  So the scripts begin at the index of the marker unless a style
    marker before it has been replaced. *)
Theorem marker_replaced_by_scripts G d r s R m mn p pn pre post :
  arrays s !! r = Some R ->
  scriptInjectCommentNode d = Some m ->
  isMarker "SCRIPT" (nodes s) m = true ->
  nodes s !! m = Some mn -> parentNode mn = Some p ->
  nodes s !! p = Some pn -> childNodes pn = Some (pre ++ m :: post) ->
  m ∉ pre -> m ∉ post ->
  leftover (map Resource.chunkName (scriptResources d)) R <> [] ->
  let L := leftover (map Resource.chunkName (scriptResources d)) R in
  let ids := scriptIds d R s in
  let links := styleIds G d R s in
  let styleParent := injectionParent (styleInjectCommentNode d) (headNode d) (nodes s) in
  (exists sb,
     _ensureRequireScripts d r s = (Ok ids, sb) /\
     childrenIn sb (Some p) = Some (pre ++ ids ++ post) /\
     (m ∉ pre ++ ids ++ post) /\
     Forall2 (fun id name => nodes sb !! id = Some (scriptElement name p)) ids L) /\
  ((_isExtractStyle G = true -> stylePoint d (nodes s) = true) ->
   exists d1 s1 pre1 post1,
     ensureRequires G d r s = (Ok d1, s1) /\
     childrenIn s1 (Some p) = Some (pre1 ++ ids ++ post1) /\
     (m ∉ pre1 ++ ids ++ post1) /\
     Forall2 (fun id name => nodes s1 !! id = Some (scriptElement name p)) ids L /\
     (links = [] \/ styleParent <> Some p -> pre1 = pre /\ post1 = post) /\
     (links <> [] -> styleParent = Some p ->
      match styleInjectCommentNode d with
      | Some m' =>
          (exists a b, pre = a ++ m' :: b /\ pre1 = a ++ links ++ b /\ post1 = post) \/
          (exists a b, post = a ++ m' :: b /\ pre1 = pre /\ post1 = a ++ links ++ b)
      | None => pre1 = pre /\ post1 = post ++ links
      end)).
Proof.
  intros HR Hmarker Hmark Hm Hpar Hp Hcs Hpre Hpost HL L ids links styleParent.
  assert (Hmlt : m < length (nodes s)) by (eapply lookup_lt_Some; eassumption).
  assert (Hplt : p < length (nodes s)) by (eapply lookup_lt_Some; eassumption).
  split.
  { destruct (script_pass_at_marker d r s R m mn p pn pre post
                HR Hmarker Hm Hpar Hp Hcs Hpre Hpost HL) as (sb & H1 & H2 & H3 & H4 & _).
    exists sb. auto. }
  intros Hstyle.
  assert (Hscript : scriptPoint d (nodes s) = true).
  { unfold scriptPoint, passPoint, markerInPlace. rewrite Hmarker, Hmark, Hm, Hpar. simpl.
    apply Nat.eqb_eq. rewrite (kidsOf_lookup _ _ _ _ Hp Hcs).
    apply occurrences_once. eauto. }
  destruct (ensureRequires_steps G d r s R HR Hscript Hstyle)
    as (d1 & s1 & nb & H1 & Hstep1 & Hstep2 & Hpt & Hoff & _).
  fold L in Hstep1.
  (* the script pass *)
  destruct (passStep_new _ _ _ _ _ _ Hstep1 HL) as (p0 & Hpar0 & _ & Hnew).
  assert (Ep0 : p0 = p).
  { rewrite Hmarker in Hpar0. simpl in Hpar0. rewrite Hm in Hpar0. simpl in Hpar0. congruence. }
  subst p0.
  assert (Hkb : kidsOf nb p = pre ++ ids ++ post).
  { rewrite (passStep_kids _ _ _ _ _ _ _ Hstep1 Hplt).
    rewrite bool_decide_eq_true_2 by auto.
    rewrite (kidsOf_lookup _ _ _ _ Hp Hcs), Hmarker.
    now rewrite injectedChildren_at by exact Hpre. }
  assert (Hlenb : length nb = length (nodes s) + length L)
    by exact (passStep_length _ _ _ _ _ _ Hstep1).
  assert (Hlinks : links = seq (length nb) (length (styleLeftover G d R))).
  { unfold links, styleIds. now rewrite Hlenb. }
  assert (Hscripts : Forall2 (fun id name => nodes s1 !! id = Some (scriptElement name p)) ids L).
  { eapply Forall2_impl; [exact Hnew|]. intros id c (_ & Hid & _).
    destruct (passStep_old _ _ _ _ _ _ _ _ Hstep2 Hid) as (n1 & Hn1 & _ & Hleaf).
    rewrite Hn1, (Hleaf eq_refl). reflexivity. }
  assert (Hkids1 : forall cs1, kidsOf (nodes s1) p = cs1 -> childrenIn s1 (Some p) = Some cs1).
  { intros cs1 <-.
    assert (Hpb : exists pb, nb !! p = Some pb /\ is_Some (childNodes pb)).
    { destruct (passStep_old _ _ _ _ _ _ _ _ Hstep1 Hp) as (pb & Hpb & Rb & _).
      exists pb. split; [exact Hpb|]. apply Rb. rewrite Hcs. eauto. }
    destruct Hpb as (pb & Hpb & Hcb).
    destruct (passStep_old _ _ _ _ _ _ _ _ Hstep2 Hpb) as (p1 & Hp1 & R1 & _).
    destruct R1 as (_ & _ & _ & _ & _ & _ & Hc1). destruct (Hc1 Hcb) as [cs1 Hcs1].
    unfold childrenIn, kidsOf. simpl. rewrite Hp1. simpl. now rewrite Hcs1. }
  assert (Hfresh : forall l : list nat,
             (forall x, x ∈ l -> x ∈ pre \/ x ∈ post \/ length (nodes s) <= x) -> m ∉ l).
  { intros l Hl Hin. destruct (Hl _ Hin) as [H|[H|H]]; [contradiction | contradiction | lia]. }
  assert (Hplb : p < length nb) by lia.
  pose proof (passStep_kids _ _ _ _ _ _ _ Hstep2 Hplb) as Hk1. rewrite Hkb in Hk1.
  case_bool_decide as Hcase.
  - (* the style pass injects into the same child array *)
    destruct Hcase as [HL2 Hpar2].
    assert (HG : _isExtractStyle G = true).
    { unfold styleLeftover in HL2. destruct (_isExtractStyle G); [reflexivity | congruence]. }
    destruct (Hpt HG) as [Hptb Hsame].
    destruct (injectedChildren_around (styleInjectCommentNode d) links pre ids post)
      as (pre1 & post1 & E & Hshape).
    { destruct (styleInjectCommentNode d) as [m'|] eqn:Hm'; [|exact I].
      pose proof (Hstyle HG) as Hpts.
      unfold stylePoint, passPoint in Hptb, Hpts. rewrite Hm' in Hptb, Hpts.
      apply markerInPlace_inv in Hpts as (_ & mn0 & _ & _ & _ & Hm0 & _).
      apply markerInPlace_inv in Hptb
        as (_ & mn' & p' & pn' & cs' & Hmb & Hparb & Hpb & Hcb & H1').
      assert (p' = p) by (simpl in Hpar2; rewrite Hmb in Hpar2; simpl in Hpar2; congruence).
      subst p'. rewrite <- (kidsOf_lookup _ _ _ _ Hpb Hcb), Hkb in H1'.
      split; [exact H1'|].
      intros Hin. unfold ids, scriptIds in Hin. apply elem_of_seq in Hin.
      apply lookup_lt_Some in Hm0. lia. }
    rewrite <- Hlinks in Hk1. rewrite E in Hk1.
    exists d1, s1, pre1, post1. split; [exact H1|]. split; [now apply Hkids1|].
    split; [|split; [exact Hscripts|split]].
    + apply Hfresh. intros x Hx.
      assert (Hlk : forall y, y ∈ links -> length (nodes s) <= y).
      { intros y Hy. unfold links, styleIds in Hy. apply elem_of_seq in Hy. lia. }
      assert (Hid : forall y, y ∈ ids -> length (nodes s) <= y).
      { intros y Hy. unfold ids, scriptIds in Hy. apply elem_of_seq in Hy. lia. }
      destruct (styleInjectCommentNode d) as [m'|].
      * destruct Hshape as [(a & b & Ea & -> & ->)|(a & b & Ea & -> & ->)];
          rewrite Ea; rewrite !elem_of_app in Hx; rewrite ?elem_of_app, ?elem_of_cons;
          intuition eauto.
      * destruct Hshape as [-> ->]. rewrite !elem_of_app in Hx. intuition eauto.
    + intros [Hnone|Hother].
      * exfalso. rewrite Hlinks in Hnone. destruct (styleLeftover G d R); [congruence|discriminate].
      * exfalso. apply Hother. unfold styleParent. now rewrite <- Hsame.
    + intros _ _. exact Hshape.
  - (* the style pass leaves this child array alone *)
    exists d1, s1, pre, post. split; [exact H1|]. split; [now apply Hkids1|].
    split; [|split; [exact Hscripts|split]].
    + apply Hfresh. intros x Hx. rewrite !elem_of_app in Hx.
      destruct Hx as [Hx|[Hx|Hx]]; [auto | | auto].
      right. right. unfold ids, scriptIds in Hx. apply elem_of_seq in Hx. lia.
    + auto.
    + intros Hsome Hpar2. exfalso. apply Hcase. split.
      * intros E. apply Hsome. rewrite Hlinks, E. reflexivity.
      * assert (HG : _isExtractStyle G = true).
        { unfold links, styleIds, styleLeftover in Hsome.
          destruct (_isExtractStyle G); [reflexivity | now contradiction Hsome]. }
        destruct (Hpt HG) as [_ Hsame]. rewrite Hsame. exact Hpar2.
Qed.

(** ** Completeness, measured in the tree *)

Lemma new_reshaped c n n1 h : reshaped n n1 -> Resource.new c n1 h = Resource.new c n h.
Proof.
  intros (Hn & _ & Ha & Hd & _). unfold Resource.new, Resource.nodeData. now rewrite Hn, Ha, Hd.
Qed.

Lemma carriesScript_kept ns ns1 name c :
  (forall i n, ns !! i = Some n -> exists n1, ns1 !! i = Some n1 /\ reshaped n n1) ->
  carriesScript ns name c = true -> carriesScript ns1 name c = true.
Proof.
  intros Hold. unfold carriesScript. destruct (ns !! c) as [cn|] eqn:Hc; [|discriminate].
  destruct (Hold _ _ Hc) as (n1 & -> & Hr). now rewrite (new_reshaped _ _ _ _ Hr).
Qed.

Lemma isNamed_kept ns ns1 name c :
  (forall i n, ns !! i = Some n -> exists n1, ns1 !! i = Some n1 /\ reshaped n n1) ->
  isNamed ns name c = true -> isNamed ns1 name c = true.
Proof.
  intros Hold. unfold isNamed. destruct (ns !! c) as [cn|] eqn:Hc; [|discriminate].
  destruct (Hold _ _ Hc) as (n1 & -> & Hr & _). now rewrite Hr.
Qed.

(** A marker is a comment: it is no script, and no node of another name. *)
Lemma marker_no_script payload ns name c :
  isMarker payload ns c = true -> carriesScript ns name c = false.
Proof.
  unfold isMarker, carriesScript. destruct (ns !! c) as [cn|]; [|discriminate].
  intros H. apply andb_true_iff in H as [H _]. apply String.eqb_eq in H.
  apply bool_decide_eq_false. unfold Resource.new. rewrite H. simpl. intros [E _]. discriminate.
Qed.

Lemma marker_named payload ns name c :
  isMarker payload ns c = true -> isNamed ns name c = true -> name = "#comment".
Proof.
  unfold isMarker, isNamed. destruct (ns !! c) as [cn|]; [|discriminate].
  intros H1 H2. apply andb_true_iff in H1 as [H1 _].
  apply String.eqb_eq in H1, H2. congruence.
Qed.

(** A script that a scan comes by stands in the tree. *)
Lemma scriptInTree_intro ns name q c :
  c ∈ kidsOf ns q -> carriesScript ns name c = true -> scriptInTree ns name = true.
Proof.
  intros Hc Hs. destruct (kidsOf_inv _ _ _ Hc) as (qn & Hq & Hcs).
  unfold scriptInTree. apply existsb_exists. exists qn. split.
  - apply list_elem_of_In. eapply list_elem_of_lookup_2. exact Hq.
  - rewrite Hcs. simpl. apply existsb_exists. exists c.
    split; [now apply list_elem_of_In | exact Hs].
Qed.

Lemma elem_of_flat_map {A B} (f : A -> list B) (l : list A) (y : B) :
  y ∈ flat_map f l <-> exists x, x ∈ l /\ y ∈ f x.
Proof.
  rewrite list_elem_of_In, in_flat_map.
  split; intros (x & H1 & H2); exists x; split; now apply list_elem_of_In.
Qed.

Lemma htmlKids_elem ns root b :
  b ∈ htmlKids ns root <->
  exists h, h ∈ kidsOf ns root /\ isNamed ns "html" h = true /\ b ∈ kidsOf ns h.
Proof.
  unfold htmlKids. rewrite elem_of_flat_map. split.
  - intros (h & Hh & Hb). exists h. destruct (isNamed ns "html" h); [auto|].
    now apply elem_of_nil in Hb.
  - intros (h & Hh & Hn & Hb). exists h. now rewrite Hn.
Qed.

Lemma scanned_elem ns root c :
  c ∈ scanned ns root <-> exists p, anchored ns root p = true /\ c ∈ kidsOf ns p.
Proof.
  unfold scanned, anchored. rewrite elem_of_flat_map. split.
  - intros (p & Hp & Hc). exists p.
    destruct (isNamed ns "head" p || isNamed ns "body" p)%bool; [|now apply elem_of_nil in Hc].
    split; [|exact Hc]. rewrite andb_true_r. now apply bool_decide_eq_true.
  - intros (p & Hp & Hc). apply andb_true_iff in Hp as [Hp Hn].
    apply bool_decide_eq_true in Hp. exists p. now rewrite Hn.
Qed.

Lemma scriptScanned_inTree ns root name :
  scriptScanned ns root name = true -> scriptInTree ns name = true.
Proof.
  unfold scriptScanned. intros H. apply existsb_exists in H as (c & Hc & Hs).
  apply list_elem_of_In, scanned_elem in Hc as (p & _ & Hc).
  exact (scriptInTree_intro _ _ _ _ Hc Hs).
Qed.

(** What a scan reads stays where it is when the nodes that are kept keep
    their names and their places, and every node that is not kept is a
    comment. *)
Lemma scanned_kept ns ns1 root (keep : nid -> Prop) :
  (forall i n, ns !! i = Some n -> exists n1, ns1 !! i = Some n1 /\ reshaped n n1) ->
  (forall q c, c ∈ kidsOf ns q -> keep c -> c ∈ kidsOf ns1 q) ->
  (forall name c, isNamed ns name c = true -> name <> "#comment" -> keep c) ->
  (forall p, anchored ns root p = true -> anchored ns1 root p = true) /\
  (forall c, c ∈ scanned ns root -> keep c -> c ∈ scanned ns1 root).
Proof.
  intros Hold Hkids Hnamed.
  assert (Hanch : forall p, anchored ns root p = true -> anchored ns1 root p = true).
  { intros p Hp. unfold anchored in *. apply andb_true_iff in Hp as [Hp Hn].
    apply bool_decide_eq_true in Hp. apply htmlKids_elem in Hp as (h & Hh & Hhn & Hb).
    assert (Hkp : keep p).
    { apply orb_true_iff in Hn as [Hn|Hn]; (eapply Hnamed; [exact Hn | discriminate]). }
    apply andb_true_iff. split.
    - apply bool_decide_eq_true. apply htmlKids_elem. exists h. split.
      + apply Hkids; [exact Hh|]. eapply Hnamed; [exact Hhn | discriminate].
      + split; [now apply (isNamed_kept ns) | now apply Hkids].
    - apply orb_true_iff in Hn as [Hn|Hn]; apply orb_true_iff;
        [left | right]; now apply (isNamed_kept ns). }
  split; [exact Hanch|].
  intros c Hc Hk. apply scanned_elem in Hc as (p & Hp & Hc).
  apply scanned_elem. exists p. split; [now apply Hanch | now apply Hkids].
Qed.

(** C3, for chunk names without file extension and a document whose
    markers stand in the tree as the scan leaves them, the scripts being
    injected below a [head] or [body] that a scan of the document reads:
    one call of [ensureRequires] returns, and afterwards every required
    name is present in the document, as the chunk name of a script that a
    scan of the tree comes by and as the chunk name of a script resource.
    A required name that was present is left as it was: no child leaves a
    child list but the two markers, and every node that existed keeps its
    name, its attributes and its parent.  Every left-over name is injected:
    it has a new [script] node with that [src], which is a child of the
    parent of the script marker, or of [body] when there is no marker, and
    which the document records behind the script resources that it had. *)
Theorem ensureRequires_complete G d r s R root p :
  arrays s !! r = Some R ->
  Forall noExtension R ->
  document d = Some root ->
  scriptPoint d (nodes s) = true ->
  (_isExtractStyle G = true -> stylePoint d (nodes s) = true) ->
  injectionParent (scriptInjectCommentNode d) (bodyNode d) (nodes s) = Some p ->
  anchored (nodes s) root p = true ->
  (forall n, n ∈ R -> Some n ∈ map Resource.chunkName (scriptResources d) ->
             scriptScanned (nodes s) root n = true) ->
  let L := leftover (map Resource.chunkName (scriptResources d)) R in
  exists d1 s1,
    ensureRequires G d r s = (Ok d1, s1) /\
    (forall n, n ∈ R -> scriptScanned (nodes s1) root n = true) /\
    (forall n, n ∈ R -> Some n ∈ map Resource.chunkName (scriptResources d1)) /\
    (forall q c, c ∈ kidsOf (nodes s) q -> scriptInjectCommentNode d <> Some c ->
                 styleInjectCommentNode d <> Some c -> c ∈ kidsOf (nodes s1) q) /\
    (forall i n, nodes s !! i = Some n -> exists n1, nodes s1 !! i = Some n1 /\ reshaped n n1) /\
    scriptResources d1 = scriptResources d ++ zip_with scriptResource (scriptIds d R s) L /\
    Forall2 (fun id name => nodes s !! id = None /\
                            nodes s1 !! id = Some (scriptElement name p) /\
                            id ∈ kidsOf (nodes s1) p)
            (scriptIds d R s) L.
Proof.
  intros HR Hno Hroot Hscript Hstyle Hpar Hanchored Htree L.
  destruct (ensureRequires_steps G d r s R HR Hscript Hstyle)
    as (d1 & s1 & nb & H & Hstep1 & Hstep2 & _ & Hsame & Hd).
  fold L in Hstep1.
  assert (Hold1 : forall i n, nodes s !! i = Some n ->
                    exists n1, nb !! i = Some n1 /\ reshaped n n1).
  { intros i n Hi. destruct (passStep_old _ _ _ _ _ _ _ _ Hstep1 Hi) as (n1 & ? & ? & _). eauto. }
  assert (Hold2 : forall i n, nb !! i = Some n ->
                    exists n1, nodes s1 !! i = Some n1 /\ reshaped n n1).
  { intros i n Hi. destruct (passStep_old _ _ _ _ _ _ _ _ Hstep2 Hi) as (n1 & ? & ? & _). eauto. }
  assert (Hold : forall i n, nodes s !! i = Some n ->
                   exists n1, nodes s1 !! i = Some n1 /\ reshaped n n1).
  { intros i n Hi. destruct (Hold1 _ _ Hi) as (n1 & H1 & R1).
    destruct (Hold2 _ _ H1) as (n2 & H2 & R2).
    exists n2. split; [exact H2 | eapply reshaped_trans; eassumption]. }
  set (keep := fun c : nid =>
                 scriptInjectCommentNode d <> Some c /\
                 (_isExtractStyle G = true -> styleInjectCommentNode d <> Some c)).
  assert (Hkids2 : forall q c, c ∈ kidsOf nb q ->
                     (_isExtractStyle G = true -> styleInjectCommentNode d <> Some c) ->
                     c ∈ kidsOf (nodes s1) q).
  { intros q c Hc Hne. destruct (_isExtractStyle G) eqn:HG.
    - eapply passStep_child; [exact Hstep2 | exact Hc | auto].
    - rewrite (Hsame eq_refl). exact Hc. }
  assert (Hkids : forall q c, c ∈ kidsOf (nodes s) q -> keep c -> c ∈ kidsOf (nodes s1) q).
  { intros q c Hc [Hn1 Hn2]. apply Hkids2; [|exact Hn2].
    eapply passStep_child; [exact Hstep1 | exact Hc | exact Hn1]. }
  assert (Hmarks : forall c, ~ keep c ->
                     exists payload, isMarker payload (nodes s) c = true).
  { intros c Hc. destruct (decide (scriptInjectCommentNode d = Some c)) as [Hm|Hm].
    - exists "SCRIPT". unfold scriptPoint, passPoint in Hscript. rewrite Hm in Hscript.
      now apply markerInPlace_inv in Hscript as [Hmk _].
    - destruct (_isExtractStyle G) eqn:HG.
      + destruct (decide (styleInjectCommentNode d = Some c)) as [Hm'|Hm'].
        * exists "STYLE". specialize (Hstyle eq_refl).
          unfold stylePoint, passPoint in Hstyle. rewrite Hm' in Hstyle.
          now apply markerInPlace_inv in Hstyle as [Hmk _].
        * exfalso. apply Hc. split; [exact Hm | intros _; exact Hm'].
      + exfalso. apply Hc. split; [exact Hm | discriminate]. }
  assert (Hkeep : forall c, (forall payload, isMarker payload (nodes s) c = false) -> keep c).
  { intros c Hc.
    assert (Hdec : keep c \/ ~ keep c).
    { unfold keep. destruct (decide (scriptInjectCommentNode d = Some c)) as [Hm|Hm].
      - right. intros [Hk _]. contradiction.
      - destruct (_isExtractStyle G).
        + destruct (decide (styleInjectCommentNode d = Some c)) as [Hm'|Hm'].
          * right. intros [_ Hk]. now apply Hk.
          * left. split; [exact Hm | intros _; exact Hm'].
        + left. split; [exact Hm | discriminate]. }
    destruct Hdec as [Hk|Hk]; [exact Hk|].
    destruct (Hmarks c Hk) as [payload Hp]. rewrite Hc in Hp. discriminate. }
  assert (Hnamed : forall name c, isNamed (nodes s) name c = true -> name <> "#comment" ->
                                  keep c).
  { intros name c Hn Hne. apply Hkeep. intros payload.
    destruct (isMarker payload (nodes s) c) eqn:Hmk; [|reflexivity].
    exfalso. apply Hne. exact (marker_named _ _ _ _ Hmk Hn). }
  destruct (scanned_kept (nodes s) (nodes s1) root keep Hold Hkids Hnamed)
    as [Hanch Hscanned].
  assert (Hfresh : forall id, nodes s !! id = None ->
                     _isExtractStyle G = true -> styleInjectCommentNode d <> Some id).
  { intros id Hid HG Hm. specialize (Hstyle HG).
    unfold stylePoint, passPoint in Hstyle. rewrite Hm in Hstyle.
    apply markerInPlace_inv in Hstyle as (_ & mn & ? & ? & ? & Hmn & _). congruence. }
  assert (Hnew : Forall2 (fun id name => nodes s !! id = None /\
                                         nodes s1 !! id = Some (scriptElement name p) /\
                                         id ∈ kidsOf (nodes s1) p)
                         (scriptIds d R s) L).
  { destruct (decide (L = [])) as [HL|HL].
    - unfold scriptIds. fold L. rewrite HL. constructor.
    - destruct (passStep_new _ _ _ _ _ _ Hstep1 HL) as (p' & Hpar' & Hlt & Hnew).
      rewrite Hpar in Hpar'. injection Hpar' as <-.
      unfold scriptIds. fold L.
      eapply Forall2_impl; [exact Hnew|]. intros id c (Hid0 & Hid & Hkid).
      split; [exact Hid0|].
      destruct (passStep_old _ _ _ _ _ _ _ _ Hstep2 Hid) as (n1 & H1 & _ & Hleaf).
      rewrite (Hleaf eq_refl) in H1. split; [exact H1|].
      apply Hkids2; [exact Hkid | now apply Hfresh]. }
  exists d1, s1. split; [exact H|]. split.
  { intros n Hn. unfold scriptScanned. apply existsb_exists.
    destruct (leftover_elem (map Resource.chunkName (scriptResources d)) R n Hn) as [HL|HS].
    - fold L in HL. apply list_elem_of_lookup in HL as (i & Hi).
      destruct (Forall2_lookup_r _ _ _ _ _ Hnew Hi) as (id & _ & _ & Hid & Hkid).
      exists id. split.
      + apply list_elem_of_In, scanned_elem. exists p. split; [now apply Hanch | exact Hkid].
      + unfold carriesScript. rewrite Hid. apply bool_decide_eq_true.
        split; [reflexivity|]. simpl. f_equal.
        rewrite Forall_forall in Hno. exact (Hno n Hn).
    - pose proof (Htree n Hn HS) as Hpresent. unfold scriptScanned in Hpresent.
      apply existsb_exists in Hpresent as (c & Hc & Hs). apply list_elem_of_In in Hc.
      exists c. split.
      + apply list_elem_of_In, Hscanned; [exact Hc|]. apply Hkeep. intros payload.
        destruct (isMarker payload (nodes s) c) eqn:Hmk; [|reflexivity].
        rewrite (marker_no_script _ _ n _ Hmk) in Hs. discriminate.
      + eapply carriesScript_kept; [exact Hold | exact Hs]. }
  split.
  { intros n Hn. rewrite Hd. simpl.
    rewrite map_app, chunkNames_scriptResource by apply length_seq.
    rewrite map_stripExt_noExtension
      by (eapply Forall_sublist; [apply leftover_sublist | exact Hno]).
    apply elem_of_app.
    destruct (leftover_elem (map Resource.chunkName (scriptResources d)) R n Hn) as [HL|HS].
    - right. now apply (list_elem_of_fmap_2 Some).
    - now left. }
  split.
  { intros q c Hc Hn1 Hn2. apply Hkids; [exact Hc|]. split; auto. }
  split; [exact Hold|]. split; [now rewrite Hd | exact Hnew].
Qed.

(** ** The three properties on scanned documents *)

Lemma ensureRequires_complete_witness :
  fst (_findOutAll (blankDoc 0) (vendorState ["vendor"; "app"])) = Ok vendorDoc /\
  exists d1 s1,
    ensureRequires extractG vendorDoc 0 (vendorState ["vendor"; "app"]) = (Ok d1, s1) /\
    scriptScanned (nodes s1) 0 "vendor" = true /\
    scriptScanned (nodes s1) 0 "app" = true /\
    5 ∈ kidsOf (nodes s1) 3 /\
    nodes s1 !! 7 = Some (scriptElement "app" 3) /\
    7 ∈ kidsOf (nodes s1) 3.
Proof.
  split; [reflexivity|].
  destruct (ensureRequires_complete extractG vendorDoc 0 (vendorState ["vendor"; "app"])
              ["vendor"; "app"] 0 3) as (d1 & s1 & H & Htree & _ & Hkids & _ & _ & Hnew).
  - reflexivity.
  - repeat constructor.
  - reflexivity.
  - reflexivity.
  - intros _. reflexivity.
  - reflexivity.
  - reflexivity.
  - intros n _ Hn. simpl in Hn. apply list_elem_of_singleton in Hn. injection Hn as ->.
    reflexivity.
  - exists d1, s1. split; [exact H|].
    split; [apply Htree; rewrite !elem_of_cons; auto|].
    split; [apply Htree; rewrite !elem_of_cons; auto|].
    split.
    { apply Hkids; [|discriminate|discriminate].
      change (5 ∈ [5; 6]). rewrite !elem_of_cons. auto. }
    apply Forall2_cons_1 in Hnew as [(_ & Hnode & Hkid) _].
    split; [exact Hnode | exact Hkid].
Defined.

Lemma marker_replaced_by_scripts_witness :
  (exists d1 s1,
     ensureRequires extractG markersDoc 0 (markersState ["a"; "b"]) = (Ok d1, s1) /\
     childrenIn s1 (Some 3) = Some ([8; 9] ++ [6; 7] ++ []) /\
     (5 ∉ [8; 9] ++ [6; 7] ++ []) /\
     nodes s1 !! 6 = Some (scriptElement "a" 3) /\
     nodes s1 !! 7 = Some (scriptElement "b" 3)) /\
  (exists d1 s1,
     ensureRequires extractG defaultDoc 0 (defaultState ["vendor"; "app"]) = (Ok d1, s1) /\
     childrenIn s1 (Some 8) = Some ([9] ++ [12; 13] ++ [11]) /\
     (10 ∉ [9] ++ [12; 13] ++ [11]) /\
     nodes s1 !! 12 = Some (scriptElement "vendor" 8) /\
     nodes s1 !! 13 = Some (scriptElement "app" 8)).
Proof.
  split.
  - destruct (marker_replaced_by_scripts extractG markersDoc 0 (markersState ["a"; "b"])
                ["a"; "b"] 5 (commentNode "SCRIPT" (Some 3)) 3
                (element "body" [] (Some 1) [4; 5]) [4] [])
      as [_ Hcall].
    + reflexivity.
    + reflexivity.
    + reflexivity.
    + reflexivity.
    + reflexivity.
    + reflexivity.
    + reflexivity.
    + intros Hin. apply list_elem_of_singleton in Hin. discriminate.
    + apply not_elem_of_nil.
    + discriminate.
    + destruct (Hcall (fun _ => eq_refl))
        as (d1 & s1 & pre1 & post1 & H & Hkids & Hgone & HF & _ & Hshift).
      assert (Hs := Hshift ltac:(discriminate) eq_refl).
      change (styleInjectCommentNode markersDoc) with (Some 4) in Hs. cbv iota beta in Hs.
      destruct Hs as [(a & b & Ea & -> & ->)|(a & b & Ea & _)].
      * destruct a as [|x a]; [|injection Ea as _ Ea; destruct a; discriminate].
        injection Ea as <-.
        exists d1, s1. split; [exact H|]. split; [exact Hkids|]. split; [exact Hgone|].
        apply Forall2_cons_1 in HF as [Ha HF]. apply Forall2_cons_1 in HF as [Hb _].
        split; assumption.
      * destruct a; discriminate.
  - destruct (marker_replaced_by_scripts extractG defaultDoc 0
                (defaultState ["vendor"; "app"]) ["vendor"; "app"] 10
                (commentNode "SCRIPT" (Some 8)) 8 (element "body" [] (Some 2) [9; 10; 11])
                [9] [11])
      as [_ Hcall].
    + reflexivity.
    + reflexivity.
    + reflexivity.
    + reflexivity.
    + reflexivity.
    + reflexivity.
    + reflexivity.
    + intros Hin. apply list_elem_of_singleton in Hin. discriminate.
    + intros Hin. apply list_elem_of_singleton in Hin. discriminate.
    + discriminate.
    + destruct (Hcall (fun _ => eq_refl))
        as (d1 & s1 & pre1 & post1 & H & Hkids & Hgone & HF & Hkeep & _).
      destruct Hkeep as [-> ->]; [right; discriminate|].
      exists d1, s1. split; [exact H|]. split; [exact Hkids|]. split; [exact Hgone|].
      apply Forall2_cons_1 in HF as [Ha HF]. apply Forall2_cons_1 in HF as [Hb _].
      split; assumption.
Defined.


(** ** White space that is not ASCII *)

(** The no-break space is white space for [trim]: production serialization
    removes a text child of [body] that consists of it, and trims it off
    the text that stays. *)
Lemma compact_mode_strips_no_break_space :
  let run := serialize (fun _ _ => EmptyString) productionG nestedDoc
                       (mkState nbspTree [] ∅) in
  fst run = Ok EmptyString
  /\ childrenIn (snd run) (Some 3) = Some [5; 6]
  /\ nodes (snd run) !! 6 = Some (text "x" (Some 3)).
Proof. vm_compute. repeat split. Qed.

(** ** A marker that is gone from the tree *)

(** Where the marker of a document does not stand in the tree, a
    reconciliation can take a script out of it.  Of three documents made
    of one template [<!--SCRIPT--><script src="a"></script>], the last two
    being clones of the cached prototype, the second is reconciled with [a]
    and [p1]: this takes the marker out of the child array of [body], which
    the clones share.  The third document still has that marker; its script
    resource [a] is a script that a scan of its tree comes by, and the
    parent of the marker is the [body] that the scan reads.  Its
    reconciliation with [a] and [p2] returns and records [a] and [p2] as
    script resources, but the pass has dropped the last child of [body],
    the script [a], for the marker that it did not find: the children of
    [body] are the scripts [p2] and [p1], and no script [a] is left in the
    tree. *)
Lemma stale_marker_loses_script :
  exists d1 d2 s,
    firstPage (mkState [] [["a"; "p1"]; ["a"; "p2"]] ∅) = (Ok (d1, d2), s) /\
    document d2 = Some 0 /\
    map Resource.chunkName (scriptResources d2) = [Some "a"] /\
    scriptScanned (nodes s) 0 "a" = true /\
    injectionParent (scriptInjectCommentNode d2) (bodyNode d2) (nodes s) = Some 3 /\
    anchored (nodes s) 0 3 = true /\
    insertionPoint (scriptInjectCommentNode d2) (bodyNode d2) (nodes s) = true /\
    scriptPoint d2 (nodes s) = false /\
    exists d2' s',
      ensureRequires productionG d2 1 s = (Ok d2', s') /\
      map Resource.chunkName (scriptResources d2') = [Some "a"; Some "p2"] /\
      childrenIn s' (bodyNode d2') = Some [7; 6] /\
      nodes s' !! 7 = Some (scriptElement "p2" 3) /\
      nodes s' !! 6 = Some (scriptElement "p1" 3) /\
      scriptInTree (nodes s') "a" = false.
Proof.
  destruct (firstPage (mkState [] [["a"; "p1"]; ["a"; "p2"]] ∅)) as [[[d1 d2]|e] s] eqn:E;
    vm_compute in E; [|discriminate].
  injection E as <- <- <-. eexists _, _, _. split; [reflexivity|].
  do 7 (split; [reflexivity|]).
  match goal with
  | |- exists d s, ?run = _ /\ _ => destruct run as [[d2'|e] s'] eqn:E
  end; vm_compute in E; [|discriminate].
  injection E as <- <-. eexists _, _. split; [reflexivity|].
  vm_compute. repeat split.
Qed.
